(** * LiveMapBox: the route-to-map projection pipeline

    A shallow embedding of the [LiveMapBox] React component (the component
    that fetches the generated routes, places markers, requests one road
    line per route and lets the user pick the visible line), together with
    the properties its specification states about it.

    Layout of the development:
    - [JS]        : the JSON values the component receives and the handful of
                    JavaScript primitives it applies to them;
    - [Effects]   : the events the component causes (console, alert, React
                    state setters, calls into the mapping engine) and the
                    state-and-exception monad the loader runs in;
    - [Loader]    : [fetchRoutesData] and the helpers it calls;
    - [Directions]: the asynchronous tail of [fetchRouteDirections];
    - [Selector]  : [handleRouteClick];
    - [Engines]   : two mapping engines to run the component against;
    - [Expected]  : the events a load is expected to show, written down
                    independently of the code;
    - [Sample]    : sample replies of the route and directions services;
    - the theorems, one section per property. *)

From Stdlib Require Import Floats.PrimFloat.
From Stdlib Require Uint63.
From Stdlib Require Import Ascii String.
From stdpp Require Import gmap strings list pretty.

Set Warnings "-register-all,-inexact-float".
Set Default Proof Using "Type".

(* ===================================================================== *)
(** * JavaScript values and primitives *)
(* ===================================================================== *)

Module JS.

(** What [response.json()] can yield, plus [undefined], which arises as soon
    as a missing property is read.  Numbers are IEEE-754 binary64, as in the
    language.  An object lists its own properties; keys are distinct, as
    [JSON.parse] leaves them. *)
Inductive JSValue :=
| JUndefined
| JNull
| JBool (b : bool)
| JNum (f : float)
| JStr (s : string)
| JArr (l : list JSValue)
| JObj (fs : list (string * JSValue)).

(** Exceptions that can travel through the loader. *)
Inductive Exn :=
| FormatError                  (* new Error('Invalid route data format') *)
| NetworkError                 (* fetch(...) rejected *)
| SyntaxError                  (* response.json() rejected *)
| TypeError (prop : string)    (* property read or method call on a value without it *)
| MapError (c : JSValue).      (* the mapping engine refused coordinate [c] *)

(** [error.message], where the program itself fixes it. *)
Definition error_message (e : Exn) : option string :=
  match e with
  | FormatError => Some "Invalid route data format"
  | _ => None
  end.

Inductive Outcome (A : Type) :=
| Returned (a : A)
| Threw (e : Exn).
Arguments Returned {A} a.
Arguments Threw {A} e.

Definition obind {A B} (o : Outcome A) (k : A → Outcome B) : Outcome B :=
  match o with
  | Returned a => k a
  | Threw e => Threw e
  end.

(** ToBoolean. *)
Definition truthy (v : JSValue) : bool :=
  match v with
  | JUndefined | JNull => false
  | JBool b => b
  | JNum f => negb (is_zero f || is_nan f)
  | JStr s => negb (String.eqb s "")
  | JArr _ | JObj _ => true
  end.

Fixpoint assoc (k : string) (fs : list (string * JSValue)) : option JSValue :=
  match fs with
  | [] => None
  | (k', v) :: fs' => if String.eqb k k' then Some v else assoc k fs'
  end.

(** [v.k] for the data property names the component reads ([success],
    [data], [stops], [location], ...): none of them lives on a prototype, so
    only an object's own properties answer; reading from [null] or
    [undefined] throws. *)
Definition get (v : JSValue) (k : string) : Outcome JSValue :=
  match v with
  | JUndefined | JNull => Threw (TypeError k)
  | JObj fs => Returned (default JUndefined (assoc k fs))
  | _ => Returned JUndefined
  end.

(** The same read where it is known not to throw. *)
Definition field (v : JSValue) (k : string) : JSValue :=
  match v with
  | JObj fs => default JUndefined (assoc k fs)
  | _ => JUndefined
  end.

(** [Array.isArray(v)]. *)
Definition isArray (v : JSValue) : bool :=
  match v with JArr _ => true | _ => false end.

(** The receiver of [.filter], [.map], [.forEach]: anything but an array has
    no such method. *)
Definition array_method (v : JSValue) (method : string) : Outcome (list JSValue) :=
  match v with
  | JArr l => Returned l
  | _ => Threw (TypeError method)
  end.

(** [v[i]] on a value already known to be an array or a string; on [null] and
    [undefined] it throws, elsewhere it is [undefined]. *)
Definition index (v : JSValue) (i : nat) : Outcome JSValue :=
  match v with
  | JUndefined | JNull => Threw (TypeError (pretty i))
  | JArr l => Returned (default JUndefined (l !! i))
  | JStr s => Returned (match String.get i s with
                        | Some c => JStr (String c EmptyString)
                        | None => JUndefined
                        end)
  | JObj fs => Returned (default JUndefined (assoc (pretty i) fs))
  | _ => Returned JUndefined
  end.

Definition elem (v : JSValue) (i : nat) : JSValue :=
  match index v i with Returned x => x | Threw _ => JUndefined end.

Definition float_of_nat (n : nat) : float :=
  PrimFloat.of_uint63 (Uint63.of_Z (Z.of_nat n)).

(** [v.length === n]. *)
Definition length_is (v : JSValue) (n : nat) : bool :=
  match v with
  | JArr l => length l =? n
  | JStr s => String.length s =? n
  | JObj fs => match assoc "length" fs with
               | Some (JNum f) => PrimFloat.eqb f (float_of_nat n)
               | _ => false
               end
  | _ => false
  end.

(** ** StringToNumber: which strings denote a number

    Strings are sequences of code units below U+0100.  The grammar is
    StringNumericLiteral: optional white space around an optional literal,
    which is a signed decimal (with [Infinity]) or an unsigned binary, octal
    or hexadecimal integer. *)

Definition code (c : ascii) : nat := nat_of_ascii c.

Definition is_white (c : ascii) : bool :=
  ((9 <=? code c) && (code c <=? 13)) || (code c =? 32) || (code c =? 160).
Definition is_digit (c : ascii) : bool := (48 <=? code c) && (code c <=? 57).
Definition is_bin (c : ascii) : bool := (48 <=? code c) && (code c <=? 49).
Definition is_oct (c : ascii) : bool := (48 <=? code c) && (code c <=? 55).
Definition is_hex (c : ascii) : bool :=
  is_digit c || ((65 <=? code c) && (code c <=? 70))
             || ((97 <=? code c) && (code c <=? 102)).

Fixpoint drop_while {A} (p : A → bool) (l : list A) : list A :=
  match l with
  | [] => []
  | x :: l' => if p x then drop_while p l' else l
  end.

Fixpoint take_while {A} (p : A → bool) (l : list A) : list A :=
  match l with
  | [] => []
  | x :: l' => if p x then x :: take_while p l' else []
  end.

Definition trim (cs : list ascii) : list ascii :=
  rev (drop_while is_white (rev (drop_while is_white cs))).

Definition nonempty_all (p : ascii → bool) (cs : list ascii) : bool :=
  match cs with [] => false | _ => forallb p cs end.

Definition strip_sign (cs : list ascii) : list ascii :=
  match cs with
  | c :: cs' => if (code c =? 43) || (code c =? 45) then cs' else cs
  | [] => []
  end.

(** ExponentPart, or nothing. *)
Definition exponent_opt (cs : list ascii) : bool :=
  match cs with
  | [] => true
  | c :: cs' => ((code c =? 101) || (code c =? 69))
                && nonempty_all is_digit (strip_sign cs')
  end.

(** StrUnsignedDecimalLiteral without [Infinity]. *)
Definition unsigned_decimal (cs : list ascii) : bool :=
  let ip := take_while is_digit cs in
  let r := drop_while is_digit cs in
  match r with
  | c :: r' =>
    if code c =? 46 then
      let fp := take_while is_digit r' in
      negb (bool_decide (ip = []) && bool_decide (fp = []))
      && exponent_opt (drop_while is_digit r')
    else negb (bool_decide (ip = [])) && exponent_opt r
  | [] => negb (bool_decide (ip = []))
  end.

Definition str_numeric_literal (cs : list ascii) : bool :=
  match cs with
  | [] => true
  | z :: x :: ds =>
    if (code z =? 48) && ((code x =? 120) || (code x =? 88)) then nonempty_all is_hex ds
    else if (code z =? 48) && ((code x =? 111) || (code x =? 79)) then nonempty_all is_oct ds
    else if (code z =? 48) && ((code x =? 98) || (code x =? 66)) then nonempty_all is_bin ds
    else
      let u := strip_sign cs in
      bool_decide (u = list_ascii_of_string "Infinity") || unsigned_decimal u
  | _ => unsigned_decimal (strip_sign cs)
  end.

(** [isNaN(Number(s))] for a string [s]. *)
Definition StringToNumber_isNaN (s : string) : bool :=
  negb (str_numeric_literal (trim (list_ascii_of_string s))).

(** The global [isNaN(v)], i.e. whether ToNumber(v) is NaN.  An object goes
    through its string form: a plain object reads "[object Object]"; an array
    reads as its elements joined by commas, so two or more elements never
    denote a number, none denotes 0 and a single one is read through its own
    string form ([null] and [undefined] join as the empty string). *)
Fixpoint isNaN (v : JSValue) : bool :=
  match v with
  | JUndefined => true
  | JNull => false
  | JBool _ => false
  | JNum f => is_nan f
  | JStr s => StringToNumber_isNaN s
  | JObj _ => true
  | JArr [] => false
  | JArr [x] =>
    match x with
    | JUndefined | JNull => false
    | JBool _ => true
    | JNum f => is_nan f
    | JStr s => StringToNumber_isNaN s
    | JObj _ => true
    | JArr _ => isNaN x
    end
  | JArr _ => true
  end.

(** ToString(v), as a template literal applies it, as far as it can fail;
    the text it yields is left to the runtime.  A primitive always has a
    string form.  An array joins the string forms of its elements, [null]
    and [undefined] counting as the empty string.  An object is asked for
    its [toString] and then its [valueOf]: without an own [toString] the
    inherited one answers "[object Object]"; an own [toString], which in
    parsed JSON is never a function, leaves only [valueOf], which is no
    function either or gives the object back, so the conversion throws. *)
Fixpoint has_text (v : JSValue) : bool :=
  match v with
  | JArr l => forallb has_text l
  | JObj fs => negb (bool_decide (is_Some (assoc "toString" fs)))
  | _ => true
  end.

Definition to_text (v : JSValue) : Outcome unit :=
  if has_text v then Returned tt else Threw (TypeError "toString").

(** [{...route, stops: validStops}]: the own properties of [route] with
    [stops] (re)bound. *)
Fixpoint set_field (k : string) (v : JSValue) (fs : list (string * JSValue))
  : list (string * JSValue) :=
  match fs with
  | [] => [(k, v)]
  | (k', v') :: fs' =>
    if String.eqb k k' then (k', v) :: fs' else (k', v') :: set_field k v fs'
  end.

Definition spread_with (route : JSValue) (k : string) (v : JSValue) : JSValue :=
  match route with
  | JObj fs => JObj (set_field k v fs)
  | _ => JObj [(k, v)]
  end.

End JS.
Export JS.

(* ===================================================================== *)
(** * Effects: what the component does to the world *)
(* ===================================================================== *)

Module Effects.

(** One entry per observable action, in the order the actions happen.  A
    marker or bounds entry is recorded when the engine call has returned. *)
Inductive Event :=
| EFetch (url : string)
| EConsoleLog (label : string) (arg : JSValue)
| EConsoleError (label : string) (arg : JSValue)
| EConsoleErrorExn (label : string) (e : Exn)
| EAlert (e : Exn)      (* alert(`Failed to fetch routes: ${error.message}`) *)
| ESetRoutes (routes : list JSValue)
| ESetStudentsRequiringWalk (stops : list JSValue)
| ESetAllStudentLocations (locations : list JSValue)
| EHomeMarker (c : JSValue)
| EDriverMarker (c : JSValue) (color : option string)
| EStopMarker (c : JSValue) (label : string) (color : option string)
              (requiresWalk : JSValue) (studentName : JSValue)
| EBoundsExtend (c : JSValue)
| EDirectionsRequest (routeIndex : nat) (color : option string) (coords : list JSValue)
| EDirectionsRejected (routeIndex : nat) (e : Exn)
| EFitBounds (bounds : list JSValue) (padding maxZoom : nat).

(** The mapping engine is a collaborator outside the component.  All the
    component can observe of it during a load is whether a call returns or
    throws. *)
Class MapEngine := {
  (* new mapboxgl.Marker(el).setLngLat(c).addTo(map) *)
  marker_accepts : JSValue → bool;
  (* bounds.extend(c) *)
  bounds_accepts : JSValue → bool;
  (* map.fitBounds(bounds, options) *)
  fit_accepts : list JSValue → bool;
  (* map.addSource / map.addLayer with a line of the given coordinates *)
  line_accepts : JSValue → bool;
}.

(** The state one run of the loader threads: the events so far and the
    [bounds] accumulator created empty at the start of the run. *)
Record LoadState := { trace : list Event; bounds : list JSValue }.

Definition init : LoadState := {| trace := []; bounds := [] |}.

Definition M (A : Type) : Type := LoadState → LoadState * Outcome A.

Definition ret {A} (a : A) : M A := λ st, (st, Returned a).

Definition bind {A B} (m : M A) (k : A → M B) : M B :=
  λ st, match m st with
        | (st', Returned a) => k a st'
        | (st', Threw e) => (st', Threw e)
        end.

Definition throw {A} (e : Exn) : M A := λ st, (st, Threw e).

Definition lift {A} (o : Outcome A) : M A := λ st, (st, o).

Definition emit (e : Event) : M unit :=
  λ st, ({| trace := trace st ++ [e]; bounds := bounds st |}, Returned tt).

Definition push_bounds (c : JSValue) : M unit :=
  λ st, ({| trace := trace st; bounds := bounds st ++ [c] |}, Returned tt).

Definition read_bounds : M (list JSValue) := λ st, (st, Returned (bounds st)).

Declare Scope load_scope.
Delimit Scope load_scope with load.
Notation "'let*' x ':=' m 'in' k" := (bind m (λ x, k))
  (at level 10, x name, m at level 100, k at level 200) : load_scope.
Notation "m >> k" := (bind m (λ _, k))
  (at level 65, right associativity) : load_scope.

Declare Scope outcome_scope.
Delimit Scope outcome_scope with outcome.
Notation "'let?' x ':=' o 'in' k" := (obind o (λ x, k))
  (at level 10, x name, o at level 100, k at level 200) : outcome_scope.

Local Open Scope load_scope.

(** [array.forEach((x, i) => f x i)]: a throw leaves the loop at once. *)
Fixpoint forEach_from {A} (f : A → nat → M unit) (i : nat) (l : list A) : M unit :=
  match l with
  | [] => ret tt
  | x :: l' => f x i >> forEach_from f (S i) l'
  end.

Definition forEach {A} (f : A → nat → M unit) (l : list A) : M unit :=
  forEach_from f 0 l.

Local Open Scope outcome_scope.

(** [array.map(f)] and [array.filter(f)] with a callback that may throw. *)
Fixpoint mapO {A B} (f : A → Outcome B) (l : list A) : Outcome (list B) :=
  match l with
  | [] => Returned []
  | x :: l' => let? y := f x in let? ys := mapO f l' in Returned (y :: ys)
  end.

Fixpoint filterO {A} (f : A → Outcome bool) (l : list A) : Outcome (list A) :=
  match l with
  | [] => Returned []
  | x :: l' =>
    let? keep := f x in
    let? xs := filterO f l' in
    Returned (if keep then x :: xs else xs)
  end.

End Effects.
Export Effects.

(* ===================================================================== *)
(** * The loader: [fetchRoutesData] *)
(* ===================================================================== *)

Module Loader.

Local Open Scope load_scope.
Local Open Scope outcome_scope.

(** What awaiting [fetch(url)] and then [response.json()] comes to. *)
Inductive Response :=
| NetworkFailure
| NotJson
| Json (data : JSValue).

Definition routes_url : string := "http://localhost:9999/api/routes/generate".

(** [getRouteColor]: [colors[index % colors.length]]; [None] is what an
    index outside the array would read. *)
Definition colors : list string :=
  ["#FF0000"; "#0000FF"; "#00FF00"; "#FF00FF"; "#00FFFF"].

Definition getRouteColor (index : nat) : option string :=
  colors !! (index mod length colors).

(** The two accumulators filled while the payload is mapped. *)
Record Derived := {
  allStudentsRequiringWalk : list JSValue;
  allStudentLocations : list JSValue;
}.

(** The callback of [data.data.map(...)], on one route. *)
Definition collect_route (route : JSValue) (acc : Derived) : Outcome (JSValue * Derived) :=
  let? validStops := get route "stops" in
  let? stops := array_method validStops "filter" in
  let? studentsWalking :=
    filterO (λ stop, let? w := get stop "requires_walk" in Returned (truthy w)) stops in
  let? locations := mapO (λ stop, get stop "location") stops in
  Returned (spread_with route "stops" validStops,
            {| allStudentsRequiringWalk := allStudentsRequiringWalk acc ++ studentsWalking;
               allStudentLocations := allStudentLocations acc ++ locations |}).

Fixpoint collect_routes (routes : list JSValue) (acc : Derived)
  : Outcome (list JSValue * Derived) :=
  match routes with
  | [] => Returned ([], acc)
  | route :: routes' =>
    let? r := collect_route route acc in
    let? rs := collect_routes routes' r.2 in
    Returned (r.1 :: rs.1, rs.2)
  end.

(** How the three marker functions style the element they create: the
    background ([#888] for a home, the route colour otherwise) and the black
    border a stop marker gets when [requiresWalk] is truthy. *)
Definition marker_background (e : Event) : option string :=
  match e with
  | EHomeMarker _ => Some "#888"
  | EDriverMarker _ color | EStopMarker _ _ color _ _ => color
  | _ => None
  end.

Definition marker_outlined (e : Event) : bool :=
  match e with
  | EStopMarker _ _ _ requiresWalk _ => truthy requiresWalk
  | _ => false
  end.

Section WithEngine.
Context `{MapEngine}.

Definition place_marker (c : JSValue) (e : Event) : M unit :=
  if marker_accepts c then emit e else throw (MapError c).

Definition addStudentHomeMarker (coordinates : JSValue) : M unit :=
  place_marker coordinates (EHomeMarker coordinates).

Definition addDriverMarker (coordinates : JSValue) (color : option string) : M unit :=
  place_marker coordinates (EDriverMarker coordinates color).

Definition addStopMarker (coordinates : JSValue) (label : string) (color : option string)
    (requiresWalk studentName : JSValue) : M unit :=
  place_marker coordinates (EStopMarker coordinates label color requiresWalk studentName).

(** [bounds.extend(c)]. *)
Definition extend (c : JSValue) : M unit :=
  if bounds_accepts c then push_bounds c >> emit (EBoundsExtend c)
  else throw (MapError c).

(** [map.fitBounds(bounds, { padding: 20, maxZoom: 15 })]. *)
Definition fitBounds : M unit :=
  let* b := read_bounds in
  if fit_accepts b then emit (EFitBounds b 20 15) else throw (MapError (JArr b)).

(** The test guarding [addStopMarker] for a stop. *)
Definition valid_location (location : JSValue) : bool :=
  isArray location
  && length_is location 2
  && negb (isNaN (elem location 0))
  && negb (isNaN (elem location 1)).

(** [fetchRouteDirections] up to its first [await]: the coordinate string is
    built, which reads [coord[0]] and [coord[1]] of every coordinate and
    turns each into text inside the template literal, and the request
    leaves.  The function is [async] and its promise is dropped, so a throw
    in here never reaches the caller. *)
Definition coordinate_text (coord : JSValue) : Outcome JSValue :=
  let? lng := index coord 0 in
  let? _ := to_text lng in
  let? lat := index coord 1 in
  let? _ := to_text lat in
  Returned coord.

Definition directions_coordinates (stops : list JSValue) (finalDestination : JSValue)
  : Outcome (list JSValue) :=
  mapO coordinate_text (stops ++ [finalDestination]).

Definition fetchRouteDirections (stops : list JSValue) (finalDestination : JSValue)
    (routeIndex : nat) (routeColor : option string) : M unit :=
  match directions_coordinates stops finalDestination with
  | Returned coordinates => emit (EDirectionsRequest routeIndex routeColor coordinates)
  | Threw e => emit (EDirectionsRejected routeIndex e)
  end.

(** The callback of [route.stops.forEach(...)]. *)
Definition render_stop (routeColor : option string) (stop : JSValue) (stopIndex : nat)
  : M unit :=
  let* location := lift (get stop "location") in
  if valid_location location then
    let* requires_walk := lift (get stop "requires_walk") in
    let* student_name := lift (get stop "student_name") in
    addStopMarker location (pretty (stopIndex + 1)) routeColor requires_walk student_name
    >> extend location
  else emit (EConsoleError "Invalid coordinates for stop:" stop).

(** The callback of [validRoutes.forEach(...)]. *)
Definition render_route (route : JSValue) (index : nat) : M unit :=
  let* route_stops := lift (get route "stops") in
  let* stop_list := lift (array_method route_stops "map") in
  let* stops := lift (mapO (λ stop, get stop "location") stop_list) in
  let* final_destination := lift (get route "final_destination") in
  let* longitude := lift (get final_destination "longitude") in
  let* latitude := lift (get final_destination "latitude") in
  let finalDestination := JArr [longitude; latitude] in
  let routeColor := getRouteColor index in
  addDriverMarker (elem (JArr stops) 0) routeColor
  >> forEach (render_stop routeColor) stop_list
  >> addStopMarker finalDestination "School" routeColor (JBool false) (JStr "School")
  >> extend finalDestination
  >> fetchRouteDirections stops finalDestination index routeColor.

(** The payload test of the loader: [!data.success || !Array.isArray(data.data)]
    is false. *)
Definition payload_ok (data : JSValue) : Outcome bool :=
  let? success := get data "success" in
  if truthy success then (let? payload := get data "data" in Returned (isArray payload))
  else Returned false.

(** The body of the [try] block. *)
Definition fetchRoutesData_try (response : Response) : M unit :=
  emit (EFetch routes_url) >>
  let* data := match response with
               | NetworkFailure => throw NetworkError
               | NotJson => throw SyntaxError
               | Json data => ret data
               end in
  emit (EConsoleLog "API Response:" data) >>
  let* ok := lift (payload_ok data) in
  if negb ok then
    emit (EConsoleError "Invalid route data format:" data) >> throw FormatError
  else
    let* payload := lift (get data "data") in
    let* routes := lift (array_method payload "map") in
    let* r := lift (collect_routes routes
                      {| allStudentsRequiringWalk := []; allStudentLocations := [] |}) in
    let validRoutes := r.1 in
    emit (ESetRoutes validRoutes) >>
    emit (ESetStudentsRequiringWalk (allStudentsRequiringWalk r.2)) >>
    emit (ESetAllStudentLocations (allStudentLocations r.2)) >>
    forEach (λ location _, addStudentHomeMarker location >> extend location)
            (allStudentLocations r.2) >>
    forEach render_route validRoutes >>
    fitBounds.

(** [fetchRoutesData]: the [try] block from a fresh state, then the [catch]. *)
Definition run_load (response : Response) : LoadState * Outcome unit :=
  fetchRoutesData_try response init.

Definition fetchRoutesData (response : Response) : list Event :=
  match run_load response with
  | (st, Returned _) => trace st
  | (st, Threw e) => trace st ++ [EConsoleErrorExn "Error fetching routes:" e; EAlert e]
  end.

End WithEngine.

End Loader.
Export Loader.

(* ===================================================================== *)
(** * The line layers: the tail of [fetchRouteDirections] *)
(* ===================================================================== *)

Module Directions.

Local Open Scope outcome_scope.

(** The ['visibility'] layout property; a layer added without a layout is
    visible. *)
Inductive Visibility := Visible | Hidden.

Record Layer := {
  layer_source : string;
  line_color : option string;
  line_width : nat;
  visibility : Visibility;
}.

(** The part of the map style the component adds to and reads: sources and
    layers by id. *)
Record MapStyle := {
  sources : gmap string JSValue;
  layers : gmap string Layer;
}.

Definition empty_style : MapStyle := {| sources := ∅; layers := ∅ |}.

Definition source_id (routeIndex : nat) : string := "route-" +:+ pretty routeIndex.
Definition layer_id (routeIndex : nat) : string := "route-layer-" +:+ pretty routeIndex.

(** What the [try] block finds in the directions response: nothing to draw,
    or the coordinates of the first route's geometry. *)
Inductive Found :=
| NoRoutes (data : JSValue)
| Line (coordinates : JSValue).

Definition directions_line (response : Response) : Outcome Found :=
  let? data := match response with
               | NetworkFailure => Threw NetworkError
               | NotJson => Threw SyntaxError
               | Json data => Returned data
               end in
  let? routes := get data "routes" in
  if negb (truthy routes) || length_is routes 0 then Returned (NoRoutes data)
  else
    let? first := index routes 0 in
    let? geometry := get first "geometry" in
    let? coordinates := get geometry "coordinates" in
    Returned (Line coordinates).

Definition addLine `{MapEngine} (routeIndex : nat) (routeColor : option string)
    (coordinates : JSValue) (style : MapStyle) : Outcome MapStyle :=
  if line_accepts coordinates then
    Returned {| sources := <[source_id routeIndex := coordinates]> (sources style);
                layers := <[layer_id routeIndex :=
                              {| layer_source := source_id routeIndex;
                                 line_color := routeColor;
                                 line_width := 4;
                                 visibility := Visible |}]> (layers style) |}
  else Threw (MapError coordinates).

(** [fetchRouteDirections] from its [await] on, with its own [catch]: the new
    style and what went to the console. *)
Definition fetchRouteDirections_resume `{MapEngine} (response : Response)
    (routeIndex : nat) (routeColor : option string) (style : MapStyle)
  : MapStyle * list Event :=
  match directions_line response with
  | Returned (NoRoutes data) => (style, [EConsoleError "No routes found:" data])
  | Returned (Line coordinates) =>
    match addLine routeIndex routeColor coordinates style with
    | Returned style' => (style', [])
    | Threw e => (style, [EConsoleErrorExn "Error fetching directions:" e])
    end
  | Threw e => (style, [EConsoleErrorExn "Error fetching directions:" e])
  end.

(** The requests a load left pending, and their completion one after the
    other, each with the response the directions service gives it. *)
Definition pending (events : list Event) : list (nat * option string) :=
  omap (λ e, match e with
             | EDirectionsRequest i c _ => Some (i, c)
             | _ => None
             end) events.

Definition complete `{MapEngine} (service : nat → Response) (style : MapStyle)
    (request : nat * option string) : MapStyle :=
  (fetchRouteDirections_resume (service request.1) request.1 request.2 style).1.

Definition complete_all `{MapEngine} (service : nat → Response)
    (requests : list (nat * option string)) : MapStyle :=
  foldl (complete service) empty_style requests.

End Directions.
Export Directions.

(* ===================================================================== *)
(** * The selector: [handleRouteClick] *)
(* ===================================================================== *)

Module Selector.

(** What the selector reads and writes: the [routes] state, the
    [activeRouteId] state and the layers of the map. *)
Record View := {
  routes : list JSValue;
  activeRouteId : option nat;
  style : MapStyle;
}.

Definition set_visibility (v : Visibility) (l : Layer) : Layer :=
  {| layer_source := layer_source l; line_color := line_color l;
     line_width := line_width l; visibility := v |}.

(** [map.setLayoutProperty(id, 'visibility', v)]. *)
Definition setLayoutProperty (id : string) (v : Visibility) (s : MapStyle) : MapStyle :=
  {| sources := sources s; layers := alter (set_visibility v) id (layers s) |}.

(** The callback of [routes.forEach((_, index) => ...)]. *)
Definition toggle (routeIndex index : nat) (s : MapStyle) : MapStyle :=
  match layers s !! layer_id index with
  | Some _ =>
    setLayoutProperty (layer_id index)
                      (if index =? routeIndex then Visible else Hidden) s
  | None => s
  end.

Fixpoint each_index {A T} (f : nat → T → T) (i : nat) (l : list A) (s : T) : T :=
  match l with
  | [] => s
  | _ :: l' => each_index f (S i) l' (f i s)
  end.

Definition handleRouteClick (routeIndex : nat) (v : View) : View :=
  {| routes := routes v;
     activeRouteId := Some routeIndex;
     style := each_index (toggle routeIndex) 0 (routes v) (style v) |}.

(** The view after a first load whose state could be rendered and whose
    pending requests have all been answered by [service], in the order they
    left, before any click. *)
Definition loaded_view `{MapEngine} (validRoutes : list JSValue)
    (service : nat → Response) (requests : list (nat * option string)) : View :=
  {| routes := validRoutes; activeRouteId := None;
     style := complete_all service requests |}.

(** A run of clicks, first to last. *)
Definition clicks (ks : list nat) (v : View) : View :=
  foldl (λ v k, handleRouteClick k v) v ks.


Definition is_visible (v : View) (index : nat) : bool :=
  match layers (style v) !! layer_id index with
  | Some l => match visibility l with Visible => true | Hidden => false end
  | None => false
  end.

Definition has_layer (v : View) (index : nat) : bool :=
  bool_decide (is_Some (layers (style v) !! layer_id index)).

End Selector.
Export Selector.

(* ===================================================================== *)
(** * Two engines to run the component against *)
(* ===================================================================== *)

Module Engines.

(** An engine that takes whatever it is given. *)
Definition permissive : MapEngine :=
  {| marker_accepts := λ _, true;
     bounds_accepts := λ _, true;
     fit_accepts := λ _, true;
     line_accepts := λ _, true |}.

(** An engine that refuses, for a marker or a bounds extension, every
    coordinate that is not a pair of values denoting numbers. *)
Definition pair_of_numbers (c : JSValue) : bool :=
  match c with
  | JArr [a; b] => negb (isNaN a) && negb (isNaN b)
  | _ => false
  end.

Definition checking : MapEngine :=
  {| marker_accepts := pair_of_numbers;
     bounds_accepts := pair_of_numbers;
     fit_accepts := λ _, true;
     line_accepts := isArray |}.

End Engines.


(* ===================================================================== *)
(** * What a load is expected to show *)
(* ===================================================================== *)

(** The event lists below are written from the description of the renderer,
    independently of the monadic code above; the theorems compare the two. *)
Module Expected.

Definition stops_of (route : JSValue) : list JSValue :=
  match field route "stops" with
  | JArr l => l
  | _ => []
  end.

Definition location_of (stop : JSValue) : JSValue := field stop "location".

Definition routes_of (data : JSValue) : list JSValue :=
  match field data "data" with
  | JArr l => l
  | _ => []
  end.

(** Every stop coordinate of the payload, route after route. *)
Definition all_locations (routes : list JSValue) : list JSValue :=
  flat_map (λ route, map location_of (stops_of route)) routes.

(** The stops the loader keeps as walk-required: those whose flag is truthy. *)
Definition flagged (stop : JSValue) : bool := truthy (field stop "requires_walk").

Definition flagged_stops (routes : list JSValue) : list JSValue :=
  flat_map (λ route, List.filter flagged (stops_of route)) routes.

(** The walk list as the specification words it: the stops with
    [requires_walk == true], route after route. *)
Definition requires_walk_true (stop : JSValue) : bool :=
  match field stop "requires_walk" with
  | JBool true => true
  | _ => false
  end.

Definition walkingStops (routes : list JSValue) : list JSValue :=
  flat_map (λ route, List.filter requires_walk_true (stops_of route)) routes.

Definition walk_count (routes : list JSValue) : nat :=
  sum_list (map (λ route, length (List.filter requires_walk_true (stops_of route))) routes).

(** A payload as its TypeScript interfaces describe it, as far as the loader
    looks: routes are objects with an array of stop objects whose
    [requires_walk] is a boolean. *)
Definition typed_stop (stop : JSValue) : bool :=
  match stop with
  | JObj _ => match field stop "requires_walk" with JBool _ => true | _ => false end
  | _ => false
  end.

Definition typed_route (route : JSValue) : bool :=
  match field route "stops" with
  | JArr l => forallb typed_stop l
  | _ => false
  end.

(** What the first pass needs of a payload in order not to throw: every
    route has an array of stops none of which is [null]. *)
Definition readable_stop (stop : JSValue) : bool :=
  match stop with
  | JUndefined | JNull => false
  | _ => true
  end.

Definition readable_route (route : JSValue) : bool :=
  match field route "stops" with
  | JArr l => forallb readable_stop l
  | _ => false
  end.

(** The route objects handed to [setRoutes]. *)
Definition respread (route : JSValue) : JSValue :=
  spread_with route "stops" (field route "stops").

Definition header (data : JSValue) (routes : list JSValue) : list Event :=
  [EFetch routes_url;
   EConsoleLog "API Response:" data;
   ESetRoutes (map respread routes);
   ESetStudentsRequiringWalk (flagged_stops routes);
   ESetAllStudentLocations (all_locations routes)].

Definition home_events (locations : list JSValue) : list Event :=
  flat_map (λ c, [EHomeMarker c; EBoundsExtend c]) locations.

Definition stop_events (routeColor : option string) (stop : JSValue) (stopIndex : nat)
  : list Event :=
  if valid_location (location_of stop) then
    [EStopMarker (location_of stop) (pretty (stopIndex + 1)) routeColor
                 (field stop "requires_walk") (field stop "student_name");
     EBoundsExtend (location_of stop)]
  else [EConsoleError "Invalid coordinates for stop:" stop].

Fixpoint indexed_events {A} (f : A → nat → list Event) (i : nat) (l : list A)
  : list Event :=
  match l with
  | [] => []
  | x :: l' => f x i ++ indexed_events f (S i) l'
  end.

Definition finalDestination_of (route : JSValue) : JSValue :=
  JArr [field (field route "final_destination") "longitude";
        field (field route "final_destination") "latitude"].

Definition directions_event (route : JSValue) (index : nat) : Event :=
  match directions_coordinates (map location_of (stops_of route))
                               (finalDestination_of route) with
  | Returned coordinates => EDirectionsRequest index (getRouteColor index) coordinates
  | Threw e => EDirectionsRejected index e
  end.

Definition driver_coordinate (route : JSValue) : JSValue :=
  default JUndefined (map location_of (stops_of route) !! 0).

Definition route_events (route : JSValue) (index : nat) : list Event :=
  [EDriverMarker (driver_coordinate route) (getRouteColor index)]
  ++ indexed_events (stop_events (getRouteColor index)) 0 (stops_of route)
  ++ [EStopMarker (finalDestination_of route) "School" (getRouteColor index)
                  (JBool false) (JStr "School");
      EBoundsExtend (finalDestination_of route);
      directions_event route index].

(** Everything between the state setters and [fitBounds], when nothing
    throws. *)
Definition render_events (routes : list JSValue) : list Event :=
  home_events (all_locations routes) ++ indexed_events route_events 0 routes.

(** The coordinates a list of events extends the bounds with. *)
Definition extends_of (events : list Event) : list JSValue :=
  omap (λ e, match e with EBoundsExtend c => Some c | _ => None end) events.


(** The coordinate of a marker event. *)
Definition marker_coordinate (e : Event) : option JSValue :=
  match e with
  | EHomeMarker c | EDriverMarker c _ | EStopMarker c _ _ _ _ => Some c
  | _ => None
  end.

Definition is_home (e : Event) : bool :=
  match e with EHomeMarker _ => true | _ => false end.
Definition is_school (e : Event) : bool :=
  match e with EStopMarker _ l _ _ _ => String.eqb l "School" | _ => false end.
Definition is_numbered (e : Event) : bool :=
  match e with EStopMarker _ l _ _ _ => negb (String.eqb l "School") | _ => false end.
Definition is_fit (e : Event) : bool :=
  match e with EFitBounds _ _ _ => true | _ => false end.
Definition is_alert (e : Event) : bool :=
  match e with EAlert _ => true | _ => false end.
Definition is_fetch (e : Event) : bool :=
  match e with EFetch _ => true | _ => false end.

(** Events that render something or set derived state. *)
Definition renders (e : Event) : bool :=
  match e with
  | ESetRoutes _ | ESetStudentsRequiringWalk _ | ESetAllStudentLocations _
  | EHomeMarker _ | EDriverMarker _ _ | EStopMarker _ _ _ _ _ | EBoundsExtend _
  | EDirectionsRequest _ _ _ | EDirectionsRejected _ _ | EFitBounds _ _ _ => true
  | _ => false
  end.

(** The numbered markers a payload calls for: one per stop whose location
    passes the loader's test, labelled with the stop's position in its route
    counted from 1. *)
Definition numbered_marker (routeColor : option string) (stop : JSValue) (stopIndex : nat)
  : list Event :=
  if valid_location (location_of stop) then
    [EStopMarker (location_of stop) (pretty (stopIndex + 1)) routeColor
                 (field stop "requires_walk") (field stop "student_name")]
  else [].

Definition numbered_markers (routes : list JSValue) : list Event :=
  indexed_events (λ route index,
    indexed_events (numbered_marker (getRouteColor index)) 0 (stops_of route)) 0 routes.

Definition valid_stop_count (routes : list JSValue) : nat :=
  sum_list (map (λ route,
    length (List.filter (λ stop, valid_location (location_of stop)) (stops_of route)))
    routes).

(** The stops reported on the console as having invalid coordinates. *)
Definition invalid_logged (events : list Event) : list JSValue :=
  omap (λ e, match e with
             | EConsoleError l stop =>
               if String.eqb l "Invalid coordinates for stop:" then Some stop else None
             | _ => None
             end) events.

Definition invalid_stops (routes : list JSValue) : list JSValue :=
  flat_map (λ route,
    List.filter (λ stop, negb (valid_location (location_of stop))) (stops_of route)) routes.

Definition is_setter (e : Event) : bool :=
  match e with
  | ESetRoutes _ | ESetStudentsRequiringWalk _ | ESetAllStudentLocations _ => true
  | _ => false
  end.

(** What only the per-route pass produces. *)
Definition is_route_event (e : Event) : bool :=
  match e with
  | EDriverMarker _ _ | EStopMarker _ _ _ _ _ | EDirectionsRequest _ _ _
  | EDirectionsRejected _ _ | EFitBounds _ _ _ => true
  | EConsoleError l _ => String.eqb l "Invalid coordinates for stop:"
  | _ => false
  end.


(** The reading of "valid coordinate" as a pair of finite numbers. *)
Definition finite_numeric_pair (c : JSValue) : bool :=
  match c with
  | JArr [JNum a; JNum b] => is_finite a && is_finite b
  | _ => false
  end.

Section WithEngine.
Context `{MapEngine}.

(** An event the engine had to accept in order to happen. *)
Definition accepted (e : Event) : bool :=
  match e with
  | EHomeMarker c | EDriverMarker c _ | EStopMarker c _ _ _ _ => marker_accepts c
  | EBoundsExtend c => bounds_accepts c
  | EFitBounds b _ _ => fit_accepts b
  | _ => true
  end.

(** A load that ran to the end of its [try] block. *)
Definition completed (response : Response) : bool :=
  match (run_load response).2 with
  | Returned _ => true
  | Threw _ => false
  end.

(** The two loops of the rendering pass: home markers, then the routes
    handed to [setRoutes]. *)
Definition render_pass (validRoutes : list JSValue) (locations : list JSValue) : M unit :=
  bind (forEach (λ location _, bind (addStudentHomeMarker location) (λ _, extend location))
                locations)
       (λ _, forEach render_route validRoutes).

(** [m] emits the events [full] in order and stops short of them only by
    throwing; what it adds to the bounds is what its events say; every event
    it emits was accepted by the engine. *)
Definition runs {A} (m : M A) (full : list Event) : Prop :=
  ∀ st, ∃ evs,
    trace (m st).1 = trace st ++ evs
    ∧ bounds (m st).1 = bounds st ++ extends_of evs
    ∧ evs `prefix_of` full
    ∧ (∀ a, (m st).2 = Returned a → evs = full)
    ∧ forallb accepted evs = true.

(** [m] never throws. *)
Definition returns {A} (m : M A) : Prop := ∀ st, ∃ a, (m st).2 = Returned a.


(** A route whose final destination can be read. *)
Definition has_destination (route : JSValue) : bool :=
  readable_stop (field route "final_destination").

End WithEngine.

End Expected.
Export Expected.

(* ===================================================================== *)
(** * Sample payloads *)
(* ===================================================================== *)

Module Sample.

Definition point (lng lat : float) : JSValue := JArr [JNum lng; JNum lat].

Definition stop (id : float) (name : string) (location : JSValue) (walk : bool) : JSValue :=
  JObj [("student_id", JNum id); ("student_name", JStr name); ("location", location);
        ("distance_from_previous", JNum 1.5); ("requires_walk", JBool walk);
        ("walking_distance", JNum (if walk then 120 else 0))].

Definition route (driver : string) (stops : list JSValue) (lng lat : float) : JSValue :=
  JObj [("driver_id", JNum 7); ("driver_name", JStr driver); ("zone_index", JNum 0);
        ("total_students", JNum 3); ("total_distance_km", JNum 12.5);
        ("estimated_time_mins", JNum 40); ("estimated_fuel", JNum 2.5);
        ("stops", JArr stops);
        ("final_destination",
         JObj [("latitude", JNum lat); ("longitude", JNum lng);
               ("distance_from_last_stop", JNum 0.5)])].

Definition reply (routes : list JSValue) : JSValue :=
  JObj [("success", JBool true); ("data", JArr routes)].

(** Two routes of three and two stops, one stop walk-required. *)
Definition two_routes : list JSValue :=
  [route "Ann" [stop 1 "s1" (point 30 (-2)) false;
                stop 2 "s2" (point 30.5 (-1.5)) true;
                stop 3 "s3" (point 30.25 (-1.75)) false] 30.125 (-1.875);
   route "Bob" [stop 4 "s4" (point 29.5 (-2.5)) false;
                stop 5 "s5" (point 29.75 (-2.25)) false] 30.125 (-1.875)].

(** A stop at an infinite longitude, as the JSON number [1e999] reads. *)
Definition far_away : JSValue := point infinity 12.5.

Definition with_infinity : list JSValue :=
  [route "Ann" [stop 1 "s1" far_away false] 30.125 (-1.875)].

(** A stop without a location between two located ones. *)
Definition with_null : list JSValue :=
  [route "Ann" [stop 1 "s1" (point 30 (-2)) false;
                stop 2 "s2" JNull false;
                stop 3 "s3" (point 30.25 (-1.75)) false] 30.125 (-1.875)].


(** A route whose second stop is [null], and a route without stop array. *)
Definition with_null_stop : list JSValue :=
  [route "Ann" [stop 1 "s1" (point 30 (-2)) false; JNull] 30.125 (-1.875)].

Definition without_stops : list JSValue :=
  [JObj [("driver_name", JStr "Ann")]].

(** A complete route followed by one without final destination. *)
Definition without_destination : list JSValue :=
  [route "Ann" [stop 1 "s1" (point 30 (-2)) false] 30.125 (-1.875);
   JObj [("driver_name", JStr "Bob");
         ("stops", JArr [stop 2 "s2" (point 30.5 (-1.5)) true])]].

(** A stop flagged with a number instead of a boolean, located by a string. *)
Definition loosely_typed : list JSValue :=
  [route "Ann" [JObj [("student_name", JStr "s1"); ("location", JStr "home");
                      ("requires_walk", JNum 1)]] 30.125 (-1.875)].

(** A stop located by an object with [lng] and [lat], whose entry [0] is an
    object with a [toString] property. *)
Definition unprintable : JSValue :=
  JObj [("lng", JNum 1); ("lat", JNum 2); ("0", JObj [("toString", JNum 0)])].

Definition with_unprintable : list JSValue :=
  [route "Ann" [stop 1 "s1" unprintable false] 30.125 (-1.875);
   route "Bob" [stop 2 "s2" (point 29.5 (-2.5)) false] 30.125 (-1.875)].

(** A directions reply with one line, and one with no route. *)
Definition line_reply : JSValue :=
  JObj [("routes", JArr [JObj [("geometry",
     JObj [("coordinates", JArr [point 30 (-2); point 30.125 (-1.875)]);
           ("type", JStr "LineString")])]])].

Definition no_route_reply : JSValue :=
  JObj [("code", JStr "NoRoute"); ("routes", JArr [])].

(** A directions service that finds a line for route 0 only. *)
Definition only_first (routeIndex : nat) : Response :=
  match routeIndex with
  | 0 => Json line_reply
  | _ => Json no_route_reply
  end.

End Sample.

(* ===================================================================== *)
(** * Further expectations: requests, school markers, drawable replies *)
(* ===================================================================== *)

Module Further.

Definition is_request (e : Event) : bool :=
  match e with EDirectionsRequest _ _ _ => true | _ => false end.

(** A coordinate that can be written into the directions URL: it is not
    [null] or [undefined], and its entries [0] and [1] have a string form. *)
Definition sendable (coord : JSValue) : bool :=
  readable_stop coord && has_text (elem coord 0) && has_text (elem coord 1).

(** The coordinates of the request of a route: every stop location in stop
    order, then the final destination. *)
Definition request_coordinates (route : JSValue) : list JSValue :=
  map location_of (stops_of route) ++ [finalDestination_of route].

(** The directions request a route calls for; none when one of its
    coordinates cannot be written into the URL. *)
Definition request_event (route : JSValue) (index : nat) : list Event :=
  if forallb sendable (request_coordinates route) then
    [EDirectionsRequest index (getRouteColor index) (request_coordinates route)]
  else [].

Definition school_marker (route : JSValue) (index : nat) : list Event :=
  [EStopMarker (finalDestination_of route) "School" (getRouteColor index)
               (JBool false) (JStr "School")].

(** A directions response out of which a line gets drawn. *)
Definition draws `{MapEngine} (response : Response) : bool :=
  match directions_line response with
  | Returned (Line coordinates) => line_accepts coordinates
  | _ => false
  end.

(** Every layer of the view is the line layer of one of its routes. *)
Definition route_layers_only (v : View) : Prop :=
  ∀ id, is_Some (layers (style v) !! id) →
        ∃ i, i < length (routes v) ∧ id = layer_id i.

(** A layer without its visibility. *)
Definition layer_shape (l : Layer) : string * option string * nat :=
  (layer_source l, line_color l, line_width l).

Definition is_type_error (e : Exn) : bool :=
  match e with TypeError _ => true | _ => false end.

End Further.
Export Further.

(* ===================================================================== *)
(** * The sidebar: what the component returns *)
(* ===================================================================== *)

Module Sidebar.

Local Open Scope outcome_scope.

(** [x.toFixed(2)]: only a number has the method; the digits it prints are
    left to the runtime. *)
Inductive Formatted := ToFixed2 (f : float).

Definition toFixed2 (v : JSValue) : Outcome Formatted :=
  match v with
  | JNum f => Returned (ToFixed2 f)
  | _ => Threw (TypeError "toFixed")
  end.

(** [array.map((x, i) => f x i)] with a callback that may throw. *)
Fixpoint mapiO {A B} (f : A → nat → Outcome B) (i : nat) (l : list A)
  : Outcome (list B) :=
  match l with
  | [] => Returned []
  | x :: l' => let? y := f x i in let? ys := mapiO f (S i) l' in Returned (y :: ys)
  end.

(** One [<li>] of a route's stop list: "Stop n: name - side". *)
Record StopItem := {
  item_key : nat;
  item_number : nat;
  item_name : JSValue;
  item_side : string;
}.

(** One route row: its key, background, the index its click handler passes
    to [handleRouteClick], and its five paragraphs. *)
Record RouteRow := {
  row_key : nat;
  row_background : string;
  row_click : nat;
  row_driver : JSValue;
  row_time : JSValue;
  row_fuel : Formatted;
  row_distance : Formatted;
  row_stops : list StopItem;
}.

(** One [<li>] of the walk list: "name - Walking Distance: d m". *)
Record WalkItem := {
  walk_key : nat;
  walk_name : JSValue;
  walk_distance : Formatted;
}.

Record SidebarView := {
  rows : list RouteRow;
  walk_section : option (list WalkItem);
}.

Definition render_stop_item (stop : JSValue) (stopIndex : nat) : Outcome StopItem :=
  let? student_name := get stop "student_name" in
  let? requires_walk := get stop "requires_walk" in
  Returned {| item_key := stopIndex;
              item_number := stopIndex + 1;
              item_name := student_name;
              item_side := if truthy requires_walk then "Requires Walk" else "Right Side" |}.

Definition render_row (activeRouteId : option nat) (route : JSValue) (index : nat)
  : Outcome RouteRow :=
  let background :=
    if bool_decide (activeRouteId = Some index) then "#ddd" else "#fff" in
  let? driver_name := get route "driver_name" in
  let? estimated_time_mins := get route "estimated_time_mins" in
  let? estimated_fuel := get route "estimated_fuel" in
  let? fuel := toFixed2 estimated_fuel in
  let? total_distance_km := get route "total_distance_km" in
  let? distance := toFixed2 total_distance_km in
  let? route_stops := get route "stops" in
  let? stops := array_method route_stops "map" in
  let? items := mapiO render_stop_item 0 stops in
  Returned {| row_key := index;
              row_background := background;
              row_click := index;
              row_driver := driver_name;
              row_time := estimated_time_mins;
              row_fuel := fuel;
              row_distance := distance;
              row_stops := items |}.

Definition render_walk_item (student : JSValue) (index : nat) : Outcome WalkItem :=
  let? student_name := get student "student_name" in
  let? walking_distance := get student "walking_distance" in
  let? distance := toFixed2 walking_distance in
  Returned {| walk_key := index; walk_name := student_name; walk_distance := distance |}.

(** The sidebar part of the returned element, from the three pieces of state
    it reads. *)
Definition render_sidebar (routes : list JSValue) (activeRouteId : option nat)
    (studentsRequiringWalk : list JSValue) : Outcome SidebarView :=
  let? route_rows := mapiO (render_row activeRouteId) 0 routes in
  let? section :=
    match studentsRequiringWalk with
    | [] => Returned None
    | _ => let? items := mapiO render_walk_item 0 studentsRequiringWalk in
           Returned (Some items)
    end in
  Returned {| rows := route_rows; walk_section := section |}.

Definition is_number (v : JSValue) : bool :=
  match v with JNum _ => true | _ => false end.

(** What the sidebar needs of a route and of a walk-list entry. *)
Definition row_ok (route : JSValue) : bool :=
  readable_route route
  && is_number (field route "estimated_fuel")
  && is_number (field route "total_distance_km").

Definition walk_ok (student : JSValue) : bool :=
  readable_stop student && is_number (field student "walking_distance").


End Sidebar.
Export Sidebar.

(* ===================================================================== *)
(** * The component between two loads: state, replies and clicks *)
(* ===================================================================== *)

Module Session.

(** The state the loader writes and the sidebar and the selector read: the
    [routes], [activeRouteId] and [studentsRequiringWalk] of [useState].  It
    starts empty and is kept from one load to the next: the loader runs once
    for every map the effect creates, and its [catch] resets nothing. *)
Record State := {
  st_routes : list JSValue;
  st_active : option nat;
  st_walk : list JSValue;
}.

Definition initial_state : State :=
  {| st_routes := []; st_active := None; st_walk := [] |}.

Definition set_state (s : State) (e : Event) : State :=
  match e with
  | ESetRoutes rs =>
    {| st_routes := rs; st_active := st_active s; st_walk := st_walk s |}
  | ESetStudentsRequiringWalk l =>
    {| st_routes := st_routes s; st_active := st_active s; st_walk := l |}
  | _ => s
  end.

(** The state once the setters among [events] have run on [before]. *)
Definition state_after (before : State) (events : list Event) : State :=
  foldl set_state before events.

Definition routes_set (before : State) (events : list Event) : list JSValue :=
  st_routes (state_after before events).

Definition walk_set (before : State) (events : list Event) : list JSValue :=
  st_walk (state_after before events).

(** A response with which the loader gets as far as its setters: the reply
    passes the payload test and every route has an array of stops none of
    which is [null]. *)
Definition reaches_setters (response : Response) : bool :=
  match response with
  | Json data =>
    match payload_ok data with
    | Returned true => forallb readable_route (routes_of data)
    | _ => false
    end
  | _ => false
  end.

(** What the component returns for a state. *)
Definition rendered (s : State) : Outcome SidebarView :=
  render_sidebar (st_routes s) (st_active s) (st_walk s).

(** The component once React has rendered the state a load left.  The
    setters are called after an [await], so React applies them together
    when the synchronous part of the load is over.  When rendering throws,
    React removes the component: the cleanup of the effect removes the map
    and empties [mapInstanceRef], and nothing is left to click; this is
    [None].  Otherwise the component shows the state over the map the effect
    created for this load, which has no source or layer of the component
    yet. *)
Definition mounted_view (s : State) : option View :=
  match rendered s with
  | Returned _ =>
    Some {| routes := st_routes s; activeRouteId := st_active s; style := empty_style |}
  | Threw _ => None
  end.

(** What happens after the load: the reply to one of its directions
    requests arrives, or a row is clicked. *)
Inductive Action :=
| Reply (routeIndex : nat) (routeColor : option string) (response : Response)
| Click (routeIndex : nat).

Definition act `{MapEngine} (v : View) (a : Action) : View :=
  match a with
  | Reply routeIndex routeColor response =>
    {| routes := routes v;
       activeRouteId := activeRouteId v;
       style := (fetchRouteDirections_resume response routeIndex routeColor (style v)).1 |}
  | Click routeIndex => handleRouteClick routeIndex v
  end.

(** The component after [actions], in order.  Once the component is removed
    the replies still arrive, but [mapInstanceRef.current?.addSource] and
    [?.addLayer] find the ref empty and add nothing. *)
Definition session `{MapEngine} (s : State) (actions : list Action) : option View :=
  (λ v, foldl act v actions) <$> mounted_view s.

(** The requests the actions answer, and the rows they click. *)
Definition replied (actions : list Action) : list (nat * option string) :=
  omap (λ a, match a with Reply i c _ => Some (i, c) | Click _ => None end) actions.

Definition clicked (actions : list Action) : list nat :=
  omap (λ a, match a with Click k => Some k | Reply _ _ _ => None end) actions.

(** Every reply among [actions] answers one of [requests], and no route is
    answered twice. *)
Definition scheduled (requests : list (nat * option string)) (actions : list Action)
  : Prop :=
  NoDup (replied actions).*1 ∧ ∀ r, r ∈ replied actions → r ∈ requests.

(** A reply among [actions] drew the line of route [i]. *)
Definition drawn `{MapEngine} (actions : list Action) (i : nat) : bool :=
  existsb (λ a, match a with
                | Reply j _ response => (j =? i) && draws response
                | Click _ => false
                end) actions.



End Session.
Export Session.

(* ===================================================================== *)
(** * The map instance: the effect that creates it and its cleanup *)
(* ===================================================================== *)

Module Lifecycle.

Record Props := { center_lat : float; center_lng : float; zoom : float }.

(** What happens to map instances.  A map is known by the order in which it
    was created. *)
Inductive LifeEvent :=
| LSetToken                                    (* mapboxgl.accessToken = ... *)
| LCreate (id : nat) (lng lat zoom : float)    (* new mapboxgl.Map({..., center: [lng, lat], zoom}) *)
| LOnLoad (id : nat)                           (* mapInstance.on('load', () => fetchRoutesData()) *)
| LRemove (id : nat).                          (* mapInstanceRef.current.remove() *)

(** The two refs, the number of maps created so far and what has happened. *)
Record Refs := {
  container : bool;            (* mapContainerRef.current is set *)
  instance : option nat;       (* mapInstanceRef.current *)
  created : nat;
  history : list LifeEvent;
}.

Definition record (e : list LifeEvent) (r : Refs) : Refs :=
  {| container := container r; instance := instance r; created := created r;
     history := history r ++ e |}.

(** The body of the effect; the boolean tells whether it returned a cleanup
    function. *)
Definition effect (p : Props) (r : Refs) : Refs * bool :=
  let r := record [LSetToken] r in
  if negb (container r) then (r, false)
  else
    match instance r with
    | None =>
      let id := created r in
      ({| container := container r;
          instance := Some id;
          created := S id;
          history := history r ++ [LCreate id (center_lng p) (center_lat p) (zoom p);
                                   LOnLoad id] |}, true)
    | Some _ => (r, false)
    end.

(** The cleanup function the effect returns. *)
Definition cleanup (r : Refs) : Refs :=
  match instance r with
  | Some id =>
    {| container := container r; instance := None; created := created r;
       history := history r ++ [LRemove id] |}
  | None => r
  end.

(** The component as the effect contract drives it: an effect with
    dependencies [center, zoom] runs after the first commit and after every
    commit in which a dependency changed, the cleanup returned by the
    previous run running first; unmounting runs the last cleanup. *)
Record Component := {
  refs : Refs;
  cleanup_pending : bool;
  mounted : bool;
}.

Inductive Step :=
| Commit (p : Props) (deps_changed : bool)
| Unmount.

Definition run_cleanup (c : Component) : Refs :=
  if cleanup_pending c then cleanup (refs c) else refs c.

Definition mount (container_set : bool) (p : Props) : Component :=
  let '(r, has_cleanup) :=
    effect p {| container := container_set; instance := None; created := 0;
                history := [] |} in
  {| refs := r; cleanup_pending := has_cleanup; mounted := true |}.

Definition step (c : Component) (s : Step) : Component :=
  match s with
  | Commit p deps_changed =>
    if mounted c && deps_changed then
      let '(r, has_cleanup) := effect p (run_cleanup c) in
      {| refs := r; cleanup_pending := has_cleanup; mounted := true |}
    else c
  | Unmount =>
    if mounted c then
      {| refs := run_cleanup c; cleanup_pending := false; mounted := false |}
    else c
  end.

Definition run (container_set : bool) (p : Props) (steps : list Step) : Component :=
  foldl step (mount container_set p) steps.

(** The maps created and not removed, oldest first. *)
Fixpoint live_after (l : list nat) (h : list LifeEvent) : list nat :=
  match h with
  | [] => l
  | LCreate id _ _ _ :: h' => live_after (l ++ [id]) h'
  | LRemove id :: h' => live_after (List.filter (λ x, negb (x =? id)) l) h'
  | _ :: h' => live_after l h'
  end.

Definition live (h : list LifeEvent) : list nat := live_after [] h.

(** The parameters of the map created last. *)
Definition last_created (h : list LifeEvent) : option (nat * float * float * float) :=
  last (omap (λ e, match e with
                   | LCreate id lng lat z => Some (id, lng, lat, z)
                   | _ => None
                   end) h).

Definition load_handlers (h : list LifeEvent) : list nat :=
  omap (λ e, match e with LOnLoad id => Some id | _ => None end) h.

Definition creations (h : list LifeEvent) : list nat :=
  omap (λ e, match e with LCreate id _ _ _ => Some id | _ => None end) h.

(** The props of the last commit that re-ran the effect, and the number of
    such commits, up to the unmount. *)
Fixpoint effective_props (p : Props) (steps : list Step) : Props :=
  match steps with
  | Commit p' true :: steps' => effective_props p' steps'
  | Commit _ false :: steps' => effective_props p steps'
  | Unmount :: _ | [] => p
  end.

Fixpoint reruns (steps : list Step) : nat :=
  match steps with
  | Commit _ true :: steps' => S (reruns steps')
  | Commit _ false :: steps' => reruns steps'
  | Unmount :: _ | [] => 0
  end.

Definition unmounted (steps : list Step) : bool :=
  existsb (λ s, match s with Unmount => true | _ => false end) steps.

(** The bookkeeping the component keeps straight: the ref holds the one
    live map if there is one; a cleanup is pending exactly when the ref is
    set; an unmounted component holds no map; maps are numbered in creation
    order; every map got its load handler. *)
Definition tidy (c : Component) : Prop :=
  live (history (refs c)) = option_list (instance (refs c))
  ∧ cleanup_pending c = bool_decide (is_Some (instance (refs c)))
  ∧ (mounted c = false → instance (refs c) = None)
  ∧ creations (history (refs c)) = seq 0 (created (refs c))
  ∧ load_handlers (history (refs c)) = creations (history (refs c)).

(** A mounted component whose container is set holds the map made from
    props [q], and [n] maps have been created. *)
Definition showing (q : Props) (n : nat) (c : Component) : Prop :=
  mounted c = true
  ∧ container (refs c) = true
  ∧ cleanup_pending c = true
  ∧ created (refs c) = n
  ∧ ∃ id, instance (refs c) = Some id
          ∧ last_created (history (refs c))
            = Some (id, center_lng q, center_lat q, zoom q).

End Lifecycle.
Export Lifecycle.
(* ===================================================================== *)
(** * The model at work *)
(* ===================================================================== *)

Example isNaN_samples :
  map isNaN [JNum nan; JNum infinity; JNull; JStr " 12.5 "; JStr "0x1F"; JStr "12px";
             JStr "-.5e3"; JStr "."; JArr [JNum 5]; JArr [JNum 1; JNum 2]; JObj []; JUndefined]
  = [true; false; false; false; false; true; false; true; false; true; true; true].
Proof. reflexivity. Qed.

Example truthy_samples :
  map truthy [JBool true; JNum 1; JStr "no"; JArr []; JNum 0; JNum nan; JStr ""; JNull]
  = [true; true; true; true; false; false; false; false].
Proof. reflexivity. Qed.

Example getRouteColor_samples :
  map getRouteColor [0; 4; 5; 7] =
  [Some "#FF0000"; Some "#00FFFF"; Some "#FF0000"; Some "#00FF00"].
Proof. reflexivity. Qed.

Example valid_location_samples :
  map valid_location
      [Sample.point 30 (-2); Sample.far_away; JArr [JNull; JStr "7"]; JNull;
       JArr [JNum nan; JNum 12.3]; JArr [JNum 1]; JArr [JNum 1; JNum 2; JNum 3];
       JObj [("lng", JNum 1); ("lat", JNum 2)]; JStr "ab"]
  = [true; true; true; false; false; false; false; false; false].
Proof. reflexivity. Qed.

(** A reply whose [data] is not an array, against either engine. *)
Example load_format_error_sample :
  @fetchRoutesData Engines.permissive (Json (JObj [("success", JBool true)]))
  = [EFetch routes_url;
     EConsoleLog "API Response:" (JObj [("success", JBool true)]);
     EConsoleError "Invalid route data format:" (JObj [("success", JBool true)]);
     EConsoleErrorExn "Error fetching routes:" FormatError;
     EAlert FormatError].
Proof. reflexivity. Qed.

(** One route with a stop that has no location, engine taking everything:
    the stop keeps its home marker, loses its numbered marker, and the stop
    after it is numbered 3. *)
Example load_with_null_sample :
  drop 5 (@fetchRoutesData Engines.permissive (Json (Sample.reply Sample.with_null)))
  = [EHomeMarker (Sample.point 30 (-2)); EBoundsExtend (Sample.point 30 (-2));
     EHomeMarker JNull; EBoundsExtend JNull;
     EHomeMarker (Sample.point 30.25 (-1.75)); EBoundsExtend (Sample.point 30.25 (-1.75));
     EDriverMarker (Sample.point 30 (-2)) (Some "#FF0000");
     EStopMarker (Sample.point 30 (-2)) "1" (Some "#FF0000") (JBool false) (JStr "s1");
     EBoundsExtend (Sample.point 30 (-2));
     EConsoleError "Invalid coordinates for stop:" (Sample.stop 2 "s2" JNull false);
     EStopMarker (Sample.point 30.25 (-1.75)) "3" (Some "#FF0000") (JBool false) (JStr "s3");
     EBoundsExtend (Sample.point 30.25 (-1.75));
     EStopMarker (Sample.point 30.125 (-1.875)) "School" (Some "#FF0000")
                 (JBool false) (JStr "School");
     EBoundsExtend (Sample.point 30.125 (-1.875));
     EDirectionsRejected 0 (TypeError "0");
     EFitBounds [Sample.point 30 (-2); JNull; Sample.point 30.25 (-1.75);
                 Sample.point 30 (-2); Sample.point 30.25 (-1.75);
                 Sample.point 30.125 (-1.875)] 20 15].
Proof. by vm_compute. Qed.

(** The same reply against the engine that checks coordinates: the load
    stops at the second home marker. *)
Example load_with_null_checked_sample :
  drop 5 (@fetchRoutesData Engines.checking (Json (Sample.reply Sample.with_null)))
  = [EHomeMarker (Sample.point 30 (-2)); EBoundsExtend (Sample.point 30 (-2));
     EConsoleErrorExn "Error fetching routes:" (MapError JNull);
     EAlert (MapError JNull)].
Proof. by vm_compute. Qed.

(* ===================================================================== *)
(** * Route colours *)
(* ===================================================================== *)

Section Colours.

Lemma colors_length : length colors = 5.
Proof. reflexivity. Qed.

Lemma getRouteColor_in_palette (i : nat) : is_Some (getRouteColor i).
Proof.
  unfold getRouteColor. apply lookup_lt_is_Some.
  rewrite colors_length. apply Nat.mod_upper_bound. lia.
Qed.

Lemma getRouteColor_shift (i k : nat) : getRouteColor (i + 5 * k) = getRouteColor i.
Proof.
  unfold getRouteColor. rewrite colors_length.
  f_equal. rewrite (Nat.mul_comm 5 k). apply Nat.Div0.mod_add.
Qed.

(** C7.  The colour of a route is a function of its index alone, namely the
    entry of the fixed five-colour palette at position [i mod 5]; it is always
    one of the five colours, it repeats with period 5, and two indices that
    differ by a multiple of 5 get the same colour. *)
Theorem getRouteColor_periodic (i : nat) :
  length colors = 5
  ∧ getRouteColor i = colors !! (i mod 5)
  ∧ is_Some (getRouteColor i)
  ∧ getRouteColor (i + 5) = getRouteColor i
  ∧ ∀ k, getRouteColor (i + 5 * k) = getRouteColor i.
Proof.
  split_and!.
  - apply colors_length.
  - reflexivity.
  - apply getRouteColor_in_palette.
  - replace (i + 5) with (i + 5 * 1) by lia. apply getRouteColor_shift.
  - intros k. apply getRouteColor_shift.
Qed.

End Colours.

(* ===================================================================== *)
(** * Selecting a route *)
(* ===================================================================== *)

Section Selection.

Lemma layer_id_inj (i j : nat) : layer_id i = layer_id j → i = j.
Proof.
  unfold layer_id. intros Heq.
  apply (inj (String.app "route-layer-")) in Heq.
  by apply (inj pretty) in Heq.
Qed.

Lemma toggle_layers (k i : nat) (s : MapStyle) (id : string) :
  layers (toggle k i s) !! id =
  if decide (id = layer_id i)
  then set_visibility (if i =? k then Visible else Hidden) <$> layers s !! id
  else layers s !! id.
Proof.
  unfold toggle. destruct (layers s !! layer_id i) as [l|] eqn:Hl.
  - simpl. rewrite lookup_alter. by repeat case_decide; subst.
  - case_decide; [subst; by rewrite Hl|done].
Qed.

Lemma toggle_sources (k i : nat) (s : MapStyle) : sources (toggle k i s) = sources s.
Proof. unfold toggle. by destruct (layers s !! layer_id i). Qed.

Lemma each_index_toggle_other {A} (k : nat) (l : list A) (i : nat) (s : MapStyle)
    (id : string) :
  (∀ j, i ≤ j < i + length l → id ≠ layer_id j) →
  layers (each_index (toggle k) i l s) !! id = layers s !! id.
Proof.
  revert i s. induction l as [|x l IH]; intros i s Hid; [done|].
  simpl. rewrite IH.
  - rewrite toggle_layers. case_decide as Heq; [|done].
    exfalso. apply (Hid i); [simpl; lia|done].
  - intros j Hj. apply Hid. simpl. lia.
Qed.

Lemma each_index_toggle_at {A} (k : nat) (l : list A) (i : nat) (s : MapStyle) (j : nat) :
  i ≤ j < i + length l →
  layers (each_index (toggle k) i l s) !! layer_id j =
  set_visibility (if j =? k then Visible else Hidden) <$> layers s !! layer_id j.
Proof.
  revert i s. induction l as [|x l IH]; intros i s Hj; [simpl in Hj; lia|].
  simpl. destruct (decide (j = i)) as [->|Hne].
  - rewrite each_index_toggle_other.
    + rewrite toggle_layers. by case_decide.
    + intros j Hj' Heq. apply layer_id_inj in Heq. lia.
  - rewrite IH by (simpl in Hj; lia).
    rewrite toggle_layers. case_decide as Heq; [|done].
    apply layer_id_inj in Heq. done.
Qed.

Lemma each_index_toggle_sources {A} (k : nat) (l : list A) (i : nat) (s : MapStyle) :
  sources (each_index (toggle k) i l s) = sources s.
Proof.
  revert i s. induction l as [|x l IH]; intros i s; [done|].
  simpl. by rewrite IH, toggle_sources.
Qed.

Lemma click_has_layer (k : nat) (v : View) (i : nat) :
  has_layer (handleRouteClick k v) i = has_layer v i.
Proof.
  unfold has_layer, handleRouteClick. simpl.
  destruct (decide (i < length (routes v))) as [Hlt|Hge].
  - rewrite each_index_toggle_at by lia.
    apply bool_decide_ext. by rewrite fmap_is_Some.
  - rewrite each_index_toggle_other; [done|].
    intros j Hj Heq. apply layer_id_inj in Heq. lia.
Qed.

Lemma click_is_visible (k : nat) (v : View) (i : nat) :
  i < length (routes v) →
  is_visible (handleRouteClick k v) i = has_layer v i && (i =? k).
Proof.
  intros Hlt. unfold is_visible, has_layer, handleRouteClick. simpl.
  rewrite each_index_toggle_at by lia.
  destruct (layers (style v) !! layer_id i) as [l|]; [|done].
  by destruct (i =? k).
Qed.

(** C2.  One click on route [k]: the active index becomes [k]; every route
    index whose line layer exists gets visibility [Visible] if it is [k] and
    [Hidden] otherwise, the layer being otherwise unchanged; an index without
    a layer still has none; layers that belong to no route index, and all
    sources, are left alone.  Hence, when [k] is a route index whose layer
    exists, the route line layers visible afterwards are exactly the one of
    [k]. *)
Theorem handleRouteClick_visibility (k : nat) (v : View) :
  let v' := handleRouteClick k v in
  activeRouteId v' = Some k
  ∧ routes v' = routes v
  ∧ sources (style v') = sources (style v)
  ∧ (∀ i, i < length (routes v) →
       layers (style v') !! layer_id i =
       set_visibility (if i =? k then Visible else Hidden)
         <$> layers (style v) !! layer_id i)
  ∧ (∀ id, (∀ i, i < length (routes v) → id ≠ layer_id i) →
       layers (style v') !! id = layers (style v) !! id)
  ∧ (k < length (routes v) → has_layer v k = true →
       ∀ i, i < length (routes v) → is_visible v' i = true ↔ i = k).
Proof.
  simpl. split_and!; try done.
  - apply each_index_toggle_sources.
  - intros i Hi. apply each_index_toggle_at. lia.
  - intros id Hid. apply each_index_toggle_other. intros j Hj. apply Hid. lia.
  - intros Hk Hlayer i Hi. rewrite click_is_visible by done.
    rewrite andb_true_iff, Nat.eqb_eq. split; [by intros [_ ?]|].
    intros ->. done.
Qed.

End Selection.

(* ===================================================================== *)
(** * Reading the payload *)
(* ===================================================================== *)

Section Reading.

Lemma get_Returned_field (v : JSValue) (k : string) (a : JSValue) :
  get v k = Returned a → a = field v k.
Proof. destruct v; simpl; congruence. Qed.

Lemma get_readable (v : JSValue) (k : string) :
  readable_stop v = true → get v k = Returned (field v k).
Proof. by destruct v. Qed.

Lemma get_Returned_readable (v : JSValue) (k : string) (a : JSValue) :
  get v k = Returned a → readable_stop v = true.
Proof. by destruct v. Qed.

Lemma array_method_Returned (v : JSValue) (m : string) (l : list JSValue) :
  array_method v m = Returned l → v = JArr l.
Proof. destruct v; simpl; congruence. Qed.

Lemma mapO_get_readable (k : string) (l : list JSValue) :
  forallb readable_stop l = true →
  mapO (λ stop, get stop k) l = Returned (map (λ stop, field stop k) l).
Proof.
  induction l as [|x l IH]; [done|]. simpl.
  intros [Hx Hl]%andb_true_iff. by rewrite (get_readable _ _ Hx), IH.
Qed.

Lemma mapO_get_Returned (k : string) (l ys : list JSValue) :
  mapO (λ stop, get stop k) l = Returned ys →
  forallb readable_stop l = true ∧ ys = map (λ stop, field stop k) l.
Proof.
  revert ys. induction l as [|x l IH]; intros ys; simpl.
  - by intros [= <-].
  - destruct (get x k) as [a|] eqn:Hx; [|done]. simpl.
    destruct (mapO _ l) as [ys'|]; [|done]. simpl. intros [= <-].
    destruct (IH ys' eq_refl) as [-> ->].
    rewrite (get_Returned_readable _ _ _ Hx), (get_Returned_field _ _ _ Hx). done.
Qed.

Lemma filterO_flag_readable (l : list JSValue) :
  forallb readable_stop l = true →
  filterO (λ stop, obind (get stop "requires_walk") (λ w, Returned (truthy w))) l
  = Returned (List.filter flagged l).
Proof.
  induction l as [|x l IH]; [done|]. simpl.
  intros [Hx Hl]%andb_true_iff. rewrite (get_readable _ _ Hx), IH by done. simpl.
  unfold flagged. by destruct (truthy _).
Qed.

Lemma filterO_flag_Returned (l xs : list JSValue) :
  filterO (λ stop, obind (get stop "requires_walk") (λ w, Returned (truthy w))) l
  = Returned xs →
  forallb readable_stop l = true.
Proof.
  revert xs. induction l as [|x l IH]; intros xs; [done|]. simpl.
  destruct (get x _) as [a|] eqn:Hx; [|done]. simpl.
  destruct (filterO _ l) as [xs'|]; [|done]. intros _.
  by rewrite (get_Returned_readable _ _ _ Hx), (IH xs').
Qed.

Lemma readable_route_stops (route : JSValue) :
  readable_route route = true →
  field route "stops" = JArr (stops_of route)
  ∧ forallb readable_stop (stops_of route) = true
  ∧ readable_stop route = true.
Proof.
  unfold readable_route, stops_of.
  destruct route; simpl; try done.
  by destruct (default JUndefined _).
Qed.

Lemma collect_route_readable (route : JSValue) (acc : Derived) :
  readable_route route = true →
  collect_route route acc =
  Returned (respread route,
            {| allStudentsRequiringWalk :=
                 allStudentsRequiringWalk acc ++ List.filter flagged (stops_of route);
               allStudentLocations :=
                 allStudentLocations acc ++ map location_of (stops_of route) |}).
Proof.
  intros (Hstops & Hall & Hroute)%readable_route_stops.
  unfold collect_route, respread.
  rewrite (get_readable _ _ Hroute), Hstops. simpl.
  rewrite filterO_flag_readable by done. simpl.
  by rewrite mapO_get_readable.
Qed.

Lemma collect_route_Returned (route : JSValue) (acc : Derived) r :
  collect_route route acc = Returned r → readable_route route = true.
Proof.
  unfold collect_route, readable_route.
  destruct (get route "stops") as [v|] eqn:Hget; [|done]. simpl.
  destruct (array_method v "filter") as [l|] eqn:Harr; [|done]. simpl.
  apply array_method_Returned in Harr as ->.
  destruct (filterO _ l) as [xs|] eqn:Hf; [|done]. intros _.
  rewrite <-(get_Returned_field _ _ _ Hget).
  by eapply filterO_flag_Returned.
Qed.

Lemma collect_routes_readable (routes : list JSValue) (acc : Derived) :
  forallb readable_route routes = true →
  collect_routes routes acc =
  Returned (map respread routes,
            {| allStudentsRequiringWalk :=
                 allStudentsRequiringWalk acc ++ flagged_stops routes;
               allStudentLocations :=
                 allStudentLocations acc ++ all_locations routes |}).
Proof.
  revert acc. induction routes as [|r routes IH]; intros acc; simpl.
  - intros _. destruct acc. simpl. by rewrite !app_nil_r.
  - intros [Hr Hrs]%andb_true_iff.
    rewrite collect_route_readable by done. simpl.
    rewrite IH by done. simpl. by rewrite <-!app_assoc.
Qed.

Lemma collect_routes_Returned (routes : list JSValue) (acc : Derived) r :
  collect_routes routes acc = Returned r → forallb readable_route routes = true.
Proof.
  revert acc r. induction routes as [|x routes IH]; intros acc r; [done|]. simpl.
  destruct (collect_route x acc) as [rx|] eqn:Hx; [|done]. simpl.
  destruct (collect_routes routes _) as [rs|] eqn:Hrs; [|done]. intros _.
  by rewrite (collect_route_Returned _ _ _ Hx), (IH _ _ Hrs).
Qed.

(** The payload test, spelled out. *)
Lemma payload_ok_true (data : JSValue) :
  payload_ok data = Returned true ↔
  truthy (field data "success") = true ∧ field data "data" = JArr (routes_of data).
Proof.
  unfold payload_ok, routes_of. destruct data; simpl; try (split; [done|by intros [? ?]]).
  destruct (truthy (default JUndefined (assoc "success" fs))); simpl.
  - destruct (default JUndefined (assoc "data" fs)); simpl; split;
      by (intros [= ?] || intros [_ ?] || idtac).
  - split; [done|by intros [? ?]].
Qed.

Lemma set_field_assoc (k k' : string) (v : JSValue) (fs : list (string * JSValue)) :
  assoc k (set_field k' v fs) = if String.eqb k k' then Some v else assoc k fs.
Proof.
  induction fs as [|[k0 v0] fs IH]; simpl.
  - by destruct (String.eqb k k').
  - destruct (String.eqb k' k0) eqn:E0; simpl.
    + apply String.eqb_eq in E0 as ->. by destruct (String.eqb k k0).
    + rewrite IH. destruct (String.eqb k k0) eqn:E1; [|done].
      apply String.eqb_eq in E1 as ->.
      by rewrite String.eqb_sym, E0.
Qed.

Lemma field_respread (route : JSValue) (k : string) :
  readable_route route = true → field (respread route) k = field route k.
Proof.
  unfold readable_route, respread. destruct route; simpl; try done. intros _.
  rewrite set_field_assoc. destruct (String.eqb k "stops") eqn:E; [|done].
  by apply String.eqb_eq in E as ->.
Qed.

End Reading.

(* ===================================================================== *)
(** * How the loader's actions run *)
(* ===================================================================== *)

Section Running.
Context `{MapEngine}.

Local Open Scope load_scope.

Lemma extends_of_app (l1 l2 : list Event) :
  extends_of (l1 ++ l2) = extends_of l1 ++ extends_of l2.
Proof. apply omap_app. Qed.

Lemma runs_ret {A} (a : A) : runs (ret a) [].
Proof.
  intros st. exists []. simpl. rewrite !app_nil_r. by split_and!.
Qed.

Lemma runs_throw {A} (e : Exn) (full : list Event) : runs (@throw A e) full.
Proof.
  intros st. exists []. simpl. rewrite !app_nil_r.
  split_and!; try done. apply prefix_nil.
Qed.

Lemma runs_emit (e : Event) :
  extends_of [e] = [] → accepted e = true → runs (emit e) [e].
Proof.
  intros Hext Hacc st. exists [e]. unfold emit. cbn [fst snd trace bounds forallb].
  rewrite Hext, Hacc, app_nil_r. by split_and!.
Qed.

Lemma runs_bind {A B} (m : M A) (k : A → M B) (fm fk : list Event) :
  runs m fm → (∀ a, runs (k a) fk) → runs (bind m k) (fm ++ fk).
Proof.
  intros Hm Hk st. destruct (Hm st) as (evs & Ht & Hb & Hp & Hr & Ha).
  unfold bind. destruct (m st) as [st' [a|e]]; simpl in *.
  - rewrite (Hr a eq_refl) in *.
    destruct (Hk a st') as (evs' & Ht' & Hb' & Hp' & Hr' & Ha').
    exists (fm ++ evs'). split_and!.
    + by rewrite Ht', Ht, app_assoc.
    + by rewrite Hb', Hb, extends_of_app, app_assoc.
    + by apply prefix_app.
    + intros b Hb0. by rewrite (Hr' b Hb0).
    + rewrite forallb_app. by rewrite Ha, Ha'.
  - exists evs. split_and!; try done. by apply prefix_app_r.
Qed.

Lemma runs_lift_bind {A B} (o : Outcome A) (k : A → M B) (full : list Event) :
  (∀ a, o = Returned a → runs (k a) full) → runs (bind (lift o) k) full.
Proof.
  intros Hk. destruct o as [a|e].
  - intros st. apply (Hk a eq_refl st).
  - intros st. apply (runs_throw (A:=B) e full st).
Qed.

Lemma runs_forEach_from {A} (f : A → nat → M unit) (g : A → nat → list Event)
    (l : list A) (i : nat) :
  (∀ x j, runs (f x j) (g x j)) → runs (forEach_from f i l) (indexed_events g i l).
Proof.
  intros Hf. revert i. induction l as [|x l IH]; intros i; simpl.
  - apply runs_ret.
  - apply runs_bind; [apply Hf|intros _; apply IH].
Qed.

Lemma runs_place_marker (c : JSValue) (e : Event) :
  extends_of [e] = [] → accepted e = marker_accepts c → runs (place_marker c e) [e].
Proof.
  intros Hext Hacc. unfold place_marker.
  destruct (marker_accepts c) eqn:Hc; [by apply runs_emit|apply runs_throw].
Qed.

Lemma runs_extend (c : JSValue) : runs (extend c) [EBoundsExtend c].
Proof.
  unfold extend. destruct (bounds_accepts c) eqn:Hc; [|apply runs_throw].
  intros st. exists [EBoundsExtend c]. simpl. rewrite Hc. by split_and!.
Qed.

Lemma runs_render_stop (routeColor : option string) (stop : JSValue) (stopIndex : nat) :
  runs (render_stop routeColor stop stopIndex) (stop_events routeColor stop stopIndex).
Proof.
  unfold render_stop, stop_events, location_of.
  apply runs_lift_bind. intros location ->%get_Returned_field.
  destruct (valid_location _).
  - apply runs_lift_bind. intros w ->%get_Returned_field.
    apply runs_lift_bind. intros n ->%get_Returned_field.
    apply (runs_bind _ _ [_] [_]); [|intros _; apply runs_extend].
    by apply runs_place_marker.
  - by apply runs_emit.
Qed.

Lemma runs_fetchRouteDirections (route : JSValue) (index : nat) :
  runs (fetchRouteDirections (map location_of (stops_of route)) (finalDestination_of route)
                             index (getRouteColor index))
       [directions_event route index].
Proof.
  unfold fetchRouteDirections, directions_event.
  destruct (directions_coordinates _ _); by apply runs_emit.
Qed.

Lemma runs_render_route (route : JSValue) (index : nat) :
  runs (render_route route index) (route_events route index).
Proof.
  unfold render_route, route_events.
  apply runs_lift_bind. intros route_stops Hstops%get_Returned_field.
  apply runs_lift_bind. intros stop_list ->%array_method_Returned.
  apply runs_lift_bind. intros stops [_ ->]%mapO_get_Returned.
  apply runs_lift_bind. intros fd ->%get_Returned_field.
  apply runs_lift_bind. intros lon ->%get_Returned_field.
  apply runs_lift_bind. intros lat ->%get_Returned_field.
  assert (stops_of route = stop_list) as Hl by (unfold stops_of; by rewrite <-Hstops).
  assert (elem (JArr (map (λ stop, field stop "location") stop_list)) 0
          = driver_coordinate route) as ->.
  { unfold driver_coordinate. by rewrite Hl. }
  apply runs_bind; [by apply runs_place_marker|].
  intros _. apply runs_bind.
  { rewrite Hl. apply runs_forEach_from. apply runs_render_stop. }
  intros _. apply (runs_bind _ _ [_] [_; _]).
  { by apply runs_place_marker. }
  intros _. apply (runs_bind _ _ [_] [_]); [apply runs_extend|].
  intros _. rewrite <-Hl. apply runs_fetchRouteDirections.
Qed.

Lemma home_events_indexed (locations : list JSValue) (i : nat) :
  indexed_events (λ c _, [EHomeMarker c; EBoundsExtend c]) i locations
  = home_events locations.
Proof.
  revert i. induction locations as [|c l IH]; intros i; [done|].
  simpl. by rewrite IH.
Qed.

Lemma runs_homes (locations : list JSValue) :
  runs (forEach (λ location _, addStudentHomeMarker location >> extend location) locations)
       (home_events locations).
Proof.
  rewrite <-(home_events_indexed locations 0).
  apply runs_forEach_from. intros c _.
  apply (runs_bind _ _ [_] [_]); [by apply runs_place_marker|].
  intros _. apply runs_extend.
Qed.

Lemma runs_render_pass (validRoutes locations : list JSValue) :
  runs (render_pass validRoutes locations)
       (home_events locations ++ indexed_events route_events 0 validRoutes).
Proof.
  apply runs_bind; [apply runs_homes|].
  intros _. apply runs_forEach_from. apply runs_render_route.
Qed.

End Running.

(* ===================================================================== *)
(** * The shape of a load *)
(* ===================================================================== *)

Section LoadShape.
Context `{MapEngine}.

Local Open Scope load_scope.

Lemma bind_assoc {A B C} (m : M A) (k : A → M B) (h : B → M C) (st : LoadState) :
  bind (bind m k) h st = bind m (λ a, bind (k a) h) st.
Proof. unfold bind. by destruct (m st) as [st' [a|e]]. Qed.

(** The [try] block on a parsed reply, up to the rendering pass. *)
Lemma try_unfold (data : JSValue) :
  fetchRoutesData_try (Json data) init =
  let logged := {| trace := [EFetch routes_url; EConsoleLog "API Response:" data];
                   bounds := [] |} in
  match payload_ok data with
  | Threw e => (logged, Threw e)
  | Returned false =>
    ({| trace := [EFetch routes_url; EConsoleLog "API Response:" data;
                  EConsoleError "Invalid route data format:" data];
        bounds := [] |}, Threw FormatError)
  | Returned true =>
    match obind (get data "data") (λ payload, array_method payload "map") with
    | Threw e => (logged, Threw e)
    | Returned routes =>
      match collect_routes routes
              {| allStudentsRequiringWalk := []; allStudentLocations := [] |} with
      | Threw e => (logged, Threw e)
      | Returned r =>
        bind (render_pass r.1 (allStudentLocations r.2)) (λ _, fitBounds)
             {| trace := [EFetch routes_url; EConsoleLog "API Response:" data;
                          ESetRoutes r.1;
                          ESetStudentsRequiringWalk (allStudentsRequiringWalk r.2);
                          ESetAllStudentLocations (allStudentLocations r.2)];
                bounds := [] |}
      end
    end
  end.
Proof.
  unfold fetchRoutesData_try, render_pass.
  unfold bind at 1 2 3 4. simpl.
  destruct (payload_ok data) as [[|]|e]; simpl; try done.
  unfold bind at 1. simpl.
  destruct (get data "data") as [payload|e]; simpl; try done.
  unfold bind at 1. simpl.
  destruct (array_method payload "map") as [routes|e]; simpl; try done.
  unfold bind at 1. simpl.
  destruct (collect_routes routes _) as [r|e]; simpl; try done.
  unfold bind at 1 2 3. simpl.
  by rewrite bind_assoc.
Qed.

Lemma payload_ok_get_data (data : JSValue) :
  payload_ok data = Returned true →
  obind (get data "data") (λ payload, array_method payload "map")
  = Returned (routes_of data).
Proof.
  intros Hok. pose proof Hok as [_ Hdata]%payload_ok_true.
  destruct data; try done. simpl in *. by rewrite Hdata.
Qed.

(** The rendering pass followed by [fitBounds], from the state the setters
    leave. *)
Lemma render_then_fit (validRoutes locations : list JSValue) (before : list Event) :
  let full := home_events locations ++ indexed_events route_events 0 validRoutes in
  let result := bind (render_pass validRoutes locations) (λ _, fitBounds)
                     {| trace := before; bounds := [] |} in
  ∃ evs, evs `prefix_of` full ∧ forallb accepted evs = true
    ∧ ((result.2 = Returned tt ∧ evs = full ∧ fit_accepts (extends_of full) = true
        ∧ trace result.1 = before ++ full ++ [EFitBounds (extends_of full) 20 15])
       ∨ (∃ e, result.2 = Threw e ∧ trace result.1 = before ++ evs)).
Proof.
  intros full result. subst full result.
  destruct (runs_render_pass validRoutes locations {| trace := before; bounds := [] |})
    as (evs & Ht & Hb & Hp & Hr & Ha).
  exists evs. split_and!; try done.
  unfold bind.
  destruct (render_pass validRoutes locations _) as [st' [[]|e]]; simpl in *.
  - rewrite (Hr tt eq_refl) in *. unfold fitBounds, bind, read_bounds. simpl.
    rewrite Hb. destruct (fit_accepts (extends_of _)) eqn:Hfit; simpl.
    + left. split_and!; try done. by rewrite Ht, <-app_assoc.
    + right. eexists. split; [done|]. by rewrite Ht.
  - right. eexists. split; [done|]. by rewrite Ht.
Qed.

End LoadShape.

Section LoadOutcome.
Context `{MapEngine}.

Lemma route_events_respread (route : JSValue) (i : nat) :
  readable_route route = true → route_events (respread route) i = route_events route i.
Proof.
  intros Hr.
  unfold route_events, driver_coordinate, directions_event, finalDestination_of, stops_of.
  by rewrite !field_respread.
Qed.

Lemma indexed_route_events_respread (routes : list JSValue) (i : nat) :
  forallb readable_route routes = true →
  indexed_events route_events i (map respread routes)
  = indexed_events route_events i routes.
Proof.
  revert i. induction routes as [|r routes IH]; intros i; [done|].
  cbn [indexed_events map forallb].
  intros [Hr Hrs]%andb_true_iff. by rewrite route_events_respread, IH.
Qed.

Lemma respread_readable (route : JSValue) :
  readable_route route = true →
  readable_route (respread route) = true ∧
  has_destination (respread route) = has_destination route.
Proof.
  intros Hr. unfold readable_route, has_destination.
  rewrite !field_respread by done. done.
Qed.

(** A reply that passes the payload test and can be read: the load shows the
    header, then the rendering events up to the first call the engine
    refuses, then either [fitBounds] or the alert. *)
Lemma load_readable (data : JSValue) :
  payload_ok data = Returned true →
  forallb readable_route (routes_of data) = true →
  ∃ evs, evs `prefix_of` render_events (routes_of data)
    ∧ forallb accepted evs = true
    ∧ ((completed (Json data) = true
        ∧ evs = render_events (routes_of data)
        ∧ fit_accepts (extends_of (render_events (routes_of data))) = true
        ∧ fetchRoutesData (Json data) =
          header data (routes_of data) ++ render_events (routes_of data)
          ++ [EFitBounds (extends_of (render_events (routes_of data))) 20 15])
       ∨ (completed (Json data) = false
          ∧ ∃ e, fetchRoutesData (Json data) =
                 header data (routes_of data) ++ evs
                 ++ [EConsoleErrorExn "Error fetching routes:" e; EAlert e])).
Proof.
  intros Hok Hread.
  unfold completed, fetchRoutesData, run_load. rewrite try_unfold. simpl.
  rewrite Hok, (payload_ok_get_data _ Hok), (collect_routes_readable _ _ Hread). simpl.
  destruct (render_then_fit (map respread (routes_of data)) (all_locations (routes_of data))
              (header data (routes_of data)))
    as (evs & Hp & Ha & Hcase).
  rewrite indexed_route_events_respread in Hp, Hcase by done.
  exists evs. split_and!; try done.
  unfold header in *.
  destruct (bind _ _ _) as [st [[]|e]]; simpl in *.
  - left. destruct Hcase as [(_ & Hevs & Hfit & Htr)|(e & ? & _)]; [|done].
    subst evs. rewrite Htr. by split_and!.
  - right. destruct Hcase as [(? & _)|(e' & [= <-] & Htr)]; [done|].
    split; [done|]. exists e. by rewrite Htr.
Qed.

(** The loads that stop before anything is rendered. *)
Lemma load_network_failure :
  fetchRoutesData NetworkFailure =
  [EFetch routes_url; EConsoleErrorExn "Error fetching routes:" NetworkError;
   EAlert NetworkError].
Proof. reflexivity. Qed.

Lemma load_not_json :
  fetchRoutesData NotJson =
  [EFetch routes_url; EConsoleErrorExn "Error fetching routes:" SyntaxError;
   EAlert SyntaxError].
Proof. reflexivity. Qed.

Lemma load_format_error (data : JSValue) :
  payload_ok data = Returned false →
  fetchRoutesData (Json data) =
  [EFetch routes_url; EConsoleLog "API Response:" data;
   EConsoleError "Invalid route data format:" data;
   EConsoleErrorExn "Error fetching routes:" FormatError; EAlert FormatError].
Proof.
  intros Hok. unfold fetchRoutesData, run_load. rewrite try_unfold. simpl.
  by rewrite Hok.
Qed.

Lemma load_payload_throws (data : JSValue) (e : Exn) :
  payload_ok data = Threw e →
  fetchRoutesData (Json data) =
  [EFetch routes_url; EConsoleLog "API Response:" data;
   EConsoleErrorExn "Error fetching routes:" e; EAlert e].
Proof.
  intros Hok. unfold fetchRoutesData, run_load. rewrite try_unfold. simpl.
  by rewrite Hok.
Qed.

Lemma load_unreadable (data : JSValue) :
  payload_ok data = Returned true →
  forallb readable_route (routes_of data) = false →
  ∃ e, fetchRoutesData (Json data) =
       [EFetch routes_url; EConsoleLog "API Response:" data;
        EConsoleErrorExn "Error fetching routes:" e; EAlert e].
Proof.
  intros Hok Hread. unfold fetchRoutesData, run_load. rewrite try_unfold. simpl.
  rewrite Hok, (payload_ok_get_data _ Hok).
  destruct (collect_routes _ _) as [r|e] eqn:Hc.
  - apply collect_routes_Returned in Hc. congruence.
  - by exists e.
Qed.

(** A load that completes has passed the payload test, could be read, met
    no refusal, and shows the whole rendering followed by [fitBounds]. *)
Lemma load_completed (response : Response) :
  completed response = true →
  ∃ data, response = Json data
    ∧ payload_ok data = Returned true
    ∧ forallb readable_route (routes_of data) = true
    ∧ forallb accepted (render_events (routes_of data)) = true
    ∧ fit_accepts (extends_of (render_events (routes_of data))) = true
    ∧ fetchRoutesData response =
      header data (routes_of data) ++ render_events (routes_of data)
      ++ [EFitBounds (extends_of (render_events (routes_of data))) 20 15].
Proof.
  destruct response as [| |data]; try done. intros Hdone. exists data.
  assert (payload_ok data = Returned true) as Hok.
  { revert Hdone. unfold completed, run_load. rewrite try_unfold. simpl.
    by destruct (payload_ok data) as [[|]|e]. }
  assert (forallb readable_route (routes_of data) = true) as Hread.
  { revert Hdone. unfold completed, run_load. rewrite try_unfold. simpl.
    rewrite Hok, (payload_ok_get_data _ Hok).
    destruct (collect_routes _ _) as [r|e] eqn:Hc; [|done].
    intros _. by eapply collect_routes_Returned. }
  destruct (load_readable data Hok Hread) as (evs & _ & Ha & [Hcase|[Hcase _]]).
  - destruct Hcase as (_ & -> & Hfit & Hrun). by split_and!.
  - congruence.
Qed.

End LoadOutcome.

(* ===================================================================== *)
(** * Lists of events *)
(* ===================================================================== *)

Section EventLists.

Lemma indexed_events_ext {A} (f g : A → nat → list Event) (i : nat) (l : list A) :
  (∀ x j, x ∈ l → f x j = g x j) → indexed_events f i l = indexed_events g i l.
Proof.
  revert i. induction l as [|x l IH]; intros i Hfg; [done|]. simpl.
  rewrite Hfg by apply list_elem_of_here. rewrite IH; [done|].
  intros y j Hy. apply Hfg. by apply list_elem_of_further.
Qed.

Lemma filter_indexed_events {A} (p : Event → bool) (f : A → nat → list Event)
    (i : nat) (l : list A) :
  List.filter p (indexed_events f i l)
  = indexed_events (λ x j, List.filter p (f x j)) i l.
Proof.
  revert i. induction l as [|x l IH]; intros i; [done|]. simpl.
  by rewrite List.filter_app, IH.
Qed.

Lemma omap_indexed_events {A B} (p : Event → option B) (f : A → nat → list Event)
    (g : A → list B) (i : nat) (l : list A) :
  (∀ x j, omap p (f x j) = g x) → omap p (indexed_events f i l) = flat_map g l.
Proof.
  intros Hfg. revert i. induction l as [|x l IH]; intros i; [done|]. simpl.
  by rewrite omap_app, Hfg, IH.
Qed.

Lemma indexed_events_nil {A} (f : A → nat → list Event) (i : nat) (l : list A) :
  (∀ x j, x ∈ l → f x j = []) → indexed_events f i l = [].
Proof.
  revert i. induction l as [|x l IH]; intros i Hf; [done|]. simpl.
  rewrite Hf by apply list_elem_of_here. apply IH.
  intros y j Hy. apply Hf. by apply list_elem_of_further.
Qed.

Lemma elem_of_indexed_events {A} (f : A → nat → list Event) (i : nat) (l : list A)
    (e : Event) :
  e ∈ indexed_events f i l ↔ ∃ j x, l !! j = Some x ∧ e ∈ f x (i + j).
Proof.
  revert i. induction l as [|x l IH]; intros i; simpl.
  - rewrite elem_of_nil. split; [done|]. by intros (j & y & ? & _).
  - rewrite elem_of_app, IH. split.
    + intros [He|(j & y & Hj & He)].
      * exists 0, x. by rewrite Nat.add_0_r.
      * exists (S j), y. split; [done|]. by replace (i + S j) with (S i + j) by lia.
    + intros ([|j] & y & Hj & He); simpl in Hj.
      * left. injection Hj as ->. by rewrite Nat.add_0_r in He.
      * right. exists j, y. split; [done|]. by replace (S i + j) with (i + S j) by lia.
Qed.

Lemma forallb_indexed_events {A} (p : Event → bool) (f : A → nat → list Event)
    (i : nat) (l : list A) :
  (∀ x j, forallb p (f x j) = true) → forallb p (indexed_events f i l) = true.
Proof.
  intros Hf. revert i. induction l as [|x l IH]; intros i; [done|]. simpl.
  by rewrite forallb_app, Hf, IH.
Qed.

Lemma length_flat_map_sum {A B} (f : A → list B) (l : list A) :
  length (flat_map f l) = sum_list (map (λ x, length (f x)) l).
Proof.
  induction l as [|x l IH]; [done|]. simpl. by rewrite length_app, IH.
Qed.

Lemma elem_of_flat_map {A B} (f : A → list B) (l : list A) (y : B) :
  y ∈ flat_map f l ↔ ∃ x, x ∈ l ∧ y ∈ f x.
Proof.
  rewrite !list_elem_of_In, in_flat_map. setoid_rewrite list_elem_of_In. done.
Qed.

Lemma filter_nil_forallb {A} (p q : A → bool) (l : list A) :
  (∀ x, q x = true → p x = false) → forallb q l = true → List.filter p l = [].
Proof.
  intros Hpq. induction l as [|x l IH]; [done|]. simpl.
  intros [Hx Hl]%andb_true_iff. by rewrite (Hpq x Hx), IH.
Qed.

Lemma length_indexed_singletons {A} (f : A → nat → list Event) (i : nat) (l : list A) :
  (∀ x j, length (f x j) = 1) → length (indexed_events f i l) = length l.
Proof.
  intros Hf. revert i. induction l as [|x l IH]; intros i; [done|]. simpl.
  by rewrite length_app, Hf, IH.
Qed.


(** A prefix that lacks an entry of the first segment lies within it. *)
Lemma prefix_app_not_elem_of {A} (l l1 l2 : list A) (x : A) :
  l `prefix_of` l1 ++ l2 → x ∈ l1 → x ∉ l → l `prefix_of` l1.
Proof.
  intros [k Hk] Hin Hnot. revert l Hk Hnot.
  induction l1 as [|y l1 IH]; intros l Hk Hnot.
  - by apply elem_of_nil in Hin.
  - destruct l as [|z l]; [apply prefix_nil|].
    simpl in Hk. injection Hk as <- Hk.
    apply not_elem_of_cons in Hnot as [Hne Hnot].
    apply elem_of_cons in Hin as [?|Hin]; [done|].
    apply prefix_cons. by apply IH.
Qed.

(** The decimal form of a number never reads "School". *)
Lemma pretty_N_go_not_School (x : N) (s : string) :
  s ≠ "School" → pretty_N_go x s ≠ "School".
Proof.
  revert s. induction (N.lt_wf_0 x) as [x _ IH]; intros s Hs.
  assert (x = 0 ∨ 0 < x)%N as [->|Hpos] by lia.
  - by rewrite pretty_N_go_0.
  - rewrite pretty_N_go_step by done. apply IH.
    { by apply N.div_lt. }
    unfold pretty_N_char. by repeat case_match.
Qed.

Lemma pretty_nat_not_School (n : nat) : String.eqb (pretty n) "School" = false.
Proof.
  apply String.eqb_neq. unfold pretty, pretty_nat, pretty, pretty_N.
  case_decide; [done|]. by apply pretty_N_go_not_School.
Qed.

End EventLists.

(* ===================================================================== *)
(** * The walk-required list *)
(* ===================================================================== *)

Section WalkList.
Context `{MapEngine}.

Lemma forallb_prefix {A} (p : A → bool) (l1 l2 : list A) :
  l1 `prefix_of` l2 → forallb p l2 = true → forallb p l1 = true.
Proof. intros [k ->]. rewrite forallb_app. by intros [? _]%andb_true_iff. Qed.

(** The rendering pass produces markers, bounds extensions, directions
    requests and invalid-coordinate reports, nothing else. *)
Lemma render_events_forallb (p : Event → bool) (routes : list JSValue) :
  (∀ c, p (EHomeMarker c) = true) →
  (∀ c, p (EBoundsExtend c) = true) →
  (∀ c color, p (EDriverMarker c color) = true) →
  (∀ c l color w n, p (EStopMarker c l color w n) = true) →
  (∀ stop, p (EConsoleError "Invalid coordinates for stop:" stop) = true) →
  (∀ i color cs, p (EDirectionsRequest i color cs) = true) →
  (∀ i e, p (EDirectionsRejected i e) = true) →
  forallb p (render_events routes) = true.
Proof.
  intros Hhome Hext Hdriver Hstop Hlog Hreq Hrej.
  unfold render_events. rewrite forallb_app. apply andb_true_iff. split.
  - unfold home_events. induction (all_locations routes) as [|c l IH]; [done|].
    simpl. by rewrite Hhome, Hext, IH.
  - apply forallb_indexed_events. intros route index.
    unfold route_events. simpl. rewrite Hdriver, forallb_app. simpl.
    apply andb_true_iff. split.
    + apply forallb_indexed_events. intros stop j. unfold stop_events.
      destruct (valid_location _); simpl; by rewrite ?Hstop, ?Hext, ?Hlog.
    + simpl. rewrite Hstop, Hext. unfold directions_event.
      destruct (directions_coordinates _ _); by rewrite ?Hreq, ?Hrej.
Qed.

Lemma render_events_no_setter (routes : list JSValue) :
  forallb (λ e, negb (is_setter e)) (render_events routes) = true.
Proof. by apply render_events_forallb. Qed.

Lemma render_events_no_fit (routes : list JSValue) :
  forallb (λ e, negb (is_fit e)) (render_events routes) = true.
Proof. by apply render_events_forallb. Qed.

Lemma filter_nil_prefix {A} (p : A → bool) (l1 l2 : list A) :
  l1 `prefix_of` l2 → forallb (λ x, negb (p x)) l2 = true → List.filter p l1 = [].
Proof.
  intros Hp Hall. apply (filter_nil_forallb p (λ x, negb (p x))).
  - intros x. by destruct (p x).
  - by eapply forallb_prefix.
Qed.

Lemma typed_stop_readable (stop : JSValue) :
  typed_stop stop = true → readable_stop stop = true.
Proof. by destruct stop. Qed.

Lemma typed_stop_flagged (stop : JSValue) :
  typed_stop stop = true → flagged stop = requires_walk_true stop.
Proof.
  unfold typed_stop, flagged, requires_walk_true. destruct stop; try done.
  by destruct (field _ _) as [| |[|]| | | |].
Qed.

Lemma typed_route_readable (route : JSValue) :
  typed_route route = true → readable_route route = true.
Proof.
  unfold typed_route, readable_route. destruct (field route "stops"); try done.
  induction l as [|s l IH]; [done|]. simpl.
  intros [Hs Hl]%andb_true_iff. by rewrite (typed_stop_readable _ Hs), IH.
Qed.

Lemma typed_route_flagged (route : JSValue) :
  typed_route route = true →
  List.filter flagged (stops_of route) = List.filter requires_walk_true (stops_of route).
Proof.
  unfold typed_route, stops_of. destruct (field route "stops"); try done.
  induction l as [|s l IH]; [done|]. simpl.
  intros [Hs Hl]%andb_true_iff. by rewrite (typed_stop_flagged _ Hs), IH.
Qed.

Lemma typed_routes_readable (routes : list JSValue) :
  forallb typed_route routes = true → forallb readable_route routes = true.
Proof.
  induction routes as [|r routes IH]; [done|]. simpl.
  intros [Hr Hrs]%andb_true_iff. by rewrite (typed_route_readable _ Hr), IH.
Qed.

Lemma typed_routes_flagged (routes : list JSValue) :
  forallb typed_route routes = true → flagged_stops routes = walkingStops routes.
Proof.
  unfold flagged_stops, walkingStops.
  induction routes as [|r routes IH]; [done|]. simpl.
  intros [Hr Hrs]%andb_true_iff. by rewrite (typed_route_flagged _ Hr), IH.
Qed.

(** C1.  For a reply that passes the payload test and whose routes are typed
    as the interfaces say, the load sets, right after logging the reply, the
    routes, then the walk-required list, then the location list; the
    walk-required list it sets is the concatenation, route after route in
    payload order, of each route's stops with [requires_walk == true] in stop
    order, nothing removed; no later event sets any of the three again; and
    the length of that list is the number of such stops over all routes. *)
Theorem walkingStops_derived (data : JSValue) :
  payload_ok data = Returned true →
  forallb typed_route (routes_of data) = true →
  (∃ rest,
     fetchRoutesData (Json data) =
     [EFetch routes_url;
      EConsoleLog "API Response:" data;
      ESetRoutes (map respread (routes_of data));
      ESetStudentsRequiringWalk (walkingStops (routes_of data));
      ESetAllStudentLocations (all_locations (routes_of data))] ++ rest
     ∧ forallb (λ e, negb (is_setter e)) rest = true)
  ∧ length (walkingStops (routes_of data)) = walk_count (routes_of data).
Proof.
  intros Hok Htyped. split; [|apply length_flat_map_sum].
  pose proof (typed_routes_readable _ Htyped) as Hread.
  destruct (load_readable data Hok Hread) as (evs & Hp & _ & Hcase).
  pose proof (forallb_prefix _ _ _ Hp (render_events_no_setter _)) as Hevs.
  rewrite <-(typed_routes_flagged _ Htyped).
  destruct Hcase as [(_ & _ & _ & ->)|(_ & e & ->)]; eexists; (split; [reflexivity|]).
  - rewrite forallb_app, render_events_no_setter. done.
  - rewrite forallb_app, Hevs. done.
Qed.

End WalkList.

Lemma walkingStops_derived_witness :
  payload_ok (Sample.reply Sample.two_routes) = Returned true
  ∧ forallb typed_route (routes_of (Sample.reply Sample.two_routes)) = true
  ∧ (∃ rest,
       @fetchRoutesData Engines.checking (Json (Sample.reply Sample.two_routes)) =
       [EFetch routes_url;
        EConsoleLog "API Response:" (Sample.reply Sample.two_routes);
        ESetRoutes (map respread (routes_of (Sample.reply Sample.two_routes)));
        ESetStudentsRequiringWalk (walkingStops (routes_of (Sample.reply Sample.two_routes)));
        ESetAllStudentLocations (all_locations (routes_of (Sample.reply Sample.two_routes)))]
       ++ rest
       ∧ forallb (λ e, negb (is_setter e)) rest = true)
  ∧ length (walkingStops (routes_of (Sample.reply Sample.two_routes)))
    = walk_count (routes_of (Sample.reply Sample.two_routes)).
Proof.
  split; [reflexivity|]. split; [reflexivity|].
  apply (@walkingStops_derived Engines.checking (Sample.reply Sample.two_routes));
    reflexivity.
Defined.

(* ===================================================================== *)
(** * A load that fails its first step *)
(* ===================================================================== *)

Section PrimaryFailure.
Context `{MapEngine}.

Lemma payload_not_ok (data : JSValue) :
  truthy (field data "success") = false ∨ isArray (field data "data") = false →
  payload_ok data ≠ Returned true.
Proof.
  intros Hbad [Hs Hd]%payload_ok_true. rewrite Hs, Hd in Hbad.
  by destruct Hbad.
Qed.

(** C3.  When the network call fails, the body is not JSON, or the reply
    lacks a truthy [success] or an array [data], the load does not complete:
    it sets no state, places no marker, extends no bounds, asks for no
    directions (so no line is ever added) and does not fit the map; it ends
    with the one alert it raises; and it has called [fetch] exactly once. *)
Theorem primary_failure_aborts (response : Response) :
  (response = NetworkFailure
   ∨ response = NotJson
   ∨ ∃ data, response = Json data
       ∧ (truthy (field data "success") = false ∨ isArray (field data "data") = false)) →
  completed response = false
  ∧ forallb (λ e, negb (renders e)) (fetchRoutesData response) = true
  ∧ pending (fetchRoutesData response) = []
  ∧ (∃ before e, fetchRoutesData response = before ++ [EAlert e]
       ∧ List.filter is_alert before = [])
  ∧ length (List.filter is_fetch (fetchRoutesData response)) = 1.
Proof.
  intros [->|[->|(data & -> & Hbad)]].
  - split; [done|]. rewrite load_network_failure.
    split_and!; try done. by eexists [_; _], _.
  - split; [done|]. rewrite load_not_json.
    split_and!; try done. by eexists [_; _], _.
  - apply payload_not_ok in Hbad. split.
    { destruct (completed (Json data)) eqn:Hdone; [|done].
      apply load_completed in Hdone as (d & [= <-] & Hok & _). done. }
    destruct (payload_ok data) as [[|]|e] eqn:Hok; [done| |].
    + rewrite (load_format_error _ Hok). split_and!; try done.
      by eexists [_; _; _; _], _.
    + rewrite (load_payload_throws _ _ Hok). split_and!; try done.
      by eexists [_; _; _], _.
Qed.

End PrimaryFailure.

Lemma primary_failure_aborts_witness :
  let response := Json (JObj [("success", JBool true); ("data", JStr "none")]) in
  (response = NetworkFailure
   ∨ response = NotJson
   ∨ ∃ data, response = Json data
       ∧ (truthy (field data "success") = false ∨ isArray (field data "data") = false))
  ∧ @completed Engines.checking response = false
  ∧ forallb (λ e, negb (renders e)) (@fetchRoutesData Engines.checking response) = true
  ∧ pending (@fetchRoutesData Engines.checking response) = []
  ∧ (∃ before e, @fetchRoutesData Engines.checking response = before ++ [EAlert e]
       ∧ List.filter is_alert before = [])
  ∧ length (List.filter is_fetch (@fetchRoutesData Engines.checking response)) = 1.
Proof.
  intros response.
  assert (response = NetworkFailure
          ∨ response = NotJson
          ∨ ∃ data, response = Json data
              ∧ (truthy (field data "success") = false
                 ∨ isArray (field data "data") = false)) as Hbad.
  { right. right. eexists. split; [reflexivity|]. right. reflexivity. }
  split; [exact Hbad|].
  exact (@primary_failure_aborts Engines.checking response Hbad).
Defined.

(* ===================================================================== *)
(** * Numbered stop markers *)
(* ===================================================================== *)

Section StopMarkers.
Context `{MapEngine}.

Lemma filter_numbered_stop_events (color : option string) (stop : JSValue) (j : nat) :
  List.filter is_numbered (stop_events color stop j) = numbered_marker color stop j.
Proof.
  unfold stop_events, numbered_marker. destruct (valid_location _); [|done].
  simpl. by rewrite pretty_nat_not_School.
Qed.

Lemma filter_numbered_route_events (route : JSValue) (index : nat) :
  List.filter is_numbered (route_events route index)
  = indexed_events (numbered_marker (getRouteColor index)) 0 (stops_of route).
Proof.
  unfold route_events. simpl. rewrite List.filter_app, filter_indexed_events.
  replace (List.filter is_numbered _) with (@nil Event).
  - rewrite app_nil_r. apply indexed_events_ext. intros stop j _.
    apply filter_numbered_stop_events.
  - simpl. unfold directions_event. by destruct (directions_coordinates _ _).
Qed.

Lemma filter_numbered_home_events (locations : list JSValue) :
  List.filter is_numbered (home_events locations) = [].
Proof. induction locations; [done|]. by simpl. Qed.

Lemma filter_numbered_render_events (routes : list JSValue) :
  List.filter is_numbered (render_events routes) = numbered_markers routes.
Proof.
  unfold render_events, numbered_markers.
  rewrite List.filter_app, filter_numbered_home_events, filter_indexed_events. simpl.
  apply indexed_events_ext. intros route index _. apply filter_numbered_route_events.
Qed.

Lemma length_numbered_marker (color : option string) (i : nat) (stops : list JSValue) :
  length (indexed_events (numbered_marker color) i stops)
  = length (List.filter (λ stop, valid_location (location_of stop)) stops).
Proof.
  revert i. induction stops as [|s stops IH]; intros i; [done|]. simpl.
  rewrite length_app, IH. unfold numbered_marker. by destruct (valid_location _).
Qed.

Lemma length_numbered_markers (routes : list JSValue) :
  length (numbered_markers routes) = valid_stop_count routes.
Proof.
  unfold numbered_markers, valid_stop_count.
  generalize 0 at 2.
  induction routes as [|r routes IH]; intros i; [done|]. simpl.
  by rewrite length_app, IH, length_numbered_marker.
Qed.

Lemma invalid_logged_stop_events (color : option string) (stop : JSValue) (j : nat) :
  invalid_logged (stop_events color stop j)
  = if valid_location (location_of stop) then [] else [stop].
Proof. unfold stop_events. by destruct (valid_location _). Qed.

Lemma invalid_logged_route_events (route : JSValue) (index : nat) :
  invalid_logged (route_events route index)
  = List.filter (λ stop, negb (valid_location (location_of stop))) (stops_of route).
Proof.
  unfold route_events, invalid_logged. simpl. rewrite omap_app.
  replace (omap _ [_; _; _]) with (@nil JSValue).
  - rewrite app_nil_r. generalize 0.
    induction (stops_of route) as [|s l IH]; intros i; [done|]. simpl.
    rewrite omap_app, IH. fold (invalid_logged (stop_events (getRouteColor index) s i)).
    rewrite invalid_logged_stop_events. by destruct (valid_location _).
  - simpl. unfold directions_event. by destruct (directions_coordinates _ _).
Qed.

Lemma invalid_logged_render_events (routes : list JSValue) :
  invalid_logged (render_events routes) = invalid_stops routes.
Proof.
  unfold render_events, invalid_logged. rewrite omap_app.
  replace (omap _ (home_events _)) with (@nil JSValue).
  - simpl. apply omap_indexed_events. intros route index.
    apply invalid_logged_route_events.
  - unfold home_events. induction (all_locations routes); [done|]. by simpl.
Qed.

Lemma elem_of_numbered_markers (routes : list JSValue) (e : Event) :
  e ∈ numbered_markers routes ↔
  ∃ i route j stop,
    routes !! i = Some route ∧ stops_of route !! j = Some stop
    ∧ valid_location (location_of stop) = true
    ∧ e = EStopMarker (location_of stop) (pretty (j + 1)) (getRouteColor i)
                      (field stop "requires_walk") (field stop "student_name").
Proof.
  unfold numbered_markers. rewrite elem_of_indexed_events. split.
  - intros (i & route & Hi & (j & stop & Hj & He)%elem_of_indexed_events).
    exists i, route, j, stop. unfold numbered_marker in He.
    destruct (valid_location _); [|by apply elem_of_nil in He].
    apply list_elem_of_singleton in He. done.
  - intros (i & route & j & stop & Hi & Hj & Hv & ->).
    exists i, route. split; [done|]. apply elem_of_indexed_events.
    exists j, stop. split; [done|]. unfold numbered_marker. rewrite Hv.
    by apply list_elem_of_singleton.
Qed.

(** C4, as the code has it.  In a load that completes, the numbered stop
    markers are, route after route and stop after stop, one marker per stop
    whose location passes the loader's own test (an array of length 2 whose
    two entries do not convert to NaN), labelled with the stop's 1-based
    position in its route; a stop failing that test gets no marker, is
    reported on the console, and the stops after it are treated the same
    way; so the number of numbered markers is the number of stops passing the
    test, and a numbered marker never sits on a location failing it. *)
Theorem numbered_markers_placed (data : JSValue) :
  completed (Json data) = true →
  List.filter is_numbered (fetchRoutesData (Json data)) = numbered_markers (routes_of data)
  ∧ length (numbered_markers (routes_of data)) = valid_stop_count (routes_of data)
  ∧ invalid_logged (fetchRoutesData (Json data)) = invalid_stops (routes_of data)
  ∧ (∀ i route j stop,
       routes_of data !! i = Some route → stops_of route !! j = Some stop →
       if valid_location (location_of stop)
       then EStopMarker (location_of stop) (pretty (j + 1)) (getRouteColor i)
              (field stop "requires_walk") (field stop "student_name")
            ∈ fetchRoutesData (Json data)
       else stop ∈ invalid_logged (fetchRoutesData (Json data)))
  ∧ (∀ c l color w n,
       EStopMarker c l color w n ∈ fetchRoutesData (Json data) → l ≠ "School" →
       valid_location c = true).
Proof.
  intros (d & [= <-] & Hok & Hread & Hacc & Hfit & Hrun)%load_completed.
  assert (List.filter is_numbered (fetchRoutesData (Json data))
          = numbered_markers (routes_of data)) as Hnum.
  { rewrite Hrun, !List.filter_app, filter_numbered_render_events. simpl.
    by rewrite app_nil_r. }
  assert (invalid_logged (fetchRoutesData (Json data)) = invalid_stops (routes_of data))
    as Hlog.
  { rewrite Hrun. unfold invalid_logged. rewrite !omap_app.
    fold (invalid_logged (render_events (routes_of data))).
    rewrite invalid_logged_render_events. simpl. by rewrite app_nil_r. }
  split_and!; [done|apply length_numbered_markers|done| |].
  - intros i route j stop Hi Hj. destruct (valid_location _) eqn:Hv.
    + assert (EStopMarker (location_of stop) (pretty (j + 1)) (getRouteColor i)
                (field stop "requires_walk") (field stop "student_name")
              ∈ List.filter is_numbered (fetchRoutesData (Json data))) as Hin.
      { rewrite Hnum. apply elem_of_numbered_markers. by exists i, route, j, stop. }
      apply list_elem_of_In, List.filter_In in Hin as [Hin _].
      by apply list_elem_of_In.
    + rewrite Hlog. unfold invalid_stops. apply elem_of_flat_map.
      exists route. split; [by eapply list_elem_of_lookup_2|].
      apply list_elem_of_In, List.filter_In. split.
      * apply list_elem_of_In. by eapply list_elem_of_lookup_2.
      * by rewrite Hv.
  - intros c l color w n Hin Hl.
    assert (EStopMarker c l color w n ∈ numbered_markers (routes_of data)) as Hm.
    { rewrite <-Hnum. apply list_elem_of_In, List.filter_In. split.
      - by apply list_elem_of_In.
      - simpl. apply negb_true_iff. by apply String.eqb_neq. }
    apply elem_of_numbered_markers in Hm as (i & route & j & stop & _ & _ & Hv & [= -> _ _ _ _]).
    done.
Qed.

End StopMarkers.

Lemma numbered_markers_placed_witness :
  @completed Engines.permissive (Json (Sample.reply Sample.with_null)) = true
  ∧ List.filter is_numbered
      (@fetchRoutesData Engines.permissive (Json (Sample.reply Sample.with_null)))
    = numbered_markers (routes_of (Sample.reply Sample.with_null))
  ∧ length (numbered_markers (routes_of (Sample.reply Sample.with_null))) = 2
  ∧ length (invalid_logged
      (@fetchRoutesData Engines.permissive (Json (Sample.reply Sample.with_null)))) = 1.
Proof.
  pose proof (@numbered_markers_placed Engines.permissive
                (Sample.reply Sample.with_null) eq_refl) as (Hnum & Hlen & Hlog & _).
  split; [reflexivity|]. split; [exact Hnum|]. split; [reflexivity|].
  rewrite Hlog. reflexivity.
Defined.

(** C4, as worded, fails: a stop whose longitude is infinite is not a pair
    of finite numbers, yet it passes the loader's test and gets its numbered
    marker. *)
Lemma numbered_marker_not_finite :
  @completed Engines.checking (Json (Sample.reply Sample.with_infinity)) = true
  ∧ List.filter is_numbered
      (@fetchRoutesData Engines.checking (Json (Sample.reply Sample.with_infinity)))
    = [EStopMarker Sample.far_away "1" (Some "#FF0000") (JBool false) (JStr "s1")]
  ∧ finite_numeric_pair Sample.far_away = false.
Proof. by vm_compute. Qed.

(* ===================================================================== *)
(** * Coordinates handed to the engine unchecked *)
(* ===================================================================== *)

Section Unchecked.
Context `{MapEngine}.

Lemma forallb_elem_of {A} (p : A → bool) (l : list A) (x : A) :
  forallb p l = true → x ∈ l → p x = true.
Proof. rewrite forallb_forall. intros Hall Hx. by apply Hall, list_elem_of_In. Qed.

Lemma elem_of_home_events (e : Event) (locations : list JSValue) :
  e ∈ home_events locations ↔
  ∃ c, c ∈ locations ∧ (e = EHomeMarker c ∨ e = EBoundsExtend c).
Proof.
  unfold home_events. rewrite elem_of_flat_map. split.
  - intros (c & Hc & He). exists c. split; [done|].
    apply elem_of_cons in He as [->|He]; [by left|].
    apply list_elem_of_singleton in He as ->. by right.
  - intros (c & Hc & [-> | ->]); exists c; (split; [done|]).
    + apply list_elem_of_here.
    + apply list_elem_of_further, list_elem_of_here.
Qed.

Lemma elem_of_extends_of (c : JSValue) (events : list Event) :
  c ∈ extends_of events ↔ EBoundsExtend c ∈ events.
Proof.
  unfold extends_of. rewrite list_elem_of_omap. split.
  - intros (e & He & Hc). destruct e; try done. by injection Hc as ->.
  - intros He. by exists (EBoundsExtend c).
Qed.

Lemma elem_of_all_locations (routes : list JSValue) (route stop : JSValue) :
  route ∈ routes → stop ∈ stops_of route → location_of stop ∈ all_locations routes.
Proof.
  intros Hr Hs. unfold all_locations. apply elem_of_flat_map.
  exists route. split; [done|]. by apply (list_elem_of_fmap_2 location_of).
Qed.

(** A home marker for every stop of the payload is among the rendering
    events. *)
Lemma home_marker_in_render_events (routes : list JSValue) (route stop : JSValue) :
  route ∈ routes → stop ∈ stops_of route →
  EHomeMarker (location_of stop) ∈ home_events (all_locations routes).
Proof.
  intros Hr Hs. apply elem_of_home_events. exists (location_of stop).
  split; [by eapply elem_of_all_locations|by left].
Qed.

Lemma home_events_no_route_event (locations : list JSValue) :
  forallb (λ e, negb (is_route_event e)) (home_events locations) = true.
Proof. induction locations; [done|]. by simpl. Qed.

(** C5, where the code departs from it.  Take a reply that passes the payload
    test and can be read, and a stop whose location the engine refuses for a
    marker.  That location is handed to the engine as a home marker before
    any stop is validated, so the load does not complete: only some of the
    home markers that precede it are placed, no driver, stop or school marker
    follows, no directions are requested, the map is not fitted, and the
    load ends in the alert. *)
Theorem refused_location_aborts (data route stop : JSValue) :
  payload_ok data = Returned true →
  forallb readable_route (routes_of data) = true →
  route ∈ routes_of data →
  stop ∈ stops_of route →
  marker_accepts (location_of stop) = false →
  completed (Json data) = false
  ∧ ∃ evs e,
      fetchRoutesData (Json data) =
      header data (routes_of data) ++ evs
      ++ [EConsoleErrorExn "Error fetching routes:" e; EAlert e]
      ∧ evs `prefix_of` home_events (all_locations (routes_of data))
      ∧ (EHomeMarker (location_of stop) ∉ evs)
      ∧ forallb (λ e, negb (is_route_event e)) (fetchRoutesData (Json data)) = true.
Proof.
  intros Hok Hread Hroute Hstop Hrefused.
  pose proof (home_marker_in_render_events _ _ _ Hroute Hstop) as Hhome.
  destruct (load_readable data Hok Hread) as (evs & Hp & Hacc & Hcase).
  assert (EHomeMarker (location_of stop) ∉ evs) as Hnot.
  { intros Hin. apply (forallb_elem_of _ _ _ Hacc) in Hin. simpl in Hin. congruence. }
  destruct Hcase as [(_ & -> & _)|(Hdone & e & Hrun)].
  { exfalso. apply Hnot. unfold render_events. apply elem_of_app. by left. }
  split; [done|]. exists evs, e.
  pose proof (prefix_app_not_elem_of _ _ _ _ Hp Hhome Hnot) as Hpre.
  split_and!; try done.
  rewrite Hrun, !forallb_app. simpl.
  rewrite andb_true_r. eapply forallb_prefix; [exact Hpre|].
  apply home_events_no_route_event.
Qed.






End Unchecked.

Lemma refused_location_aborts_witness :
  let data := Sample.reply Sample.with_null in
  let route := Sample.route "Ann" [Sample.stop 1 "s1" (Sample.point 30 (-2)) false;
                                   Sample.stop 2 "s2" JNull false;
                                   Sample.stop 3 "s3" (Sample.point 30.25 (-1.75)) false]
                            30.125 (-1.875) in
  let stop := Sample.stop 2 "s2" JNull false in
  payload_ok data = Returned true
  ∧ forallb readable_route (routes_of data) = true
  ∧ route ∈ routes_of data
  ∧ stop ∈ stops_of route
  ∧ @marker_accepts Engines.checking (location_of stop) = false
  ∧ @completed Engines.checking (Json data) = false
  ∧ List.filter is_numbered (@fetchRoutesData Engines.checking (Json data)) = [].
Proof.
  intros data route stop.
  assert (route ∈ routes_of data) as Hroute by apply list_elem_of_here.
  assert (stop ∈ stops_of route) as Hstop
    by apply list_elem_of_further, list_elem_of_here.
  pose proof (@refused_location_aborts Engines.checking data route stop
                eq_refl eq_refl Hroute Hstop eq_refl) as [Hdone _].
  split_and!; try done.
Defined.

(* ===================================================================== *)
(** * Home markers *)
(* ===================================================================== *)

Section HomeMarkers.
Context `{MapEngine}.

Lemma filter_home_home_events (locations : list JSValue) :
  List.filter is_home (home_events locations) = map EHomeMarker locations.
Proof. induction locations as [|c l IH]; [done|]. simpl. by rewrite IH. Qed.

Lemma filter_home_route_events (route : JSValue) (index : nat) :
  List.filter is_home (route_events route index) = [].
Proof.
  unfold route_events. simpl. rewrite List.filter_app.
  replace (List.filter is_home [_; _; _]) with (@nil Event).
  - rewrite app_nil_r, filter_indexed_events. apply indexed_events_nil.
    intros stop j _. unfold stop_events. by destruct (valid_location _).
  - simpl. unfold directions_event. by destruct (directions_coordinates _ _).
Qed.

Lemma filter_home_render_events (routes : list JSValue) :
  List.filter is_home (render_events routes) = map EHomeMarker (all_locations routes).
Proof.
  unfold render_events.
  rewrite List.filter_app, filter_home_home_events, filter_indexed_events.
  rewrite indexed_events_nil; [by rewrite app_nil_r|].
  intros route index _. apply filter_home_route_events.
Qed.

Lemma invalid_report_in_route_events (routes : list JSValue) (route stop : JSValue) :
  route ∈ routes → stop ∈ stops_of route →
  valid_location (location_of stop) = false →
  EConsoleError "Invalid coordinates for stop:" stop ∈ indexed_events route_events 0 routes.
Proof.
  intros (i & Hi)%list_elem_of_lookup_1 (j & Hj)%list_elem_of_lookup_1 Hv.
  apply elem_of_indexed_events. exists i, route. split; [done|].
  unfold route_events. apply elem_of_app. right. apply elem_of_app. left.
  apply elem_of_indexed_events. exists j, stop. split; [done|].
  unfold stop_events. rewrite Hv. apply list_elem_of_here.
Qed.

(** C10.  In a load that completes, the events are: the header, then one
    home marker and one bounds extension for every stop location of the
    payload in payload order, whatever the location is, then the per-route
    events, then [fitBounds]; nothing of the per-route pass, in particular
    no validation, happens before the last home marker.  So a stop whose
    location fails the validation has its home marker, drawn in [#888], and
    its raw location among the bounds handed to [fitBounds], and is reported
    as invalid only in the per-route pass. *)
Theorem home_markers_unvalidated (data : JSValue) :
  completed (Json data) = true →
  fetchRoutesData (Json data) =
    header data (routes_of data)
    ++ home_events (all_locations (routes_of data))
    ++ indexed_events route_events 0 (routes_of data)
    ++ [EFitBounds (extends_of (render_events (routes_of data))) 20 15]
  ∧ List.filter is_home (fetchRoutesData (Json data))
    = map EHomeMarker (all_locations (routes_of data))
  ∧ forallb (λ e, negb (is_route_event e))
      (header data (routes_of data) ++ home_events (all_locations (routes_of data))) = true
  ∧ (∀ route stop,
       route ∈ routes_of data → stop ∈ stops_of route →
       valid_location (location_of stop) = false →
       EHomeMarker (location_of stop) ∈ home_events (all_locations (routes_of data))
       ∧ marker_background (EHomeMarker (location_of stop)) = Some "#888"
       ∧ EBoundsExtend (location_of stop) ∈ home_events (all_locations (routes_of data))
       ∧ location_of stop ∈ extends_of (render_events (routes_of data))
       ∧ EConsoleError "Invalid coordinates for stop:" stop
         ∈ indexed_events route_events 0 (routes_of data)).
Proof.
  intros (d & [= <-] & _ & _ & _ & _ & Hrun)%load_completed.
  split_and!.
  - rewrite Hrun. unfold render_events. by rewrite <-!app_assoc.
  - rewrite Hrun, !List.filter_app, filter_home_render_events. simpl.
    by rewrite app_nil_r.
  - rewrite forallb_app, home_events_no_route_event. done.
  - intros route stop Hroute Hstop Hv.
    assert (EBoundsExtend (location_of stop)
            ∈ home_events (all_locations (routes_of data))) as Hext.
    { apply elem_of_home_events. exists (location_of stop).
      split; [by eapply elem_of_all_locations|by right]. }
    split_and!; try done.
    + by apply (home_marker_in_render_events _ route).
    + apply elem_of_extends_of. unfold render_events. apply elem_of_app. by left.
    + by apply (invalid_report_in_route_events _ route).
Qed.

End HomeMarkers.

Lemma home_markers_unvalidated_witness :
  let data := Sample.reply Sample.with_null in
  @completed Engines.permissive (Json data) = true
  ∧ List.filter is_home (@fetchRoutesData Engines.permissive (Json data))
    = [EHomeMarker (Sample.point 30 (-2)); EHomeMarker JNull;
       EHomeMarker (Sample.point 30.25 (-1.75))]
  ∧ JNull ∈ extends_of (render_events (routes_of data)).
Proof.
  intros data.
  pose proof (@home_markers_unvalidated Engines.permissive data eq_refl)
    as (_ & Hhome & _ & Hstop).
  split; [reflexivity|]. split; [exact Hhome|].
  apply (Hstop (Sample.route "Ann" [Sample.stop 1 "s1" (Sample.point 30 (-2)) false;
                                     Sample.stop 2 "s2" JNull false;
                                     Sample.stop 3 "s3" (Sample.point 30.25 (-1.75)) false]
                             30.125 (-1.875))
               (Sample.stop 2 "s2" JNull false)).
  - apply list_elem_of_here.
  - apply list_elem_of_further, list_elem_of_here.
  - reflexivity.
Defined.

(* ===================================================================== *)
(** * Fitting the map *)
(* ===================================================================== *)

Section Fit.
Context `{MapEngine}.







End Fit.



(* ===================================================================== *)
(** * Runs of selections *)
(* ===================================================================== *)

Section Selections.
Context `{MapEngine}.



(** A failed or empty directions lookup only writes to the console: the
    style is as before. *)
Lemma resume_without_line (response : Response) (routeIndex : nat)
    (routeColor : option string) (s : MapStyle) :
  (∀ coordinates, directions_line response ≠ Returned (Line coordinates)) →
  ∃ report,
    fetchRouteDirections_resume response routeIndex routeColor s = (s, [report]).
Proof.
  intros Hno. unfold fetchRouteDirections_resume.
  destruct (directions_line response) as [[data|coordinates]|e]; [by eexists| |by eexists].
  by destruct (Hno coordinates).
Qed.

Lemma clicks_preserve (ks : list nat) (v : View) :
  routes (clicks ks v) = routes v ∧ ∀ i, has_layer (clicks ks v) i = has_layer v i.
Proof.
  revert v. induction ks as [|k ks IH]; intros v; [done|].
  unfold clicks in *. simpl. destruct (IH (handleRouteClick k v)) as [Hr Hl].
  split; [by rewrite Hr|]. intros i. by rewrite Hl, click_has_layer.
Qed.

End Selections.

Lemma handleRouteClick_visibility_witness :
  let events := @fetchRoutesData Engines.checking (Json (Sample.reply Sample.two_routes)) in
  let v := @loaded_view Engines.checking (routes_set initial_state events)
             (λ _, Json Sample.line_reply) (pending events) in
  1 < length (routes v)
  ∧ has_layer v 1 = true
  ∧ ∀ i, i < length (routes v) → is_visible (handleRouteClick 1 v) i = true ↔ i = 1.
Proof.
  intros events v.
  pose proof (handleRouteClick_visibility 1 v) as (_ & _ & _ & _ & _ & Hone).
  assert (1 < length (routes v)) as Hk by (vm_compute; lia).
  assert (has_layer v 1 = true) as Hl by (by vm_compute).
  split; [exact Hk|]. split; [exact Hl|]. exact (Hone Hk Hl).
Defined.

(* ===================================================================== *)
(** * An engine that never refuses *)
(* ===================================================================== *)

Section Accepting.
Context `{MapEngine}.
Hypothesis markers_accepted : ∀ c, marker_accepts c = true.
Hypothesis bounds_accepted : ∀ c, bounds_accepts c = true.
Hypothesis fit_accepted : ∀ b, fit_accepts b = true.

Local Open Scope load_scope.

Lemma returns_ret {A} (a : A) : returns (ret a).
Proof. intros st. by exists a. Qed.

Lemma returns_emit (e : Event) : returns (emit e).
Proof. intros st. by exists tt. Qed.

Lemma returns_bind {A B} (m : M A) (k : A → M B) :
  returns m → (∀ a, returns (k a)) → returns (bind m k).
Proof.
  intros Hm Hk st. destruct (Hm st) as [a Ha]. unfold bind.
  destruct (m st) as [st' o]. simpl in Ha. subst o. apply Hk.
Qed.

Lemma returns_lift_bind {A B} (a : A) (o : Outcome A) (k : A → M B) :
  o = Returned a → returns (k a) → returns (bind (lift o) k).
Proof. intros -> Hk st. apply Hk. Qed.

Lemma returns_forEach_from {A} (f : A → nat → M unit) (p : A → bool) (l : list A)
    (i : nat) :
  (∀ x j, p x = true → returns (f x j)) → forallb p l = true →
  returns (forEach_from f i l).
Proof.
  intros Hf. revert i. induction l as [|x l IH]; intros i; simpl.
  - intros _. apply returns_ret.
  - intros [Hx Hl]%andb_true_iff. apply returns_bind; [by apply Hf|].
    intros _. by apply IH.
Qed.

Lemma returns_place_marker (c : JSValue) (e : Event) : returns (place_marker c e).
Proof using markers_accepted.
  unfold place_marker. rewrite markers_accepted. apply returns_emit.
Qed.

Lemma returns_extend (c : JSValue) : returns (extend c).
Proof using bounds_accepted.
  unfold extend. rewrite bounds_accepted. intros st. by exists tt.
Qed.

Lemma returns_fitBounds : returns fitBounds.
Proof using fit_accepted.
  intros st. unfold fitBounds, bind, read_bounds. simpl.
  rewrite fit_accepted. by exists tt.
Qed.

(** [fetchRouteDirections] never throws to its caller, whatever the engine
    and the coordinates. *)
Lemma returns_fetchRouteDirections (stops : list JSValue) (finalDestination : JSValue)
    (routeIndex : nat) (routeColor : option string) :
  returns (fetchRouteDirections stops finalDestination routeIndex routeColor).
Proof.
  unfold fetchRouteDirections.
  destruct (directions_coordinates _ _); apply returns_emit.
Qed.

Lemma returns_render_stop (routeColor : option string) (stop : JSValue) (stopIndex : nat) :
  readable_stop stop = true → returns (render_stop routeColor stop stopIndex).
Proof using markers_accepted bounds_accepted.
  intros Hstop. unfold render_stop.
  eapply returns_lift_bind; [by apply get_readable|].
  destruct (valid_location _); [|apply returns_emit].
  eapply returns_lift_bind; [by apply get_readable|].
  eapply returns_lift_bind; [by apply get_readable|].
  apply returns_bind; [apply returns_place_marker|].
  intros _. apply returns_extend.
Qed.

Lemma returns_render_route (route : JSValue) (index : nat) :
  readable_route route = true → has_destination route = true →
  returns (render_route route index).
Proof using markers_accepted bounds_accepted.
  intros (Hstops & Hall & Hroute)%readable_route_stops Hfd.
  unfold render_route, has_destination in *.
  eapply returns_lift_bind; [by apply get_readable|]. rewrite Hstops.
  eapply returns_lift_bind; [reflexivity|].
  eapply returns_lift_bind; [by apply mapO_get_readable|].
  eapply returns_lift_bind; [by apply get_readable|].
  eapply returns_lift_bind; [by apply get_readable|].
  eapply returns_lift_bind; [by apply get_readable|].
  apply returns_bind; [apply returns_place_marker|]. intros _.
  apply returns_bind.
  { apply (returns_forEach_from _ readable_stop); [|done].
    intros stop j Hs. by apply returns_render_stop. }
  intros _. apply returns_bind; [apply returns_place_marker|]. intros _.
  apply returns_bind; [apply returns_extend|]. intros _.
  apply returns_fetchRouteDirections.
Qed.

(** With an engine that never refuses, a reply that passes the payload test,
    can be read and gives every route a final destination is loaded to the
    end, whatever its stop locations are. *)
Lemma accepting_engine_completes (data : JSValue) :
  payload_ok data = Returned true →
  forallb readable_route (routes_of data) = true →
  forallb has_destination (routes_of data) = true →
  completed (Json data) = true.
Proof using markers_accepted bounds_accepted fit_accepted.
  intros Hok Hread Hdest.
  unfold completed, run_load. rewrite try_unfold. simpl.
  rewrite Hok, (payload_ok_get_data _ Hok), (collect_routes_readable _ _ Hread). simpl.
  match goal with |- context [bind ?m ?k ?st] =>
    assert (returns (bind m k)) as Hret; [|by destruct (Hret st) as [[] ->]] end.
  apply returns_bind; [|intros _; apply returns_fitBounds].
  apply returns_bind.
  { apply (returns_forEach_from _ (λ _, true)); [|by apply forallb_forall].
    intros c j _. apply returns_bind; [apply returns_place_marker|].
    intros _. apply returns_extend. }
  intros _.
  apply (returns_forEach_from _ (λ r, readable_route r && has_destination r)).
  { intros r j [Hr Hd]%andb_true_iff. by apply returns_render_route. }
  revert Hread Hdest. induction (routes_of data) as [|r l IH]; [done|]. simpl.
  intros [Hr Hl]%andb_true_iff [Hd Hdl]%andb_true_iff.
  destruct (respread_readable r Hr) as [-> ->]. rewrite Hd. simpl. by apply IH.
Qed.

End Accepting.

(* ===================================================================== *)
(** * An engine that accepts what the payload calls for *)
(* ===================================================================== *)

Section Finishing.
Context `{MapEngine}.

Local Open Scope load_scope.










End Finishing.

(* ===================================================================== *)
(** * Driver markers *)
(* ===================================================================== *)

Section DriverMarkers.
Context `{MapEngine}.


End DriverMarkers.


(* ===================================================================== *)
(** * More on the loader *)
(* ===================================================================== *)

Section LoaderEdges.
Context `{MapEngine}.

Local Open Scope load_scope.

Lemma get_Threw (v : JSValue) (k : string) (e : Exn) :
  get v k = Threw e → is_type_error e = true.
Proof. destruct v; simpl; intros [= <-]; done. Qed.

Lemma mapO_get_Threw (k : string) (l : list JSValue) (e : Exn) :
  mapO (λ stop, get stop k) l = Threw e → is_type_error e = true.
Proof.
  induction l as [|x l IH]; [done|]. simpl.
  destruct (get x k) as [a|e'] eqn:Hx; simpl.
  - destruct (mapO _ l) as [ys|e']; [done|]. simpl. intros [= <-]. by apply IH.
  - intros [= <-]. by eapply get_Threw.
Qed.

Lemma filterO_flag_Threw (l : list JSValue) (e : Exn) :
  filterO (λ stop, obind (get stop "requires_walk") (λ w, Returned (truthy w))) l
  = Threw e → is_type_error e = true.
Proof.
  induction l as [|x l IH]; [done|]. simpl.
  destruct (get x _) as [a|e'] eqn:Hx; simpl.
  - destruct (filterO _ l) as [ys|e']; [done|]. simpl. intros [= <-]. by apply IH.
  - intros [= <-]. by eapply get_Threw.
Qed.

Lemma collect_route_Threw (route : JSValue) (acc : Derived) (e : Exn) :
  collect_route route acc = Threw e → is_type_error e = true.
Proof.
  unfold collect_route.
  destruct (get route "stops") as [v|e'] eqn:Hget; simpl;
    [|intros [= <-]; by eapply get_Threw].
  destruct (array_method v "filter") as [l|e'] eqn:Harr; simpl.
  2:{ intros [= <-]. by destruct v; simplify_eq/=. }
  destruct (filterO _ l) as [xs|e'] eqn:Hf; simpl;
    [|intros [= <-]; by eapply filterO_flag_Threw].
  destruct (mapO _ l) as [ys|e'] eqn:Hm; simpl; [done|].
  intros [= <-]. by eapply mapO_get_Threw.
Qed.

Lemma collect_routes_Threw (routes : list JSValue) (acc : Derived) (e : Exn) :
  collect_routes routes acc = Threw e → is_type_error e = true.
Proof.
  revert acc. induction routes as [|r routes IH]; intros acc; [done|]. simpl.
  destruct (collect_route r acc) as [x|e'] eqn:Hr; simpl;
    [|intros [= <-]; by eapply collect_route_Threw].
  destruct (collect_routes routes _) as [xs|e'] eqn:Hrs; simpl; [done|].
  intros [= <-]. by eapply IH.
Qed.

(** X1.  A reply that passes the payload test but has a route without an
    array of stops, or a stop that is [null], is not rendered at all: the
    load logs the reply, then ends with a TypeError in the console and in
    the alert, having set no state and placed nothing. *)
Theorem unreadable_payload_alerts (data : JSValue) :
  payload_ok data = Returned true →
  forallb readable_route (routes_of data) = false →
  completed (Json data) = false
  ∧ ∃ prop, fetchRoutesData (Json data) =
            [EFetch routes_url; EConsoleLog "API Response:" data;
             EConsoleErrorExn "Error fetching routes:" (TypeError prop);
             EAlert (TypeError prop)].
Proof.
  intros Hok Hread. unfold completed, fetchRoutesData, run_load.
  rewrite try_unfold. simpl.
  rewrite Hok, (payload_ok_get_data _ Hok).
  destruct (collect_routes _ _) as [r|e] eqn:Hc.
  - apply collect_routes_Returned in Hc. congruence.
  - apply collect_routes_Threw in Hc. destruct e; try done. split; [done|]. by eexists.
Qed.

(** X2.  For a reply that passes the payload test and can be read, typed or
    not: the load sets the three pieces of state once, right after logging;
    the routes it sets read, property by property, as the routes of the
    reply; the location list has one entry per stop; and the walk list keeps
    exactly the stops whose [requires_walk] is truthy, so a flag of [1] or
    ["yes"] counts as well as [true]. *)
Theorem derived_state_readable (data : JSValue) :
  payload_ok data = Returned true →
  forallb readable_route (routes_of data) = true →
  (∃ rest,
     fetchRoutesData (Json data) =
     [EFetch routes_url;
      EConsoleLog "API Response:" data;
      ESetRoutes (map respread (routes_of data));
      ESetStudentsRequiringWalk (flagged_stops (routes_of data));
      ESetAllStudentLocations (all_locations (routes_of data))] ++ rest
     ∧ forallb (λ e, negb (is_setter e)) rest = true)
  ∧ (∀ route k, route ∈ routes_of data → field (respread route) k = field route k)
  ∧ length (all_locations (routes_of data))
    = sum_list (map (λ route, length (stops_of route)) (routes_of data))
  ∧ (∀ stop, stop ∈ flagged_stops (routes_of data) ↔
       ∃ route, route ∈ routes_of data ∧ stop ∈ stops_of route
                ∧ truthy (field stop "requires_walk") = true).
Proof.
  intros Hok Hread. split_and!.
  - destruct (load_readable data Hok Hread) as (evs & Hp & _ & Hcase).
    pose proof (forallb_prefix _ _ _ Hp (render_events_no_setter _)) as Hevs.
    destruct Hcase as [(_ & _ & _ & ->)|(_ & e & ->)]; eexists; (split; [reflexivity|]).
    + rewrite forallb_app, render_events_no_setter. done.
    + rewrite forallb_app, Hevs. done.
  - intros route k Hroute. apply field_respread.
    by apply (forallb_elem_of _ _ _ Hread).
  - unfold all_locations. rewrite length_flat_map_sum. f_equal.
    apply map_ext. intros route. by rewrite length_map.
  - intros stop. unfold flagged_stops. rewrite elem_of_flat_map. split.
    + intros (route & Hroute & [Hs Hf]%list_elem_of_In%List.filter_In).
      exists route. by rewrite <-list_elem_of_In in Hs.
    + intros (route & Hroute & Hs & Hf). exists route. split; [done|].
      apply list_elem_of_In, List.filter_In. by rewrite <-list_elem_of_In.
Qed.

Lemma bind_Returned {A B} (m : M A) (k : A → M B) (st : LoadState) (b : B) :
  (bind m k st).2 = Returned b →
  ∃ a st', m st = (st', Returned a) ∧ (k a st').2 = Returned b.
Proof.
  unfold bind. destruct (m st) as [st' [a|e]]; [|done]. intros Hk. by exists a, st'.
Qed.

Lemma forEach_from_Returned {A} (f : A → nat → M unit) (l : list A) (i : nat)
    (st : LoadState) :
  (forEach_from f i l st).2 = Returned tt →
  ∀ j x, l !! j = Some x → ∃ st', (f x (i + j) st').2 = Returned tt.
Proof.
  revert i st. induction l as [|y l IH]; intros i st Hret j x Hj; [done|].
  simpl in Hret. apply bind_Returned in Hret as ([] & st' & Hy & Hrest).
  destruct j as [|j]; simpl in Hj.
  - injection Hj as ->. exists st. by rewrite Nat.add_0_r, Hy.
  - replace (i + S j) with (S i + j) by lia. by eapply IH.
Qed.

(** What [render_route] does with a route that lacks a final destination. *)
Lemma render_route_no_destination (route : JSValue) (index : nat) (st : LoadState) :
  readable_route route = true → has_destination route = false →
  render_route route index st = (st, Threw (TypeError "longitude")).
Proof.
  intros (Hstops & Hall & Hroute)%readable_route_stops Hfd.
  unfold render_route, has_destination in *.
  unfold bind at 1, lift at 1. rewrite (get_readable _ _ Hroute), Hstops. simpl.
  unfold bind at 1, lift at 1. rewrite (mapO_get_readable _ _ Hall).
  unfold bind at 1, lift at 1. rewrite (get_readable _ _ Hroute).
  unfold bind at 1, lift at 1.
  by destruct (field route "final_destination").
Qed.

(** X3.  A route without [final_destination] stops the load in the middle:
    the state has been set and markers may already be on the map, yet
    rendering that route throws before its driver marker, the map is never
    fitted and the load ends in the alert. *)
Theorem missing_destination_aborts (data route : JSValue) :
  payload_ok data = Returned true →
  forallb readable_route (routes_of data) = true →
  route ∈ routes_of data →
  has_destination route = false →
  (∀ index st, render_route route index st = (st, Threw (TypeError "longitude")))
  ∧ completed (Json data) = false
  ∧ ∃ evs e,
      fetchRoutesData (Json data) =
      header data (routes_of data) ++ evs
      ++ [EConsoleErrorExn "Error fetching routes:" e; EAlert e]
      ∧ evs `prefix_of` render_events (routes_of data)
      ∧ List.filter is_fit (fetchRoutesData (Json data)) = [].
Proof.
  intros Hok Hread Hroute Hdest.
  pose proof (forallb_elem_of _ _ _ Hread Hroute) as Hr.
  split; [intros index st; by apply render_route_no_destination|].
  assert (completed (Json data) = false) as Hnot.
  { destruct (completed (Json data)) eqn:Hdone; [exfalso|done].
    revert Hdone. unfold completed, run_load. rewrite try_unfold. simpl.
    rewrite Hok, (payload_ok_get_data _ Hok), (collect_routes_readable _ _ Hread). simpl.
    destruct (bind _ _ _) as [st [[]|e]] eqn:Hrun; [|done]. intros _.
    assert ((bind (render_pass (map respread (routes_of data))
                     (all_locations (routes_of data))) (λ _, fitBounds)
               {| trace := header data (routes_of data); bounds := [] |}).2
            = Returned tt) as Hret by (unfold header; by rewrite Hrun).
    apply bind_Returned in Hret as ([] & st1 & Hpass & _).
    assert ((render_pass (map respread (routes_of data)) (all_locations (routes_of data))
               {| trace := header data (routes_of data); bounds := [] |}).2 = Returned tt)
      as Hpass' by (by rewrite Hpass).
    unfold render_pass in Hpass'.
    apply bind_Returned in Hpass' as ([] & st2 & _ & Hroutes).
    apply list_elem_of_lookup_1 in Hroute as [j Hj].
    assert (map respread (routes_of data) !! j = Some (respread route)) as Hj'
      by (by rewrite list_lookup_fmap, Hj).
    destruct (forEach_from_Returned _ _ _ _ Hroutes j _ Hj') as [st' Hst'].
    destruct (respread_readable route Hr) as [Hr' Hd'].
    rewrite render_route_no_destination in Hst'; [done|done|by rewrite Hd']. }
  split; [done|].
  destruct (load_readable data Hok Hread) as (evs & Hp & _ & [(Hdone & _)|(_ & e & Hrun)]);
    [congruence|].
  exists evs, e. split_and!; try done.
  rewrite Hrun, !List.filter_app.
  by rewrite (filter_nil_prefix _ _ _ Hp (render_events_no_fit _)).
Qed.

End LoaderEdges.

Lemma unreadable_payload_alerts_witness :
  payload_ok (Sample.reply Sample.with_null_stop) = Returned true
  ∧ forallb readable_route (routes_of (Sample.reply Sample.with_null_stop)) = false
  ∧ @completed Engines.permissive (Json (Sample.reply Sample.with_null_stop)) = false
  ∧ ∃ prop, @fetchRoutesData Engines.permissive (Json (Sample.reply Sample.with_null_stop))
            = [EFetch routes_url;
               EConsoleLog "API Response:" (Sample.reply Sample.with_null_stop);
               EConsoleErrorExn "Error fetching routes:" (TypeError prop);
               EAlert (TypeError prop)].
Proof.
  split; [reflexivity|]. split; [reflexivity|].
  exact (@unreadable_payload_alerts Engines.permissive
           (Sample.reply Sample.with_null_stop) eq_refl eq_refl).
Defined.

Lemma derived_state_readable_witness :
  payload_ok (Sample.reply Sample.loosely_typed) = Returned true
  ∧ forallb readable_route (routes_of (Sample.reply Sample.loosely_typed)) = true
  ∧ length (flagged_stops (routes_of (Sample.reply Sample.loosely_typed))) = 1
  ∧ length (all_locations (routes_of (Sample.reply Sample.loosely_typed)))
    = sum_list (map (λ route, length (stops_of route))
                    (routes_of (Sample.reply Sample.loosely_typed))).
Proof.
  split; [reflexivity|]. split; [reflexivity|]. split; [reflexivity|].
  apply (@derived_state_readable Engines.permissive (Sample.reply Sample.loosely_typed));
    reflexivity.
Defined.

Lemma missing_destination_aborts_witness :
  let data := Sample.reply Sample.without_destination in
  let route := JObj [("driver_name", JStr "Bob");
                     ("stops", JArr [Sample.stop 2 "s2" (Sample.point 30.5 (-1.5)) true])] in
  payload_ok data = Returned true
  ∧ forallb readable_route (routes_of data) = true
  ∧ route ∈ routes_of data
  ∧ has_destination route = false
  ∧ @completed Engines.permissive (Json data) = false
  ∧ List.filter is_home (@fetchRoutesData Engines.permissive (Json data))
    = [EHomeMarker (Sample.point 30 (-2)); EHomeMarker (Sample.point 30.5 (-1.5))].
Proof.
  intros data route.
  assert (route ∈ routes_of data) as Hroute
    by apply list_elem_of_further, list_elem_of_here.
  pose proof (@missing_destination_aborts Engines.permissive data route
                eq_refl eq_refl Hroute eq_refl) as (_ & Hnot & _).
  split; [reflexivity|]. split; [reflexivity|]. split; [exact Hroute|].
  split; [reflexivity|]. split; [exact Hnot|]. vm_compute. exact eq_refl.
Defined.

(* ===================================================================== *)
(** * Requests and markers of a completed load *)
(* ===================================================================== *)

Section RequestsAndMarkers.
Context `{MapEngine}.

Lemma index_readable (v : JSValue) (i : nat) :
  readable_stop v = true → ∃ a, index v i = Returned a.
Proof. destruct v; try done; by eexists. Qed.

Lemma coordinate_text_spec (coord : JSValue) :
  (sendable coord = true ∧ coordinate_text coord = Returned coord)
  ∨ (sendable coord = false ∧ ∃ e, coordinate_text coord = Threw e).
Proof.
  unfold sendable, coordinate_text, elem, to_text.
  destruct (readable_stop coord) eqn:Hr.
  - destruct (index_readable _ 0 Hr) as [a ->], (index_readable _ 1 Hr) as [b ->]. simpl.
    destruct (has_text a); simpl; [|right; by eauto].
    destruct (has_text b); simpl; [by left|right; by eauto].
  - right. split; [done|]. destruct coord; try done; by eexists.
Qed.

Lemma directions_coordinates_spec (stops : list JSValue) (finalDestination : JSValue) :
  (forallb sendable (stops ++ [finalDestination]) = true
   ∧ directions_coordinates stops finalDestination = Returned (stops ++ [finalDestination]))
  ∨ (forallb sendable (stops ++ [finalDestination]) = false
     ∧ ∃ e, directions_coordinates stops finalDestination = Threw e).
Proof.
  unfold directions_coordinates.
  induction (stops ++ [finalDestination]) as [|x l IH]; [by left|]. simpl.
  destruct (coordinate_text_spec x) as [[-> ->]|[-> [e ->]]]; simpl; [|right; by eauto].
  destruct IH as [[-> ->]|[-> [e ->]]]; simpl; [by left|right; by eauto].
Qed.

Lemma directions_event_spec (route : JSValue) (index : nat) :
  List.filter is_request [directions_event route index] = request_event route index.
Proof.
  unfold directions_event, request_event, request_coordinates.
  by destruct (directions_coordinates_spec (map location_of (stops_of route))
                 (finalDestination_of route)) as [[-> ->]|[-> [e ->]]].
Qed.

Lemma filter_request_route_events (route : JSValue) (index : nat) :
  List.filter is_request (route_events route index) = request_event route index.
Proof.
  unfold route_events. simpl. rewrite List.filter_app, filter_indexed_events.
  rewrite indexed_events_nil.
  - simpl. apply directions_event_spec.
  - intros stop j _. unfold stop_events. by destruct (valid_location _).
Qed.

Lemma filter_request_render_events (routes : list JSValue) :
  List.filter is_request (render_events routes) = indexed_events request_event 0 routes.
Proof.
  unfold render_events. rewrite List.filter_app.
  replace (List.filter is_request (home_events _)) with (@nil Event).
  - simpl. rewrite filter_indexed_events. apply indexed_events_ext.
    intros route index _. apply filter_request_route_events.
  - unfold home_events. induction (all_locations routes); [done|]. by simpl.
Qed.

(** X4.  In a load that completes, the directions requests are, route after
    route: one request per route all of whose coordinates can be written
    into the URL, carrying every stop location in stop order followed by
    [longitude, latitude] of the final destination.  A location that fails
    the marker validation is sent along all the same.  A route with a stop
    whose location is [null] or missing, or with a coordinate whose entry
    [0] or [1] has no string form, sends no request. *)
Theorem directions_requests (data : JSValue) :
  completed (Json data) = true →
  List.filter is_request (fetchRoutesData (Json data))
  = indexed_events request_event 0 (routes_of data)
  ∧ (∀ i route,
       routes_of data !! i = Some route →
       if forallb sendable (request_coordinates route)
       then EDirectionsRequest i (getRouteColor i)
              (map location_of (stops_of route) ++ [finalDestination_of route])
            ∈ fetchRoutesData (Json data)
       else ∀ color coordinates,
              EDirectionsRequest i color coordinates ∉ fetchRoutesData (Json data))
  ∧ (∀ route stop,
       stop ∈ stops_of route →
       readable_stop (location_of stop) = false
       ∨ has_text (elem (location_of stop) 0) = false
       ∨ has_text (elem (location_of stop) 1) = false →
       forallb sendable (request_coordinates route) = false).
Proof.
  intros (d & [= <-] & _ & _ & _ & _ & Hrun)%load_completed.
  assert (List.filter is_request (fetchRoutesData (Json data))
          = indexed_events request_event 0 (routes_of data)) as Hreq.
  { rewrite Hrun, !List.filter_app, filter_request_render_events. simpl.
    by rewrite app_nil_r. }
  split; [done|]. split.
  - intros i route Hi.
    assert (∀ e, is_request e = true →
              e ∈ fetchRoutesData (Json data) ↔
              ∃ j r, routes_of data !! j = Some r ∧ e ∈ request_event r (0 + j)) as Hin.
    { intros e He. rewrite <-elem_of_indexed_events, <-Hreq.
      rewrite !list_elem_of_In, List.filter_In. split; [done|by intros [? _]]. }
    destruct (forallb sendable _) eqn:Hall.
    + apply Hin; [done|]. exists i, route. split; [done|].
      unfold request_event. rewrite Hall. apply list_elem_of_here.
    + intros color coordinates (j & r & Hj & He)%Hin; [|done].
      unfold request_event in He.
      destruct (forallb sendable (request_coordinates r)) eqn:Hall'.
      * apply list_elem_of_singleton in He. injection He as -> _ _.
        simpl in Hi. rewrite Hi in Hj. injection Hj as <-. congruence.
      * by apply elem_of_nil in He.
  - intros route stop Hstop Hbad.
    destruct (forallb sendable (request_coordinates route)) eqn:Hall; [|done].
    assert (sendable (location_of stop) = true) as Hs.
    { apply (forallb_elem_of _ _ _ Hall). unfold request_coordinates.
      apply elem_of_app. left. by apply (list_elem_of_fmap_2 location_of). }
    unfold sendable in Hs. apply andb_true_iff in Hs as [[Hr H0]%andb_true_iff H1].
    destruct Hbad as [?|[?|?]]; congruence.
Qed.

Lemma filter_school_route_events (route : JSValue) (index : nat) :
  List.filter is_school (route_events route index) = school_marker route index.
Proof.
  unfold route_events. simpl. rewrite List.filter_app, filter_indexed_events.
  rewrite indexed_events_nil.
  - simpl. unfold directions_event. by destruct (directions_coordinates _ _).
  - intros stop j _. unfold stop_events. destruct (valid_location _); [|done].
    simpl. by rewrite pretty_nat_not_School.
Qed.

(** X5.  In a load that completes, every route gets exactly one school
    marker, placed through [addStopMarker] at [longitude, latitude] of its
    final destination (in that order), in the route's colour and never
    outlined, whether or not the route has stops. *)
Theorem school_markers_placed (data : JSValue) :
  completed (Json data) = true →
  List.filter is_school (fetchRoutesData (Json data))
  = indexed_events school_marker 0 (routes_of data)
  ∧ length (List.filter is_school (fetchRoutesData (Json data)))
    = length (routes_of data)
  ∧ ∀ e, e ∈ List.filter is_school (fetchRoutesData (Json data)) →
      ∃ i route,
        routes_of data !! i = Some route
        ∧ marker_coordinate e
          = Some (JArr [field (field route "final_destination") "longitude";
                        field (field route "final_destination") "latitude"])
        ∧ marker_background e = getRouteColor i
        ∧ marker_outlined e = false.
Proof.
  intros (d & [= <-] & _ & _ & _ & _ & Hrun)%load_completed.
  assert (List.filter is_school (fetchRoutesData (Json data))
          = indexed_events school_marker 0 (routes_of data)) as Hschool.
  { rewrite Hrun, !List.filter_app. unfold render_events.
    rewrite List.filter_app, filter_indexed_events. simpl.
    replace (List.filter is_school (home_events _)) with (@nil Event).
    - rewrite app_nil_r. simpl. apply indexed_events_ext.
      intros route index _. apply filter_school_route_events.
    - unfold home_events. induction (all_locations (routes_of data)); [done|]. by simpl. }
  rewrite Hschool. split_and!; [done|by apply length_indexed_singletons|].
  intros e (i & route & Hi & He)%elem_of_indexed_events.
  apply list_elem_of_singleton in He as ->. by exists i, route.
Qed.

(** X6.  In a load that completes, every numbered stop marker belongs to a
    stop of the payload: it sits on that stop's location, carries the colour
    of the stop's route, which is one of the five palette colours, and is
    outlined exactly when the stop's [requires_walk] is truthy. *)
Theorem numbered_marker_style (data : JSValue) (e : Event) :
  completed (Json data) = true →
  e ∈ fetchRoutesData (Json data) →
  is_numbered e = true →
  ∃ i route j stop,
    routes_of data !! i = Some route
    ∧ stops_of route !! j = Some stop
    ∧ marker_coordinate e = Some (location_of stop)
    ∧ marker_background e = getRouteColor i
    ∧ marker_background e ∈ (Some <$> colors)
    ∧ marker_outlined e = flagged stop.
Proof.
  intros (d & [= <-] & _ & _ & _ & _ & Hrun)%load_completed Hin Hnum.
  assert (e ∈ numbered_markers (routes_of data)) as Hm.
  { rewrite <-filter_numbered_render_events.
    apply list_elem_of_In, List.filter_In. split; [|done].
    rewrite Hrun in Hin. apply list_elem_of_In.
    apply elem_of_app in Hin as [Hin|[Hin|Hin]%elem_of_app]; [|done|].
    - unfold header in Hin.
      repeat (apply elem_of_cons in Hin as [->|Hin]; [done|]).
      by apply elem_of_nil in Hin.
    - apply list_elem_of_singleton in Hin as ->. done. }
  apply elem_of_numbered_markers in Hm as (i & route & j & stop & Hi & Hj & _ & ->).
  exists i, route, j, stop. split_and!; try done.
  change (getRouteColor i ∈ (Some <$> colors)).
  destruct (getRouteColor_in_palette i) as [c Hc]. rewrite Hc.
  apply (list_elem_of_fmap_2 Some). unfold getRouteColor in Hc.
  by eapply list_elem_of_lookup_2.
Qed.

End RequestsAndMarkers.

Lemma directions_requests_witness :
  @completed Engines.permissive (Json (Sample.reply Sample.with_null)) = true
  ∧ @completed Engines.permissive (Json (Sample.reply Sample.with_unprintable)) = true
  ∧ List.filter is_request
      (@fetchRoutesData Engines.permissive (Json (Sample.reply Sample.with_null))) = []
  ∧ List.filter is_request
      (@fetchRoutesData Engines.permissive (Json (Sample.reply Sample.with_unprintable)))
    = [EDirectionsRequest 1 (Some "#0000FF")
         [Sample.point 29.5 (-2.5); Sample.point 30.125 (-1.875)]]
  ∧ List.filter is_request
      (@fetchRoutesData Engines.permissive (Json (Sample.reply Sample.loosely_typed)))
    = [EDirectionsRequest 0 (Some "#FF0000")
         [JStr "home"; Sample.point 30.125 (-1.875)]].
Proof.
  split; [reflexivity|]. split; [reflexivity|].
  destruct (@directions_requests Engines.permissive (Sample.reply Sample.with_null)
              eq_refl) as [-> _].
  destruct (@directions_requests Engines.permissive (Sample.reply Sample.with_unprintable)
              eq_refl) as [-> _].
  destruct (@directions_requests Engines.permissive (Sample.reply Sample.loosely_typed)
              eq_refl) as [-> _].
  split_and!; vm_compute; exact eq_refl.
Defined.

Lemma school_markers_placed_witness :
  @completed Engines.checking (Json (Sample.reply Sample.two_routes)) = true
  ∧ length (List.filter is_school
              (@fetchRoutesData Engines.checking (Json (Sample.reply Sample.two_routes))))
    = length (routes_of (Sample.reply Sample.two_routes)).
Proof.
  split; [reflexivity|].
  apply (@school_markers_placed Engines.checking (Sample.reply Sample.two_routes) eq_refl).
Defined.

Lemma numbered_marker_style_witness :
  let e := EStopMarker (Sample.point 30.5 (-1.5)) "2" (Some "#FF0000")
                       (JBool true) (JStr "s2") in
  @completed Engines.checking (Json (Sample.reply Sample.two_routes)) = true
  ∧ e ∈ @fetchRoutesData Engines.checking (Json (Sample.reply Sample.two_routes))
  ∧ is_numbered e = true
  ∧ ∃ i route j stop,
      routes_of (Sample.reply Sample.two_routes) !! i = Some route
      ∧ stops_of route !! j = Some stop
      ∧ marker_coordinate e = Some (location_of stop)
      ∧ marker_background e = getRouteColor i
      ∧ marker_background e ∈ (Some <$> colors)
      ∧ marker_outlined e = flagged stop.
Proof.
  intros e.
  assert (e ∈ @fetchRoutesData Engines.checking (Json (Sample.reply Sample.two_routes)))
    as Hin.
  { let t := eval vm_compute in
      (@fetchRoutesData Engines.checking (Json (Sample.reply Sample.two_routes))) in
    change (e ∈ t).
    repeat first [apply list_elem_of_here | apply list_elem_of_further]. }
  split; [reflexivity|]. split; [exact Hin|]. split; [reflexivity|].
  exact (@numbered_marker_style Engines.checking (Sample.reply Sample.two_routes) e
           eq_refl Hin eq_refl).
Defined.

(* ===================================================================== *)
(** * Drawing the lines *)
(* ===================================================================== *)

Section Lines.
Context `{MapEngine}.

Lemma source_id_inj (i j : nat) : source_id i = source_id j → i = j.
Proof.
  unfold source_id. intros Heq.
  apply (inj (String.app "route-")) in Heq.
  by apply (inj pretty) in Heq.
Qed.

(** X7.  What the end of [fetchRouteDirections] makes of a reply.  A reply
    object whose [routes] is missing, falsy or empty only logs "No routes
    found".  A reply whose first route has a geometry adds one source and one
    visible line layer of width 4 in the route's colour, named after the
    route index, and logs nothing, unless the engine refuses the line.  A
    first route that is [null] or has no geometry, a reply that is [null], a
    body that is not JSON and a failed call all end in the [catch]: one
    "Error fetching directions" entry.  In all cases but the line, the style
    is untouched. *)
Theorem directions_reply_cases (routeIndex : nat) (routeColor : option string)
    (s : MapStyle) :
  (∀ data,
     readable_stop data = true →
     truthy (field data "routes") = false ∨ length_is (field data "routes") 0 = true →
     fetchRouteDirections_resume (Json data) routeIndex routeColor s
     = (s, [EConsoleError "No routes found:" data]))
  ∧ (∀ data first rest,
       field data "routes" = JArr (first :: rest) →
       readable_stop first = true →
       readable_stop (field first "geometry") = true →
       fetchRouteDirections_resume (Json data) routeIndex routeColor s =
       let coordinates := field (field first "geometry") "coordinates" in
       if line_accepts coordinates then
         ({| sources := <[source_id routeIndex := coordinates]> (sources s);
             layers := <[layer_id routeIndex :=
                           {| layer_source := source_id routeIndex;
                              line_color := routeColor;
                              line_width := 4;
                              visibility := Visible |}]> (layers s) |}, [])
       else (s, [EConsoleErrorExn "Error fetching directions:" (MapError coordinates)]))
  ∧ (∀ data first rest,
       field data "routes" = JArr (first :: rest) →
       readable_stop first = false ∨ readable_stop (field first "geometry") = false →
       ∃ prop, fetchRouteDirections_resume (Json data) routeIndex routeColor s
               = (s, [EConsoleErrorExn "Error fetching directions:" (TypeError prop)]))
  ∧ (∀ response,
       response = NetworkFailure ∨ response = NotJson ∨ response = Json JNull →
       ∃ e, fetchRouteDirections_resume response routeIndex routeColor s
            = (s, [EConsoleErrorExn "Error fetching directions:" e])).
Proof.
  split_and!.
  - intros data Hdata Hnone. unfold fetchRouteDirections_resume, directions_line.
    simpl. rewrite (get_readable _ _ Hdata). simpl.
    destruct Hnone as [-> | ->]; [done|]. by rewrite orb_true_r.
  - intros data first rest Hroutes Hfirst Hgeom.
    assert (readable_stop data = true) as Hdata by (by destruct data).
    unfold fetchRouteDirections_resume, directions_line. simpl.
    rewrite (get_readable _ _ Hdata), Hroutes. simpl.
    rewrite (get_readable _ _ Hfirst). simpl.
    rewrite (get_readable _ _ Hgeom). simpl.
    unfold addLine. by destruct (line_accepts _).
  - intros data first rest Hroutes Hbad.
    assert (readable_stop data = true) as Hdata by (by destruct data).
    unfold fetchRouteDirections_resume, directions_line. simpl.
    rewrite (get_readable _ _ Hdata), Hroutes. simpl.
    destruct (readable_stop first) eqn:Hfirst.
    + destruct Hbad as [?|Hgeom]; [done|].
      rewrite (get_readable _ _ Hfirst). simpl.
      destruct (field first "geometry"); try done; by eexists.
    + destruct first; try done; by eexists.
  - intros response [->|[->| ->]]; by eexists.
Qed.

Lemma complete_eq (service : nat → Response) (s : MapStyle) (i : nat)
    (c : option string) :
  complete service s (i, c) =
  match directions_line (service i) with
  | Returned (Line coordinates) =>
    if line_accepts coordinates then
      {| sources := <[source_id i := coordinates]> (sources s);
         layers := <[layer_id i := {| layer_source := source_id i; line_color := c;
                                      line_width := 4; visibility := Visible |}]>
                     (layers s) |}
    else s
  | _ => s
  end.
Proof.
  unfold complete, fetchRouteDirections_resume. simpl.
  destruct (directions_line (service i)) as [[data|coordinates]|e]; try done.
  unfold addLine. by destruct (line_accepts coordinates).
Qed.

(** X8.  The directions replies of two different routes can arrive in either
    order: the resulting sources and layers are the same. *)
Theorem complete_commutes (service : nat → Response) (s : MapStyle)
    (i j : nat) (ci cj : option string) :
  i ≠ j →
  complete service (complete service s (i, ci)) (j, cj)
  = complete service (complete service s (j, cj)) (i, ci).
Proof.
  intros Hne. rewrite !complete_eq.
  destruct (directions_line (service i)) as [[di|csi]|ei];
    destruct (directions_line (service j)) as [[dj|csj]|ej]; try done.
  destruct (line_accepts csi), (line_accepts csj); try done. simpl.
  f_equal.
  - apply insert_insert_ne. intros Heq. by apply source_id_inj in Heq.
  - apply insert_insert_ne. intros Heq. by apply layer_id_inj in Heq.
Qed.

Lemma complete_layer_is_Some (service : nat → Response) (s : MapStyle)
    (i : nat) (c : option string) (id : string) :
  is_Some (layers (complete service s (i, c)) !! id) ↔
  is_Some (layers s !! id) ∨ (id = layer_id i ∧ draws (service i) = true).
Proof.
  rewrite complete_eq. unfold draws.
  destruct (directions_line (service i)) as [[data|coordinates]|e];
    try (split; [by left|by intros [?|[_ ?]]]).
  destruct (line_accepts coordinates); [|split; [by left|by intros [?|[_ ?]]]].
  simpl. rewrite lookup_insert_is_Some'. split.
  - intros [<-|?]; [by right|by left].
  - intros [?|[-> _]]; [by right|by left].
Qed.

Lemma foldl_complete_layer_is_Some (service : nat → Response)
    (requests : list (nat * option string)) (s : MapStyle) (id : string) :
  is_Some (layers (foldl (complete service) s requests) !! id) ↔
  is_Some (layers s !! id)
  ∨ ∃ i c, (i, c) ∈ requests ∧ id = layer_id i ∧ draws (service i) = true.
Proof.
  revert s. induction requests as [|[i c] requests IH]; intros s; simpl.
  - split; [by left|]. intros [?|(i & c & Hin & _)]; [done|].
    by apply elem_of_nil in Hin.
  - rewrite IH, complete_layer_is_Some. split.
    + intros [[?|[-> Hd]]|(i' & c' & Hin & -> & Hd)].
      * by left.
      * right. exists i, c. split; [apply list_elem_of_here|done].
      * right. exists i', c'. split; [by apply list_elem_of_further|done].
    + intros [?|(i' & c' & Hin & -> & Hd)]; [by left; left|].
      apply elem_of_cons in Hin as [[= -> ->]|Hin].
      * left. by right.
      * right. by exists i', c'.
Qed.

Lemma request_in_route_events (route : JSValue) (index i : nat)
    (c : option string) (cs : list JSValue) :
  EDirectionsRequest i c cs ∈ route_events route index → i = index.
Proof.
  intros Hin.
  assert (EDirectionsRequest i c cs ∈ List.filter is_request (route_events route index))
    as Hreq by (apply list_elem_of_In, List.filter_In; by rewrite <-list_elem_of_In).
  rewrite filter_request_route_events in Hreq. unfold request_event in Hreq.
  destruct (forallb sendable _); [|by apply elem_of_nil in Hreq].
  apply list_elem_of_singleton in Hreq. by injection Hreq.
Qed.

Lemma pending_elem_of (events : list Event) (i : nat) (c : option string) :
  (i, c) ∈ pending events ↔ ∃ cs, EDirectionsRequest i c cs ∈ events.
Proof.
  unfold pending. rewrite list_elem_of_omap. split.
  - intros (e & He & Heq). destruct e; try done. injection Heq as -> ->. by eexists.
  - intros [cs Hin]. by exists (EDirectionsRequest i c cs).
Qed.

Lemma state_after_app (s : State) (l1 l2 : list Event) :
  state_after s (l1 ++ l2) = state_after (state_after s l1) l2.
Proof. apply foldl_app. Qed.

Lemma state_after_no_setter (s : State) (events : list Event) :
  forallb (λ e, negb (is_setter e)) events = true → state_after s events = s.
Proof.
  unfold state_after. induction events as [|e events IH]; [done|]. simpl.
  intros [He Hl]%andb_true_iff.
  assert (set_state s e = s) as -> by (by destruct e). by apply IH.
Qed.

Lemma pending_no_request (events : list Event) :
  forallb (λ e, negb (is_request e)) events = true → pending events = [].
Proof.
  induction events as [|e events IH]; [done|]. simpl.
  intros [He Hl]%andb_true_iff. unfold pending in *. simpl.
  rewrite (IH Hl). by destruct e.
Qed.

(** A load that does not reach its setters leaves the state as it was and
    no request behind. *)
Lemma load_state_kept (response : Response) (before : State) :
  reaches_setters response = false →
  state_after before (fetchRoutesData response) = before
  ∧ pending (fetchRoutesData response) = [].
Proof.
  destruct response as [| |data]; unfold reaches_setters.
  - intros _. by rewrite load_network_failure.
  - intros _. by rewrite load_not_json.
  - destruct (payload_ok data) as [[|]|e] eqn:Hok.
    + intros Hread. by destruct (load_unreadable _ Hok Hread) as [e ->].
    + intros _. by rewrite (load_format_error _ Hok).
    + intros _. by rewrite (load_payload_throws _ _ Hok).
Qed.

(** A load that reaches its setters leaves the routes and the walk list of
    the reply; the active index is never touched. *)
Lemma load_state_set (response : Response) (before : State) :
  reaches_setters response = true →
  ∃ data, response = Json data
    ∧ payload_ok data = Returned true
    ∧ forallb readable_route (routes_of data) = true
    ∧ state_after before (fetchRoutesData response)
      = {| st_routes := map respread (routes_of data);
           st_active := st_active before;
           st_walk := flagged_stops (routes_of data) |}.
Proof.
  destruct response as [| |data]; try done. unfold reaches_setters.
  destruct (payload_ok data) as [[|]|e] eqn:Hok; try done. intros Hread.
  exists data. split_and!; try done.
  destruct (load_readable data Hok Hread) as (evs & Hp & _ & Hcase).
  assert (∃ evs' tail, evs' `prefix_of` render_events (routes_of data)
            ∧ fetchRoutesData (Json data) = header data (routes_of data) ++ evs' ++ tail
            ∧ forallb (λ e, negb (is_setter e)) tail = true)
    as (evs' & tail & Hp' & -> & Htail).
  { destruct Hcase as [(_ & -> & _ & ->)|(_ & e & ->)]; by eexists _, _. }
  rewrite state_after_app. rewrite state_after_no_setter; [done|].
  rewrite forallb_app, Htail, andb_true_r.
  eapply forallb_prefix; [exact Hp'|apply render_events_no_setter].
Qed.

Lemma state_after_active (response : Response) (before : State) :
  st_active (state_after before (fetchRoutesData response)) = st_active before.
Proof.
  destruct (reaches_setters response) eqn:Hr.
  - by destruct (load_state_set response before Hr) as (data & _ & _ & _ & ->).
  - by destruct (load_state_kept response before Hr) as [-> _].
Qed.

(** The requests a load leaves pending belong to routes it has set. *)
Lemma pending_below_routes (response : Response) (before : State) (i : nat)
    (c : option string) :
  (i, c) ∈ pending (fetchRoutesData response) →
  i < length (routes_set before (fetchRoutesData response)).
Proof.
  unfold routes_set. destruct (reaches_setters response) eqn:Hreach.
  2:{ destruct (load_state_kept response before Hreach) as [_ ->].
      by intros ?%elem_of_nil. }
  destruct (load_state_set response before Hreach) as (data & -> & Hok & Hread & ->).
  destruct (load_readable data Hok Hread) as (evs & Hp & _ & Hcase).
  assert (∃ evs' tail, evs' `prefix_of` render_events (routes_of data)
            ∧ fetchRoutesData (Json data) = header data (routes_of data) ++ evs' ++ tail
            ∧ pending tail = []) as (evs' & tail & Hp' & -> & Htail).
  { destruct Hcase as [(_ & -> & _ & ->)|(_ & e & ->)]; by eexists _, _. }
  simpl. rewrite length_map.
  intros [cs Hin]%pending_elem_of. unfold header in Hin. simpl in Hin.
  repeat (apply elem_of_cons in Hin as [?|Hin]; [done|]).
  apply elem_of_app in Hin as [Hin|Hin].
  2:{ assert ((i, c) ∈ pending tail) as Hbad by (apply pending_elem_of; by exists cs).
      rewrite Htail in Hbad. by apply elem_of_nil in Hbad. }
  apply (elem_of_prefix _ _ _ Hin) in Hp'. unfold render_events in Hp'.
  apply elem_of_app in Hp' as [Hhome|Hroutes].
  + apply elem_of_home_events in Hhome as (c0 & _ & [?|?]); done.
  + apply elem_of_indexed_events in Hroutes as (j & route & Hj & He).
    apply request_in_route_events in He as ->.
    by apply lookup_lt_Some in Hj.
Qed.

Lemma loaded_view_route_layers_only (response : Response) (before : State)
    (service : nat → Response) :
  route_layers_only (loaded_view (routes_set before (fetchRoutesData response)) service
                                 (pending (fetchRoutesData response))).
Proof.
  intros id. unfold loaded_view, complete_all. simpl.
  rewrite foldl_complete_layer_is_Some.
  intros [Hempty|(i & c & Hin & -> & _)].
  - simpl in Hempty. rewrite lookup_empty in Hempty. by destruct Hempty.
  - exists i. split; [|done]. by eapply pending_below_routes.
Qed.

End Lines.

Lemma directions_reply_cases_witness :
  fetchRouteDirections_resume (H:=Engines.checking) (Json Sample.no_route_reply)
    1 (Some "#0000FF") empty_style
  = (empty_style, [EConsoleError "No routes found:" Sample.no_route_reply])
  ∧ layers (fetchRouteDirections_resume (H:=Engines.checking) (Json Sample.line_reply)
              0 (Some "#FF0000") empty_style).1 !! layer_id 0
    = Some {| layer_source := source_id 0; line_color := Some "#FF0000";
              line_width := 4; visibility := Visible |}.
Proof.
  destruct (@directions_reply_cases Engines.checking 1 (Some "#0000FF") empty_style)
    as (Hnone & _).
  destruct (@directions_reply_cases Engines.checking 0 (Some "#FF0000") empty_style)
    as (_ & Hline & _).
  split.
  - apply Hnone; [reflexivity|]. right. reflexivity.
  - rewrite (Hline Sample.line_reply _ _ eq_refl eq_refl eq_refl).
    apply lookup_insert_eq.
Defined.

Lemma complete_commutes_witness :
  0 ≠ 1
  ∧ complete (H:=Engines.checking) (λ _, Json Sample.line_reply)
      (complete (H:=Engines.checking) (λ _, Json Sample.line_reply) empty_style
         (0, Some "#FF0000")) (1, Some "#0000FF")
    = complete (H:=Engines.checking) (λ _, Json Sample.line_reply)
        (complete (H:=Engines.checking) (λ _, Json Sample.line_reply) empty_style
           (1, Some "#0000FF")) (0, Some "#FF0000").
Proof.
  assert (0 ≠ 1) as Hne by lia. split; [exact Hne|].
  exact (@complete_commutes Engines.checking (λ _, Json Sample.line_reply) empty_style
           0 1 (Some "#FF0000") (Some "#0000FF") Hne).
Defined.

(* ===================================================================== *)
(** * More on selecting *)
(* ===================================================================== *)

Section Clicks.

Lemma route_layer_dec (n : nat) (id : string) :
  (∃ i, i < n ∧ id = layer_id i) ∨ (∀ i, i < n → id ≠ layer_id i).
Proof.
  induction n as [|n [(i & Hi & ->)|IH]].
  - right. intros i Hi. lia.
  - left. exists i. split; [lia|done].
  - destruct (decide (id = layer_id n)) as [->|Hne].
    + left. exists n. split; [lia|done].
    + right. intros i Hi. destruct (decide (i = n)) as [->|?]; [done|].
      apply IH. lia.
Qed.

Lemma set_visibility_twice (v w : Visibility) (l : Layer) :
  set_visibility v (set_visibility w l) = set_visibility v l.
Proof. done. Qed.

(** X10.  The last click wins: clicking route [j] and then route [k] leaves
    the view exactly as clicking [k] alone would; in particular a second
    click on the same route changes nothing. *)
Theorem last_click_wins (j k : nat) (v : View) :
  handleRouteClick k (handleRouteClick j v) = handleRouteClick k v
  ∧ handleRouteClick k (handleRouteClick k v) = handleRouteClick k v.
Proof.
  assert (∀ j, handleRouteClick k (handleRouteClick j v) = handleRouteClick k v) as Hwin;
    [|by split].
  clear j. intros j. unfold handleRouteClick. simpl. f_equal.
  set (n := routes v).
  assert (∀ s1 s2 : MapStyle, sources s1 = sources s2 → layers s1 = layers s2 → s1 = s2)
    as Hext by (intros [] []; simpl; congruence).
  apply Hext.
  - by rewrite !each_index_toggle_sources.
  - apply map_eq. intros id.
    destruct (route_layer_dec (length n) id) as [(i & Hi & ->)|Hout].
    + rewrite !each_index_toggle_at by lia.
      rewrite <-option_fmap_compose. by destruct (layers (style v) !! layer_id i).
    + rewrite !each_index_toggle_other; [done|..]; intros i Hi; apply Hout; lia.
Qed.

(** X11.  In a view whose layers are all line layers of its routes, a click
    on a route that has a layer leaves, among all the layers of the map
    style, exactly that route's layer visible; and the click keeps the view
    such a view. *)
Theorem click_shows_one_layer (k : nat) (v : View) :
  route_layers_only v →
  k < length (routes v) →
  has_layer v k = true →
  route_layers_only (handleRouteClick k v)
  ∧ ∀ id l, layers (style (handleRouteClick k v)) !! id = Some l →
            visibility l = Visible ↔ id = layer_id k.
Proof.
  intros Hinv Hk Hlayer. split.
  - intros id Hid. simpl.
    destruct (route_layer_dec (length (routes v)) id) as [(i & Hi & ->)|Hout].
    + by exists i.
    + apply Hinv. simpl in Hid.
      rewrite each_index_toggle_other in Hid; [done|].
      intros i Hi. apply Hout. lia.
  - intros id l Hl. simpl in Hl.
    destruct (route_layer_dec (length (routes v)) id) as [(i & Hi & ->)|Hout].
    + rewrite each_index_toggle_at in Hl by lia.
      destruct (layers (style v) !! layer_id i) as [l0|]; [|done].
      injection Hl as <-. simpl. destruct (i =? k) eqn:Hik.
      * apply Nat.eqb_eq in Hik as ->. done.
      * apply Nat.eqb_neq in Hik. split; [done|]. by intros ?%layer_id_inj.
    + rewrite each_index_toggle_other in Hl by (intros i Hi; apply Hout; lia).
      destruct (Hinv id) as (i & Hi & ->); [by eexists|].
      by destruct (Hout i Hi).
Qed.

End Clicks.

Lemma click_shows_one_layer_witness :
  let events := @fetchRoutesData Engines.checking (Json (Sample.reply Sample.two_routes)) in
  let v := @loaded_view Engines.checking (routes_set initial_state events)
             (λ _, Json Sample.line_reply) (pending events) in
  route_layers_only v
  ∧ 1 < length (routes v)
  ∧ has_layer v 1 = true
  ∧ ∀ id l, layers (style (handleRouteClick 1 v)) !! id = Some l →
            visibility l = Visible ↔ id = layer_id 1.
Proof.
  intros events v.
  pose proof (@loaded_view_route_layers_only Engines.checking
                (Json (Sample.reply Sample.two_routes)) initial_state
                (λ _, Json Sample.line_reply))
    as Hinv.
  assert (1 < length (routes v)) as Hk by (vm_compute; lia).
  assert (has_layer v 1 = true) as Hl by (vm_compute; exact eq_refl).
  split; [exact Hinv|]. split; [exact Hk|]. split; [exact Hl|].
  exact (proj2 (click_shows_one_layer 1 v Hinv Hk Hl)).
Defined.

(* ===================================================================== *)
(** * The sidebar *)
(* ===================================================================== *)

Section SidebarFacts.

Lemma mapiO_Returned {A B} (f : A → nat → Outcome B) (i : nat) (l : list A)
    (ys : list B) :
  mapiO f i l = Returned ys →
  length ys = length l
  ∧ ∀ j y, ys !! j = Some y → ∃ x, l !! j = Some x ∧ f x (i + j) = Returned y.
Proof.
  revert i ys. induction l as [|x l IH]; intros i ys; simpl.
  - intros [= <-]. split; [done|]. intros j y Hj. done.
  - destruct (f x i) as [y0|e] eqn:Hx; [|done]. simpl.
    destruct (mapiO f (S i) l) as [ys'|e] eqn:Hl; [|done]. simpl. intros [= <-].
    destruct (IH _ _ Hl) as [Hlen Hat]. split; [simpl; by rewrite Hlen|].
    intros [|j] y Hj; simpl in Hj.
    + injection Hj as <-. exists x. by rewrite Nat.add_0_r.
    + destruct (Hat j y Hj) as (x' & Hx' & Hf). exists x'. split; [done|].
      by replace (i + S j) with (S i + j) by lia.
Qed.

Lemma mapiO_returns_iff {A B} (f : A → nat → Outcome B) (p : A → bool) (i : nat)
    (l : list A) :
  (∀ x j, (∃ y, f x j = Returned y) ↔ p x = true) →
  (∃ ys, mapiO f i l = Returned ys) ↔ forallb p l = true.
Proof.
  intros Hf. revert i. induction l as [|x l IH]; intros i; simpl.
  - split; [done|]. intros _. by eexists.
  - rewrite andb_true_iff, <-(IH (S i)), <-(Hf x i). split.
    + intros [ys Hys]. destruct (f x i) as [y|e]; [|done]. simpl in Hys.
      destruct (mapiO f (S i) l) as [ys'|e]; [|done]. split; by eexists.
    + intros [[y ->] [ys ->]]. by eexists.
Qed.

Lemma mapiO_Threw {A B} (f : A → nat → Outcome B) (i : nat) (l : list A) (e : Exn) :
  (∀ x j e', f x j = Threw e' → is_type_error e' = true) →
  mapiO f i l = Threw e → is_type_error e = true.
Proof.
  intros Hf. revert i. induction l as [|x l IH]; intros i; [done|]. simpl.
  destruct (f x i) as [y|e'] eqn:Hx; simpl.
  - destruct (mapiO f (S i) l) as [ys|e'] eqn:Hl; [done|]. simpl.
    intros [= <-]. by eapply IH.
  - intros [= <-]. by eapply Hf.
Qed.

Lemma toFixed2_returns (v : JSValue) :
  (∃ d, toFixed2 v = Returned d) ↔ is_number v = true.
Proof. destruct v; simpl; split; (done || by intros [? ?] || by eexists). Qed.

Lemma render_stop_item_returns (stop : JSValue) (j : nat) :
  (∃ item, render_stop_item stop j = Returned item) ↔ readable_stop stop = true.
Proof.
  unfold render_stop_item. split.
  - intros [item Hitem]. by destruct stop.
  - intros Hs. rewrite !(get_readable _ _ Hs). by eexists.
Qed.

Lemma render_row_returns (a : option nat) (route : JSValue) (i : nat) :
  (∃ row, render_row a route i = Returned row) ↔ row_ok route = true.
Proof.
  unfold row_ok. rewrite !andb_true_iff, <-!toFixed2_returns. split.
  - intros [row Hrow]. unfold render_row in Hrow.
    destruct (get route "driver_name") as [d|] eqn:Hd; [|done].
    pose proof (get_Returned_readable _ _ _ Hd) as Hr.
    rewrite !(get_readable _ _ Hr) in Hrow. simpl in Hrow.
    destruct (toFixed2 (field route "estimated_fuel")) as [fu|]; [|done].
    destruct (toFixed2 (field route "total_distance_km")) as [di|]; [|done].
    simpl in Hrow.
    destruct (array_method _ _) as [stops|] eqn:Hs; [|done]. simpl in Hrow.
    apply array_method_Returned in Hs.
    destruct (mapiO render_stop_item 0 stops) as [items|] eqn:Hi; [|done].
    split; [split|]; try by eexists.
    unfold readable_route. rewrite Hs.
    apply (mapiO_returns_iff render_stop_item readable_stop 0 stops).
    + apply render_stop_item_returns.
    + by eexists.
  - intros [[(Hstops & Hall & Hr)%readable_route_stops [fu Hfu]] [di Hdi]].
    unfold render_row. rewrite !(get_readable _ _ Hr). simpl.
    rewrite Hfu. simpl. rewrite Hdi. simpl. rewrite Hstops. simpl.
    destruct (proj2 (mapiO_returns_iff render_stop_item readable_stop 0 (stops_of route)
                       render_stop_item_returns) Hall) as [items ->].
    by eexists.
Qed.

Lemma render_walk_item_returns (student : JSValue) (i : nat) :
  (∃ item, render_walk_item student i = Returned item) ↔ walk_ok student = true.
Proof.
  unfold walk_ok. rewrite andb_true_iff, <-toFixed2_returns. unfold render_walk_item.
  split.
  - intros [item Hitem].
    destruct (get student "student_name") as [n|] eqn:Hn; [|done].
    pose proof (get_Returned_readable _ _ _ Hn) as Hr.
    rewrite (get_readable _ _ Hr) in Hitem. simpl in Hitem.
    destruct (toFixed2 _) as [d|]; [|done]. split; [done|by eexists].
  - intros [Hr [d Hd]]. rewrite !(get_readable _ _ Hr). simpl. rewrite Hd. by eexists.
Qed.

Lemma toFixed2_Threw (v : JSValue) (e : Exn) :
  toFixed2 v = Threw e → is_type_error e = true.
Proof. destruct v; simpl; intros [= <-]; done. Qed.

Lemma render_stop_item_Threw (stop : JSValue) (j : nat) (e : Exn) :
  render_stop_item stop j = Threw e → is_type_error e = true.
Proof. destruct stop; simpl; intros [= <-]; done. Qed.

Lemma render_walk_item_Threw (student : JSValue) (i : nat) (e : Exn) :
  render_walk_item student i = Threw e → is_type_error e = true.
Proof.
  unfold render_walk_item.
  destruct (get student "student_name") as [n|e'] eqn:Hn; simpl;
    [|intros [= <-]; by eapply get_Threw].
  destruct (get student "walking_distance") as [w|e'] eqn:Hw; simpl;
    [|intros [= <-]; by eapply get_Threw].
  destruct (toFixed2 w) as [d|e'] eqn:Hd; simpl; [done|].
  intros [= <-]. by eapply toFixed2_Threw.
Qed.

Lemma render_row_Threw (a : option nat) (route : JSValue) (i : nat) (e : Exn) :
  render_row a route i = Threw e → is_type_error e = true.
Proof.
  unfold render_row.
  destruct (get route "driver_name") as [d|e'] eqn:Hd; simpl;
    [|intros [= <-]; by eapply get_Threw].
  pose proof (get_Returned_readable _ _ _ Hd) as Hr.
  rewrite !(get_readable _ _ Hr). simpl.
  destruct (toFixed2 (field route "estimated_fuel")) as [fu|e'] eqn:Hfu; simpl;
    [|intros [= <-]; by eapply toFixed2_Threw].
  destruct (toFixed2 (field route "total_distance_km")) as [di|e'] eqn:Hdi; simpl;
    [|intros [= <-]; by eapply toFixed2_Threw].
  destruct (array_method _ _) as [stops|e'] eqn:Hs; simpl.
  2:{ intros [= <-]. by destruct (field route "stops"); simplify_eq/=. }
  destruct (mapiO render_stop_item 0 stops) as [items|e'] eqn:Hi; simpl; [done|].
  intros [= <-]. eapply mapiO_Threw; [|exact Hi]. apply render_stop_item_Threw.
Qed.

Lemma render_sidebar_returns (routes : list JSValue) (a : option nat)
    (walk : list JSValue) :
  (∃ view, render_sidebar routes a walk = Returned view)
  ↔ forallb row_ok routes && forallb walk_ok walk = true.
Proof.
  pose proof (mapiO_returns_iff (render_row a) row_ok 0 routes
                (render_row_returns a)) as Hrows.
  pose proof (mapiO_returns_iff render_walk_item walk_ok 0 walk
                render_walk_item_returns) as Hwalk.
  unfold render_sidebar.
  rewrite andb_true_iff, <-Hrows, <-Hwalk. split.
  - intros [view Hview].
    destruct (mapiO (render_row a) 0 routes) as [rs|]; [|done].
    split; [by eexists|]. simpl in Hview.
    destruct walk as [|s l]; [by eexists|].
    destruct (mapiO render_walk_item 0 (s :: l)) as [items|]; [by eexists|done].
  - intros [[rs ->] [items Hitems]]. simpl.
    destruct walk as [|s l]; [by eexists|].
    rewrite Hitems. by eexists.
Qed.

(** X12.  The sidebar can be built exactly when every route has an array of
    stops none of which is [null] and numbers for [estimated_fuel] and
    [total_distance_km], and every walk-list entry has a number for
    [walking_distance]; otherwise building it throws a TypeError. *)
Theorem sidebar_renders_iff (routes : list JSValue) (activeRouteId : option nat)
    (studentsRequiringWalk : list JSValue) :
  ((∃ view, render_sidebar routes activeRouteId studentsRequiringWalk = Returned view)
   ↔ forallb row_ok routes && forallb walk_ok studentsRequiringWalk = true)
  ∧ ∀ e, render_sidebar routes activeRouteId studentsRequiringWalk = Threw e →
         is_type_error e = true.
Proof.
  split; [apply render_sidebar_returns|].
  unfold render_sidebar.
  intros e.
    destruct (mapiO (render_row activeRouteId) 0 routes) as [rs|e'] eqn:Hr; simpl.
    2:{ intros [= <-]. eapply mapiO_Threw; [|exact Hr]. apply render_row_Threw. }
    destruct studentsRequiringWalk as [|s l]; [done|].
    destruct (mapiO render_walk_item 0 (s :: l)) as [items|e'] eqn:Hw; [done|].
    intros [= <-]. eapply mapiO_Threw; [|exact Hw]. apply render_walk_item_Threw.
Qed.

Lemma render_row_Returned (a : option nat) (route : JSValue) (i : nat) (row : RouteRow) :
  render_row a route i = Returned row →
  row_key row = i
  ∧ row_click row = i
  ∧ row_background row = (if bool_decide (a = Some i) then "#ddd" else "#fff")
  ∧ row_driver row = field route "driver_name"
  ∧ row_time row = field route "estimated_time_mins"
  ∧ mapiO render_stop_item 0 (stops_of route) = Returned (row_stops row).
Proof.
  unfold render_row.
  destruct (get route "driver_name") as [d|] eqn:Hd; [|done].
  pose proof (get_Returned_readable _ _ _ Hd) as Hr.
  rewrite !(get_readable _ _ Hr). simpl.
  destruct (toFixed2 (field route "estimated_fuel")) as [fu|]; [|done].
  destruct (toFixed2 (field route "total_distance_km")) as [di|]; [|done]. simpl.
  destruct (array_method _ _) as [stops|] eqn:Hs; [|done]. simpl.
  apply array_method_Returned in Hs.
  destruct (mapiO render_stop_item 0 stops) as [items|] eqn:Hi; [|done]. simpl.
  intros [= <-]. simpl. split_and!; try done.
  - by apply get_Returned_field.
  - unfold stops_of. by rewrite Hs.
Qed.

Lemma render_sidebar_Returned (routes : list JSValue) (a : option nat)
    (walk : list JSValue) (view : SidebarView) :
  render_sidebar routes a walk = Returned view →
  mapiO (render_row a) 0 routes = Returned (rows view)
  ∧ match walk with
    | [] => walk_section view = None
    | _ => ∃ items, walk_section view = Some items
                    ∧ mapiO render_walk_item 0 walk = Returned items
    end.
Proof.
  unfold render_sidebar.
  destruct (mapiO (render_row a) 0 routes) as [rs|]; [|done]. simpl.
  destruct walk as [|s l].
  - by intros [= <-].
  - destruct (mapiO render_walk_item 0 (s :: l)) as [items|]; [|done].
    intros [= <-]. split; [done|]. by exists items.
Qed.

(** X13.  When the sidebar is built it has one row per route, in order; row
    [i] has key [i], passes [i] to [handleRouteClick] when clicked, shows
    the route's driver name, and has the highlighted background [#ddd]
    exactly when [i] is the active route and [#fff] otherwise, so at most
    one row is highlighted and none before any click. *)
Theorem sidebar_rows (routes : list JSValue) (activeRouteId : option nat)
    (studentsRequiringWalk : list JSValue) (view : SidebarView) :
  render_sidebar routes activeRouteId studentsRequiringWalk = Returned view →
  length (rows view) = length routes
  ∧ (∀ i row, rows view !! i = Some row →
       ∃ route, routes !! i = Some route
         ∧ row_key row = i
         ∧ row_click row = i
         ∧ row_driver row = field route "driver_name"
         ∧ (row_background row = "#ddd" ↔ activeRouteId = Some i)
         ∧ (row_background row = "#fff" ↔ activeRouteId ≠ Some i))
  ∧ (activeRouteId = None →
     ∀ i row, rows view !! i = Some row → row_background row = "#fff").
Proof.
  intros [Hrows _]%render_sidebar_Returned.
  destruct (mapiO_Returned _ _ _ _ Hrows) as [Hlen Hat].
  assert (∀ i row, rows view !! i = Some row →
            ∃ route, routes !! i = Some route
              ∧ row_key row = i ∧ row_click row = i
              ∧ row_driver row = field route "driver_name"
              ∧ (row_background row = "#ddd" ↔ activeRouteId = Some i)
              ∧ (row_background row = "#fff" ↔ activeRouteId ≠ Some i)) as Hrow.
  { intros i row Hi. destruct (Hat i row Hi) as (route & Hroute & Hr).
    apply render_row_Returned in Hr as (Hk & Hc & Hb & Hd & _).
    exists route. split_and!; try done.
    - rewrite Hb. by case_bool_decide.
    - rewrite Hb. by case_bool_decide. }
  split_and!; [done|done|].
  intros -> i row Hi. destruct (Hrow i row Hi) as (_ & _ & _ & _ & _ & _ & Hb).
  by apply Hb.
Qed.

(** X14.  When the sidebar is built, row [i] lists the stops of route [i] in
    order: item [j] is numbered [j + 1], shows that stop's student name and
    reads "Requires Walk" exactly when the stop's [requires_walk] is truthy,
    "Right Side" otherwise.  The walk section is there exactly when the walk
    list is not empty, and then has one entry per student, in order. *)
Theorem sidebar_stops_and_walk (routes : list JSValue) (activeRouteId : option nat)
    (studentsRequiringWalk : list JSValue) (view : SidebarView) :
  render_sidebar routes activeRouteId studentsRequiringWalk = Returned view →
  (∀ i row route, rows view !! i = Some row → routes !! i = Some route →
     length (row_stops row) = length (stops_of route)
     ∧ ∀ j item, row_stops row !! j = Some item →
         ∃ stop, stops_of route !! j = Some stop
           ∧ item_number item = j + 1
           ∧ item_name item = field stop "student_name"
           ∧ item_side item = (if flagged stop then "Requires Walk" else "Right Side"))
  ∧ (walk_section view = None ↔ studentsRequiringWalk = [])
  ∧ ∀ items, walk_section view = Some items →
      length items = length studentsRequiringWalk
      ∧ ∀ i item, items !! i = Some item →
          ∃ student, studentsRequiringWalk !! i = Some student
            ∧ walk_key item = i
            ∧ walk_name item = field student "student_name".
Proof.
  intros [Hrows Hwalk]%render_sidebar_Returned.
  destruct (mapiO_Returned _ _ _ _ Hrows) as [Hlen Hat].
  split_and!.
  - intros i row route Hi Hroute.
    destruct (Hat i row Hi) as (route' & Hroute' & Hr).
    rewrite Hroute in Hroute'. injection Hroute' as <-.
    apply render_row_Returned in Hr as (_ & _ & _ & _ & _ & Hitems).
    destruct (mapiO_Returned _ _ _ _ Hitems) as [Hlen' Hat']. split; [done|].
    intros j item Hj. destruct (Hat' j item Hj) as (stop & Hstop & Hs).
    exists stop. split; [done|]. unfold render_stop_item in Hs.
    destruct (get stop "student_name") as [n|] eqn:Hn; [|done].
    pose proof (get_Returned_readable _ _ _ Hn) as Hread.
    rewrite (get_Returned_field _ _ _ Hn), (get_readable _ _ Hread) in Hs.
    simpl in Hs. injection Hs as <-. by simpl.
  - destruct studentsRequiringWalk as [|s l]; [done|].
    destruct Hwalk as (items & -> & _). done.
  - intros items Hsection. destruct studentsRequiringWalk as [|s l]; [congruence|].
    destruct Hwalk as (items' & Hsome & Hitems).
    rewrite Hsection in Hsome. injection Hsome as <-.
    destruct (mapiO_Returned _ _ _ _ Hitems) as [Hlen' Hat']. split; [done|].
    intros i item Hi. destruct (Hat' i item Hi) as (student & Hstudent & Hs).
    exists student. split; [done|]. unfold render_walk_item in Hs.
    destruct (get student "student_name") as [n|] eqn:Hn; [|done].
    pose proof (get_Returned_readable _ _ _ Hn) as Hread.
    rewrite (get_Returned_field _ _ _ Hn), (get_readable _ _ Hread) in Hs.
    simpl in Hs. destruct (toFixed2 _); [|done]. injection Hs as <-. by simpl.
Qed.

(** X15.  Clicking row [k] and building the sidebar again highlights row [k]
    and no other row; the row of a route whose line is visible on the map is
    the highlighted one; and the click does not change whether the sidebar
    can be built. *)
Theorem click_highlights_row (k : nat) (v : View) (walk : list JSValue)
    (view : SidebarView) :
  render_sidebar (routes (handleRouteClick k v)) (activeRouteId (handleRouteClick k v)) walk
  = Returned view →
  (∀ i row, rows view !! i = Some row → row_background row = "#ddd" ↔ i = k)
  ∧ (∀ i row, rows view !! i = Some row →
       is_visible (handleRouteClick k v) i = true → row_background row = "#ddd")
  ∧ ∃ before, render_sidebar (routes v) (activeRouteId v) walk = Returned before
              ∧ length (rows before) = length (rows view).
Proof.
  intros Hview. simpl in Hview.
  pose proof Hview as [Hrows _]%render_sidebar_Returned.
  destruct (mapiO_Returned _ _ _ _ Hrows) as [Hlen Hat].
  assert (∀ i row, rows view !! i = Some row → row_background row = "#ddd" ↔ i = k)
    as Hone.
  { intros i row Hi. destruct (Hat i row Hi) as (route & Hroute & Hr).
    apply render_row_Returned in Hr as (_ & _ & -> & _). simpl.
    case_bool_decide as Hik; [|split; [done|intros ->; done]].
    injection Hik as ->. done. }
  split_and!; [done| |].
  - intros i row Hi Hvis. apply (Hone i row Hi).
    assert (i < length (routes v)) as Hlt.
    { rewrite <-Hlen. by eapply lookup_lt_Some. }
    rewrite click_is_visible in Hvis by done.
    apply andb_true_iff in Hvis as [_ Hik]. by apply Nat.eqb_eq.
  - destruct (render_sidebar_returns (routes v) (Some k) walk) as [Hok _].
    destruct (render_sidebar_returns (routes v) (activeRouteId v) walk) as [_ Hback].
    destruct (Hback (Hok (ex_intro _ view Hview))) as [before Hbefore].
    exists before. split; [done|].
    apply render_sidebar_Returned in Hbefore as [Hrows' _].
    destruct (mapiO_Returned _ _ _ _ Hrows') as [Hlen' _]. by rewrite Hlen', Hlen.
Qed.

End SidebarFacts.

Section SidebarAndMap.
Context `{MapEngine}.

Lemma completed_state (data : JSValue) (before : State) :
  completed (Json data) = true →
  routes_set before (fetchRoutesData (Json data)) = map respread (routes_of data)
  ∧ walk_set before (fetchRoutesData (Json data)) = flagged_stops (routes_of data)
  ∧ forallb readable_route (routes_of data) = true.
Proof.
  intros (d & [= <-] & Hok & Hread & _)%load_completed.
  unfold routes_set, walk_set.
  assert (reaches_setters (Json data) = true) as Hreach by (simpl; by rewrite Hok).
  by destruct (load_state_set (Json data) before Hreach) as (d & [= <-] & _ & _ & ->).
Qed.

Lemma numbered_marker_in_load (data : JSValue) (i j : nat) (route stop : JSValue) :
  completed (Json data) = true →
  routes_of data !! i = Some route → stops_of route !! j = Some stop →
  valid_location (location_of stop) = true →
  EStopMarker (location_of stop) (pretty (j + 1)) (getRouteColor i)
              (field stop "requires_walk") (field stop "student_name")
  ∈ fetchRoutesData (Json data).
Proof.
  intros (d & [= <-] & _ & _ & _ & _ & ->)%load_completed Hi Hj Hv.
  apply elem_of_app. right. apply elem_of_app. left.
  assert (EStopMarker (location_of stop) (pretty (j + 1)) (getRouteColor i)
            (field stop "requires_walk") (field stop "student_name")
          ∈ List.filter is_numbered (render_events (routes_of data))) as Hin.
  { rewrite filter_numbered_render_events. apply elem_of_numbered_markers.
    by exists i, route, j, stop. }
  apply list_elem_of_In, List.filter_In in Hin as [Hin _]. by apply list_elem_of_In.
Qed.

(** X16.  After a load that completes, whatever the state was before, the
    sidebar built from the state the load has set agrees with the map: item [j] of row [i] is stop [j] of
    route [i] of the reply, the number it shows is the label of that stop's
    marker whenever the stop has one, and it reads "Requires Walk" exactly
    when the stop is in the walk list shown below the routes. *)
Theorem sidebar_matches_markers (data : JSValue) (before : State)
    (activeRouteId : option nat) (view : SidebarView) :
  completed (Json data) = true →
  render_sidebar (routes_set before (fetchRoutesData (Json data))) activeRouteId
                 (walk_set before (fetchRoutesData (Json data))) = Returned view →
  length (rows view) = length (routes_of data)
  ∧ ∀ i row j item,
      rows view !! i = Some row → row_stops row !! j = Some item →
      ∃ route stop,
        routes_of data !! i = Some route
        ∧ stops_of route !! j = Some stop
        ∧ item_name item = field stop "student_name"
        ∧ (valid_location (location_of stop) = true →
           EStopMarker (location_of stop) (pretty (item_number item)) (getRouteColor i)
                       (field stop "requires_walk") (item_name item)
           ∈ fetchRoutesData (Json data))
        ∧ (item_side item = "Requires Walk"
           ↔ stop ∈ walk_set before (fetchRoutesData (Json data))).
Proof.
  intros Hdone Hview.
  destruct (completed_state data before Hdone) as (Hroutes & Hwalk & Hread).
  rewrite Hroutes, Hwalk in *.
  apply render_sidebar_Returned in Hview as [Hrows _].
  destruct (mapiO_Returned _ _ _ _ Hrows) as [Hlen Hat].
  split; [by rewrite Hlen, length_map|].
  intros i row j item Hi Hj.
  destruct (Hat i row Hi) as (route' & Hroute' & Hr).
  rewrite list_lookup_fmap in Hroute'.
  destruct (routes_of data !! i) as [route|] eqn:Hroute; [|done].
  injection Hroute' as <-.
  assert (readable_route route = true) as Hrr.
  { apply (forallb_elem_of _ _ _ Hread). by eapply list_elem_of_lookup_2. }
  apply render_row_Returned in Hr as (_ & _ & _ & _ & _ & Hitems).
  assert (stops_of (respread route) = stops_of route) as Hstops
    by (unfold stops_of; by rewrite field_respread).
  rewrite Hstops in Hitems.
  destruct (mapiO_Returned _ _ _ _ Hitems) as [_ Hat'].
  destruct (Hat' j item Hj) as (stop & Hstop & Hs).
  exists route, stop. unfold render_stop_item in Hs.
  destruct (get stop "student_name") as [n|] eqn:Hn; [|done].
  pose proof (get_Returned_readable _ _ _ Hn) as Hrs.
  rewrite (get_Returned_field _ _ _ Hn), (get_readable _ _ Hrs) in Hs.
  simpl in Hs. injection Hs as <-. simpl. split_and!; try done.
  - intros Hv. by apply (numbered_marker_in_load data i j route stop).
  - fold (flagged stop). split.
    + intros Hside. unfold flagged_stops. apply elem_of_flat_map.
      exists route. split; [by eapply list_elem_of_lookup_2|].
      apply list_elem_of_In, List.filter_In. split.
      * apply list_elem_of_In. by eapply list_elem_of_lookup_2.
      * by destruct (flagged stop).
    + intros (r & _ & [_ Hf]%list_elem_of_In%List.filter_In)%elem_of_flat_map.
      by rewrite Hf.
Qed.

End SidebarAndMap.

Ltac with_rendered_sidebar routes a walk :=
  let r := eval vm_compute in (render_sidebar routes a walk) in
  match r with
  | Returned ?view =>
    assert (render_sidebar routes a walk = Returned view)
      by (vm_compute; exact eq_refl);
    exists view
  end.

Lemma sidebar_renders_iff_witness :
  (∃ view, render_sidebar Sample.two_routes None [] = Returned view)
  ∧ ∃ e, render_sidebar Sample.without_destination None [] = Threw e
         ∧ is_type_error e = true.
Proof.
  destruct (sidebar_renders_iff Sample.two_routes None []) as [Hiff _].
  destruct (sidebar_renders_iff Sample.without_destination None []) as [_ Hthrow].
  split; [by apply Hiff|].
  exists (TypeError "toFixed"). split; [reflexivity|]. by apply Hthrow.
Defined.

Lemma sidebar_rows_witness :
  ∃ view, render_sidebar Sample.two_routes (Some 1) [] = Returned view
          ∧ length (rows view) = length Sample.two_routes.
Proof.
  with_rendered_sidebar Sample.two_routes (Some 1) (@nil JSValue).
  split; [assumption|].
  by eapply (sidebar_rows Sample.two_routes (Some 1) []).
Defined.

Lemma sidebar_stops_and_walk_witness :
  ∃ view, render_sidebar Sample.two_routes None (flagged_stops Sample.two_routes)
          = Returned view
          ∧ ∃ items, walk_section view = Some items ∧ length items = 1.
Proof.
  with_rendered_sidebar Sample.two_routes (@None nat) (flagged_stops Sample.two_routes).
  split; [assumption|].
  eexists. split; [reflexivity|].
  match goal with Hview : render_sidebar _ _ _ = Returned ?view |- _ =>
    destruct (sidebar_stops_and_walk _ _ _ _ Hview) as (_ & _ & Hitems);
    exact (proj1 (Hitems _ eq_refl))
  end.
Defined.

Lemma click_highlights_row_witness :
  let events := @fetchRoutesData Engines.checking (Json (Sample.reply Sample.two_routes)) in
  let v := @loaded_view Engines.checking (routes_set initial_state events)
             Sample.only_first (pending events) in
  ∃ view, render_sidebar (routes (handleRouteClick 0 v))
                         (activeRouteId (handleRouteClick 0 v))
                         (walk_set initial_state events)
          = Returned view
          ∧ ∀ i row, rows view !! i = Some row → row_background row = "#ddd" ↔ i = 0.
Proof.
  intros events v.
  with_rendered_sidebar (routes (handleRouteClick 0 v))
                        (activeRouteId (handleRouteClick 0 v))
                        (walk_set initial_state events).
  split; [assumption|].
  match goal with Hview : render_sidebar _ _ _ = Returned ?view |- _ =>
    exact (proj1 (click_highlights_row 0 v (walk_set initial_state events) view Hview))
  end.
Defined.

Lemma sidebar_matches_markers_witness :
  let data := Sample.reply Sample.two_routes in
  @completed Engines.checking (Json data) = true
  ∧ ∃ view, render_sidebar
              (routes_set initial_state (@fetchRoutesData Engines.checking (Json data)))
              None
              (walk_set initial_state (@fetchRoutesData Engines.checking (Json data)))
            = Returned view
            ∧ length (rows view) = length (routes_of data).
Proof.
  intros data. split; [reflexivity|].
  with_rendered_sidebar
    (routes_set initial_state (@fetchRoutesData Engines.checking (Json data)))
    (@None nat)
    (walk_set initial_state (@fetchRoutesData Engines.checking (Json data))).
  split; [assumption|].
  match goal with Hview : render_sidebar _ _ _ = Returned ?view |- _ =>
    exact (proj1 (@sidebar_matches_markers Engines.checking data initial_state None view
                    eq_refl Hview))
  end.
Defined.

(* ===================================================================== *)
(** * The life of the map instance *)
(* ===================================================================== *)

Section MapLife.

Ltac projections :=
  cbn [refs history instance created container cleanup_pending mounted record fst snd].

Lemma live_after_app (l : list nat) (h1 h2 : list LifeEvent) :
  live_after l (h1 ++ h2) = live_after (live_after l h1) h2.
Proof.
  revert l. induction h1 as [|e h1 IH]; intros l; [done|].
  destruct e; simpl; by rewrite IH.
Qed.

Lemma live_app (h1 h2 : list LifeEvent) : live (h1 ++ h2) = live_after (live h1) h2.
Proof. apply live_after_app. Qed.

Lemma creations_app (h1 h2 : list LifeEvent) :
  creations (h1 ++ h2) = creations h1 ++ creations h2.
Proof. apply omap_app. Qed.

Lemma load_handlers_app (h1 h2 : list LifeEvent) :
  load_handlers (h1 ++ h2) = load_handlers h1 ++ load_handlers h2.
Proof. apply omap_app. Qed.

Lemma seq_S_end (n : nat) : seq 0 (S n) = seq 0 n ++ [n].
Proof. by rewrite seq_S. Qed.

(** The effect on refs that hold no map. *)
Lemma effect_tidy (p : Props) (r : Refs) (pending mounted0 : bool) :
  instance r = None →
  tidy {| refs := r; cleanup_pending := pending; mounted := mounted0 |} →
  tidy {| refs := (effect p r).1; cleanup_pending := (effect p r).2; mounted := true |}.
Proof.
  intros Hnone (Hlive & _ & _ & Hcre & Hload). simpl in *.
  unfold effect. simpl. rewrite Hnone. destruct (container r); simpl.
  - split_and!; projections; try done.
    + rewrite <-app_assoc, live_app, Hlive, Hnone. done.
    + by rewrite <-app_assoc, creations_app, Hcre, seq_S_end.
    + rewrite <-app_assoc, load_handlers_app, creations_app, Hload. done.
  - split_and!; projections; rewrite ?Hnone; try done.
    + by rewrite live_app, Hlive, Hnone.
    + by rewrite creations_app, Hcre, app_nil_r.
    + by rewrite load_handlers_app, creations_app, Hload.
Qed.

Lemma run_cleanup_tidy (c : Component) :
  tidy c →
  instance (run_cleanup c) = None
  ∧ tidy {| refs := run_cleanup c; cleanup_pending := false; mounted := false |}.
Proof.
  intros (Hlive & Hpending & Hun & Hcre & Hload). unfold run_cleanup, cleanup.
  rewrite Hpending. destruct (instance (refs c)) as [id|] eqn:Hinst; simpl.
  - split; [done|]. split_and!; projections; try done.
    + rewrite live_app, Hlive. simpl. by rewrite Nat.eqb_refl.
    + by rewrite creations_app, Hcre, app_nil_r.
    + by rewrite load_handlers_app, creations_app, Hload.
  - split; [done|]. split_and!; projections; try done.
    + by rewrite Hlive, Hinst.
    + by rewrite Hinst.
Qed.

Lemma mount_tidy (container_set : bool) (p : Props) : tidy (mount container_set p).
Proof.
  unfold mount.
  pose proof (effect_tidy p {| container := container_set; instance := None;
                               created := 0; history := [] |} false false eq_refl) as Ht.
  destruct (effect p _) as [r has]. apply Ht. by split_and!.
Qed.

Lemma step_tidy (c : Component) (s : Step) : tidy c → tidy (step c s).
Proof.
  intros Hc. destruct s as [p changed|]; simpl.
  - destruct (mounted c && changed); [|done].
    destruct (run_cleanup_tidy c Hc) as [Hnone Ht].
    pose proof (effect_tidy p (run_cleanup c) false false Hnone Ht) as Ht'.
    by destruct (effect p (run_cleanup c)) as [r has].
  - destruct (mounted c); [|done]. by apply run_cleanup_tidy.
Qed.

Lemma run_tidy (container_set : bool) (p : Props) (steps : list Step) :
  tidy (run container_set p steps).
Proof.
  unfold run. generalize (mount_tidy container_set p).
  generalize (mount container_set p).
  induction steps as [|s steps IH]; intros c Hc; [done|].
  simpl. apply IH. by apply step_tidy.
Qed.

Lemma step_after_unmount (c : Component) (s : Step) :
  mounted c = false → step c s = c.
Proof. intros Hc. destruct s; simpl; by rewrite Hc. Qed.

Lemma step_unmounted (c : Component) (steps : list Step) :
  mounted c = false → foldl step c steps = c.
Proof.
  intros Hc. induction steps as [|s steps IH]; [done|]. simpl.
  by rewrite step_after_unmount.
Qed.

Lemma mounted_run (c : Component) (steps : list Step) :
  mounted (foldl step c steps) = mounted c && negb (unmounted steps).
Proof.
  revert c. induction steps as [|s steps IH]; intros c; simpl.
  - by rewrite andb_true_r.
  - destruct (mounted c) eqn:Hc.
    + rewrite IH. destruct s as [p changed|]; simpl; rewrite Hc; simpl.
      * destruct changed; [|by rewrite Hc]. by destruct (effect p (run_cleanup c)).
      * done.
    + rewrite step_after_unmount by done. by rewrite step_unmounted, Hc.
Qed.

(** X17.  However the component is committed and unmounted, the map ref
    holds exactly the maps created and not yet removed: there is never more
    than one live map; once the component has been unmounted there is none;
    and every map ever created got exactly one load handler, the one that
    starts [fetchRoutesData]. *)
Theorem one_live_map (container_set : bool) (p : Props) (steps : list Step) :
  live (history (refs (run container_set p steps)))
  = option_list (instance (refs (run container_set p steps)))
  ∧ length (live (history (refs (run container_set p steps)))) ≤ 1
  ∧ (unmounted steps = true →
     live (history (refs (run container_set p steps))) = []
     ∧ instance (refs (run container_set p steps)) = None)
  ∧ load_handlers (history (refs (run container_set p steps)))
    = creations (history (refs (run container_set p steps)))
  ∧ NoDup (creations (history (refs (run container_set p steps)))).
Proof.
  destruct (run_tidy container_set p steps) as (Hlive & _ & Hun & Hcre & Hload).
  split_and!; try done.
  - rewrite Hlive. destruct (instance _); simpl; lia.
  - intros Hsteps.
    assert (instance (refs (run container_set p steps)) = None) as Hnone.
    { apply Hun. unfold run. rewrite mounted_run, Hsteps. by rewrite andb_false_r. }
    by rewrite Hlive, Hnone.
  - rewrite Hcre. apply NoDup_seq.
Qed.

Lemma last_created_app_create (h : list LifeEvent) (id : nat) (lng lat z : float) :
  last_created (h ++ [LCreate id lng lat z; LOnLoad id]) = Some (id, lng, lat, z).
Proof.
  unfold last_created. rewrite omap_app. simpl.
  by rewrite last_snoc.
Qed.

Lemma rerun_showing (q p : Props) (n : nat) (c : Component) :
  showing q n c → showing p (S n) (step c (Commit p true)).
Proof.
  intros (Hm & Hcont & Hpend & Hn & id & Hinst & _). simpl. rewrite Hm. simpl.
  unfold run_cleanup, cleanup, effect. rewrite Hpend, Hinst. simpl. rewrite Hcont. simpl.
  split_and!; try done; [by rewrite Hn|].
  exists (created (refs c)). split; [done|].
  projections. apply last_created_app_create.
Qed.

Lemma showing_steps (steps : list Step) (q : Props) (n : nat) (c : Component) :
  showing q n c →
  created (refs (foldl step c steps)) = n + reruns steps
  ∧ (unmounted steps = false →
     showing (effective_props q steps) (n + reruns steps) (foldl step c steps)).
Proof.
  revert q n c. induction steps as [|s steps IH]; intros q n c Hc.
  - simpl. rewrite Nat.add_0_r. split; [by destruct Hc as (_ & _ & _ & ? & _)|done].
  - destruct s as [p [|]|]; cbn [foldl reruns effective_props].
    + destruct (IH p (S n) _ (rerun_showing q p n c Hc)) as [Hcr Hshow].
      replace (n + S (reruns steps)) with (S n + reruns steps) by lia. done.
    + assert (step c (Commit p false) = c) as ->.
      { simpl. by rewrite andb_false_r. }
      by apply IH.
    + destruct Hc as (Hm & Hcont & Hpend & Hn & id & Hinst & _).
      rewrite step_unmounted by (simpl; by rewrite Hm).
      simpl. rewrite Hm. simpl. split; [|done].
      unfold run_cleanup, cleanup. rewrite Hpend, Hinst. simpl. lia.
Qed.

(** X18.  With the container in place, the map is built once at mount and
    rebuilt at every commit in which [center] or [zoom] changed: the number
    of maps created is one plus the number of such commits before the
    unmount; and while the
    component is mounted the live map is the one created with the centre,
    longitude first, and zoom of the last such commit. *)
Theorem map_rebuilt_on_change (p : Props) (steps : list Step) :
  length (creations (history (refs (run true p steps)))) = S (reruns steps)
  ∧ (unmounted steps = false →
     ∃ id, instance (refs (run true p steps)) = Some id
           ∧ live (history (refs (run true p steps))) = [id]
           ∧ last_created (history (refs (run true p steps)))
             = Some (id, center_lng (effective_props p steps),
                     center_lat (effective_props p steps),
                     zoom (effective_props p steps))).
Proof.
  assert (showing p 1 (mount true p)) as Hmount.
  { unfold showing, mount. simpl. split_and!; try done. by exists 0. }
  destruct (showing_steps steps p 1 _ Hmount) as [Hcreated Hshow].
  destruct (run_tidy true p steps) as (Hlive & _ & _ & Hcre & _).
  unfold run in *. split.
  - by rewrite Hcre, length_seq, Hcreated.
  - intros Hsteps. destruct (Hshow Hsteps) as (_ & _ & _ & _ & id & Hinst & Hlast).
    exists id. split_and!; try done. by rewrite Hlive, Hinst.
Qed.

End MapLife.

Lemma map_rebuilt_on_change_witness :
  let p := {| center_lat := -1.95; center_lng := 30.06; zoom := 12 |} in
  let q := {| center_lat := -2.5; center_lng := 29.75; zoom := 10 |} in
  unmounted [Commit p false; Commit q true] = false
  ∧ ∃ id, instance (refs (run true p [Commit p false; Commit q true])) = Some id
          ∧ live (history (refs (run true p [Commit p false; Commit q true]))) = [id]
          ∧ last_created (history (refs (run true p [Commit p false; Commit q true])))
            = Some (id, 29.75%float, (-2.5)%float, 10%float).
Proof.
  intros p q. split; [reflexivity|].
  exact (proj2 (map_rebuilt_on_change p [Commit p false; Commit q true]) eq_refl).
Defined.

Lemma one_live_map_witness :
  let p := {| center_lat := -1.95; center_lng := 30.06; zoom := 12 |} in
  unmounted [Commit p true; Unmount; Commit p true] = true
  ∧ live (history (refs (run true p [Commit p true; Unmount; Commit p true]))) = []
  ∧ instance (refs (run true p [Commit p true; Unmount; Commit p true])) = None.
Proof.
  intros p. split; [reflexivity|].
  destruct (one_live_map true p [Commit p true; Unmount; Commit p true])
    as (_ & _ & Hun & _).
  exact (Hun eq_refl).
Defined.

(* ===================================================================== *)
(** * What clicks and failed loads leave alone *)
(* ===================================================================== *)

Section LeftAlone.
Context `{MapEngine}.

Lemma click_layer_shape (k : nat) (v : View) (id : string) :
  layer_shape <$> layers (style (handleRouteClick k v)) !! id
  = layer_shape <$> layers (style v) !! id.
Proof.
  simpl. destruct (route_layer_dec (length (routes v)) id) as [(i & Hi & ->)|Hout].
  - rewrite each_index_toggle_at by lia.
    by destruct (layers (style v) !! layer_id i).
  - rewrite each_index_toggle_other; [done|]. intros i Hi. apply Hout. lia.
Qed.

(** X19.  No run of clicks adds, removes, recolours or resizes anything:
    the routes and the sources stay as they were, and every layer id holds
    a layer afterwards exactly if it did before, with the same source,
    colour and width; only visibilities change. *)
Theorem clicks_change_visibility_only (ks : list nat) (v : View) :
  routes (clicks ks v) = routes v
  ∧ sources (style (clicks ks v)) = sources (style v)
  ∧ ∀ id, layer_shape <$> layers (style (clicks ks v)) !! id
          = layer_shape <$> layers (style v) !! id.
Proof.
  revert v. induction ks as [|k ks IH]; intros v; [done|].
  unfold clicks in *. cbn [foldl].
  destruct (IH (handleRouteClick k v)) as (Hr & Hs & Hl). split_and!.
  - by rewrite Hr.
  - rewrite Hs. simpl. apply each_index_toggle_sources.
  - intros id. by rewrite Hl, click_layer_shape.
Qed.

End LeftAlone.

(* ===================================================================== *)
(** * Sessions: a load, then replies and clicks in any order *)
(* ===================================================================== *)

Section Sessions.
Context `{MapEngine}.

Lemma act_routes (v : View) (a : Action) : routes (act v a) = routes v.
Proof. by destruct a. Qed.

Lemma foldl_act_routes (actions : list Action) (v : View) :
  routes (foldl act v actions) = routes v.
Proof.
  revert v. induction actions as [|a actions IH]; intros v; [done|].
  simpl. by rewrite IH, act_routes.
Qed.

Lemma foldl_act_active (actions : list Action) (v : View) :
  clicked actions = [] → activeRouteId (foldl act v actions) = activeRouteId v.
Proof.
  revert v. induction actions as [|[i c r|k] actions IH]; intros v; try done.
  simpl. intros Hc. by rewrite (IH _ Hc).
Qed.

Lemma drawn_cons (a : Action) (actions : list Action) (i : nat) :
  drawn (a :: actions) i = drawn [a] i || drawn actions i.
Proof. unfold drawn. simpl. by rewrite orb_false_r. Qed.

Lemma drawn_app (l1 l2 : list Action) (i : nat) :
  drawn (l1 ++ l2) i = drawn l1 i || drawn l2 i.
Proof. apply existsb_app. Qed.

Lemma drawn_replied (actions : list Action) (i : nat) :
  drawn actions i = true → ∃ c, (i, c) ∈ replied actions.
Proof.
  unfold drawn. rewrite existsb_exists.
  intros ([j c r|k] & Hin & Ha); [|done].
  apply andb_true_iff in Ha as [->%Nat.eqb_eq _]. exists c.
  unfold replied. apply list_elem_of_omap. exists (Reply i c r).
  split; [by apply list_elem_of_In|done].
Qed.

Lemma reply_style (v : View) (i : nat) (c : option string) (response : Response) :
  style (act v (Reply i c response)) = complete (λ _, response) (style v) (i, c).
Proof. done. Qed.

Lemma act_has_layer (v : View) (a : Action) (i : nat) :
  has_layer (act v a) i = has_layer v i || drawn [a] i.
Proof.
  destruct a as [j c r|k].
  - unfold has_layer. rewrite reply_style. apply eq_true_iff_eq.
    rewrite bool_decide_eq_true, complete_layer_is_Some, orb_true_iff, bool_decide_eq_true.
    unfold drawn. simpl. rewrite orb_false_r, andb_true_iff, Nat.eqb_eq.
    split; (intros [?|[Hj ?]]; [by left|right; split; [|done]]).
    + by apply layer_id_inj in Hj.
    + by rewrite Hj.
  - simpl. by rewrite click_has_layer, orb_false_r.
Qed.

Lemma foldl_act_has_layer (actions : list Action) (v : View) (i : nat) :
  has_layer (foldl act v actions) i = has_layer v i || drawn actions i.
Proof.
  revert v. induction actions as [|a actions IH]; intros v.
  - by rewrite orb_false_r.
  - cbn [foldl]. rewrite IH, act_has_layer, (drawn_cons a actions). by rewrite orb_assoc.
Qed.

Lemma reply_is_visible (v : View) (j : nat) (c : option string) (response : Response)
    (i : nat) :
  is_visible (act v (Reply j c response)) i
  = ((j =? i) && draws response) || is_visible v i.
Proof.
  unfold is_visible. rewrite reply_style, complete_eq. unfold draws.
  destruct (directions_line response) as [[data|coordinates]|e];
    try by rewrite andb_false_r.
  destruct (line_accepts coordinates); [|by rewrite andb_false_r].
  simpl. rewrite andb_true_r. destruct (j =? i) eqn:Hji.
  - apply Nat.eqb_eq in Hji as ->. by rewrite lookup_insert_eq.
  - apply Nat.eqb_neq in Hji. rewrite lookup_insert_ne; [done|].
    by intros ?%layer_id_inj.
Qed.

Lemma foldl_replies_is_visible (actions : list Action) (v : View) (i : nat) :
  clicked actions = [] →
  is_visible (foldl act v actions) i = drawn actions i || is_visible v i.
Proof.
  revert v. induction actions as [|[j c r|k] actions IH]; intros v; try done.
  cbn [foldl]. intros Hc.
  rewrite (IH _ Hc), reply_is_visible, (drawn_cons (Reply j c r) actions).
  unfold drawn at 2. cbn [existsb]. rewrite orb_false_r.
  by destruct (drawn actions i), ((j =? i) && draws r), (is_visible v i).
Qed.

Lemma is_visible_has_layer (v : View) (i : nat) :
  is_visible v i = true → has_layer v i = true.
Proof.
  unfold is_visible, has_layer. destruct (layers (style v) !! layer_id i); [|done].
  intros _. by apply bool_decide_eq_true.
Qed.

Lemma mounted_view_Some (s : State) (v : View) :
  mounted_view s = Some v →
  v = {| routes := st_routes s; activeRouteId := st_active s; style := empty_style |}
  ∧ ∃ view, rendered s = Returned view.
Proof.
  unfold mounted_view. destruct (rendered s) as [view|e]; [|done].
  intros [= <-]. split; [done|by exists view].
Qed.


Lemma empty_has_layer (rs : list JSValue) (a : option nat) (i : nat) :
  has_layer {| routes := rs; activeRouteId := a; style := empty_style |} i = false.
Proof. unfold has_layer. simpl. rewrite lookup_empty. by apply bool_decide_eq_false. Qed.

Lemma empty_is_visible (rs : list JSValue) (a : option nat) (i : nat) :
  is_visible {| routes := rs; activeRouteId := a; style := empty_style |} i = false.
Proof. unfold is_visible. simpl. by rewrite lookup_empty. Qed.



(** C8, as the code has it.  Take a load, whatever the state before it, and
    any order of directions replies and clicks after it in which every reply
    answers a request of the load and no route is answered twice, and let
    the component still be on screen.  Before any click the active index is
    the one the state had (unset at the first load) and every line layer
    there is is visible.  When the last click selects [k]: the active index
    is [k]; a route has a layer exactly when a reply drew it; and the layer
    of route [i] is visible exactly when it was drawn before that click and
    [i] is [k], or was drawn after that click.  So right after the click the
    visible layers are the layer of [k] if there is one and no other; when
    there is none, every layer is hidden; and a line drawn after the click
    is visible beside the selected one until the next click. *)
Theorem selection_and_late_replies (response : Response) (before : State)
    (early late : list Action) (k : nat) (v : View) :
  scheduled (pending (fetchRoutesData response)) (early ++ Click k :: late) →
  clicked late = [] →
  session (state_after before (fetchRoutesData response)) (early ++ Click k :: late)
  = Some v →
  activeRouteId v = Some k
  ∧ (∀ i, has_layer v i = drawn (early ++ late) i)
  ∧ (∀ i, is_visible v i = (drawn early i && (i =? k)) || drawn late i)
  ∧ (late = [] → ∀ i, is_visible v i = true ↔ has_layer v i = true ∧ i = k)
  ∧ (late = [] → drawn early k = false → ∀ i, is_visible v i = false)
  ∧ (∀ actions v0,
       clicked actions = [] →
       session (state_after before (fetchRoutesData response)) actions = Some v0 →
       activeRouteId v0 = st_active before
       ∧ ∀ i, is_visible v0 i = has_layer v0 i ∧ has_layer v0 i = drawn actions i).
Proof.
  intros [_ Hsched] Hlate (v0 & Hv0 & ->)%fmap_Some.
  apply mounted_view_Some in Hv0 as [-> _].
  set (s := state_after before (fetchRoutesData response)) in *.
  set (v0 := {| routes := st_routes s; activeRouteId := st_active s; style := empty_style |}).
  rewrite foldl_app. cbn [foldl act].
  set (v1 := foldl act v0 early).
  assert (∀ i, has_layer v1 i = drawn early i) as Hearly.
  { intros i. unfold v1, v0. by rewrite foldl_act_has_layer, empty_has_layer. }
  assert (∀ i, is_visible (handleRouteClick k v1) i = drawn early i && (i =? k)) as Hclick.
  { intros i. destruct (decide (i < length (routes v1))) as [Hlt|Hge].
    - by rewrite click_is_visible, Hearly.
    - assert (drawn early i = false) as Hno.
      { destruct (drawn early i) eqn:Hd; [|done]. exfalso. apply Hge.
        destruct (drawn_replied _ _ Hd) as [c Hc].
        unfold v1. rewrite foldl_act_routes. simpl.
        apply (pending_below_routes response before i c). apply Hsched.
        unfold replied. rewrite omap_app. apply elem_of_app. by left. }
      rewrite Hno. simpl.
      destruct (is_visible (handleRouteClick k v1) i) eqn:Hvis; [|done].
      apply is_visible_has_layer in Hvis.
      rewrite click_has_layer, Hearly in Hvis. congruence. }
  assert (∀ i, is_visible (foldl act (handleRouteClick k v1) late) i
               = (drawn early i && (i =? k)) || drawn late i) as Hvis.
  { intros i. rewrite foldl_replies_is_visible, Hclick by done. apply orb_comm. }
  assert (∀ i, has_layer (foldl act (handleRouteClick k v1) late) i
               = drawn (early ++ late) i) as Hhas.
  { intros i. by rewrite foldl_act_has_layer, click_has_layer, Hearly, drawn_app. }
  split_and!.
  - by rewrite foldl_act_active.
  - exact Hhas.
  - exact Hvis.
  - intros -> i. rewrite Hvis, Hhas, app_nil_r. simpl.
    rewrite orb_false_r, andb_true_iff, Nat.eqb_eq. done.
  - intros -> Hk i. rewrite Hvis. simpl. rewrite orb_false_r.
    destruct (i =? k) eqn:Hik; [|by rewrite andb_false_r].
    apply Nat.eqb_eq in Hik as ->. by rewrite Hk.
  - intros actions w Hnone (w0 & Hw0 & ->)%fmap_Some.
    apply mounted_view_Some in Hw0 as [-> _]. split.
    + rewrite foldl_act_active by done. apply state_after_active.
    + intros i. rewrite foldl_replies_is_visible, foldl_act_has_layer by done.
      rewrite empty_has_layer, empty_is_visible. simpl. by rewrite orb_false_r.
Qed.


End Sessions.

Ltac with_session engine s actions :=
  let r := eval vm_compute in (@session engine s actions) in
  match r with
  | Some ?v =>
    assert (@session engine s actions = Some v) by (vm_compute; exact eq_refl);
    exists v
  end.


Lemma selection_and_late_replies_witness :
  let response := Json (Sample.reply Sample.two_routes) in
  let events := @fetchRoutesData Engines.checking response in
  let early := [Reply 0 (Some "#FF0000") (Json Sample.line_reply)] in
  let late := [Reply 1 (Some "#0000FF") (Json Sample.line_reply)] in
  scheduled (pending events) (early ++ Click 0 :: late)
  ∧ clicked late = []
  ∧ ∃ v, @session Engines.checking (state_after initial_state events)
           (early ++ Click 0 :: late) = Some v
         ∧ activeRouteId v = Some 0
         ∧ ∀ i, is_visible v i
                = (@drawn Engines.checking early i && (i =? 0))
                  || @drawn Engines.checking late i.
Proof.
  intros response events early late.
  assert (scheduled (pending events) (early ++ Click 0 :: late)) as Hsched.
  { split.
    - change (NoDup [0; 1]). apply NoDup_cons. split.
      + by intros ?%list_elem_of_singleton.
      + apply NoDup_singleton.
    - intros r Hr.
      change (r ∈ [(0, Some "#FF0000"); (1, Some "#0000FF")]) in Hr.
      assert (pending events = [(0, Some "#FF0000"); (1, Some "#0000FF")]) as ->
        by (vm_compute; exact eq_refl).
      exact Hr. }
  split; [exact Hsched|]. split; [reflexivity|].
  with_session Engines.checking (state_after initial_state events) (early ++ Click 0 :: late).
  match goal with Hs : session _ _ = Some ?v |- _ =>
    destruct (@selection_and_late_replies Engines.checking response initial_state
                early late 0 v Hsched eq_refl Hs) as (Hactive & _ & Hvis & _);
    split; [exact Hs|]; split; [exact Hactive|exact Hvis]
  end.
Defined.

(** C8, as worded, fails twice over.  Selecting a route whose directions
    lookup found nothing hides the one line there is: no layer is visible.
    And a line whose reply arrives after the selection is visible beside the
    selected one: two layers are visible. *)
Lemma selection_can_hide_every_line :
  let events := @fetchRoutesData Engines.checking (Json (Sample.reply Sample.two_routes)) in
  let s := state_after initial_state events in
  (∃ v, @session Engines.checking s
          [Reply 0 (Some "#FF0000") (Json Sample.line_reply);
           Reply 1 (Some "#0000FF") (Json Sample.no_route_reply);
           Click 1] = Some v
        ∧ length (routes v) = 2
        ∧ activeRouteId v = Some 1
        ∧ layers (style v) =
          {[ layer_id 0 := {| layer_source := source_id 0; line_color := Some "#FF0000";
                              line_width := 4; visibility := Hidden |} ]})
  ∧ (∃ v, @session Engines.checking s
            [Reply 1 (Some "#0000FF") (Json Sample.line_reply);
             Click 1;
             Reply 0 (Some "#FF0000") (Json Sample.line_reply)] = Some v
          ∧ activeRouteId v = Some 1
          ∧ is_visible v 0 = true
          ∧ is_visible v 1 = true).
Proof.
  intros events s. split.
  - with_session Engines.checking s [Reply 0 (Some "#FF0000") (Json Sample.line_reply);
                    Reply 1 (Some "#0000FF") (Json Sample.no_route_reply);
                    Click 1].
    split; [assumption|]. split_and!; vm_compute; exact eq_refl.
  - with_session Engines.checking s [Reply 1 (Some "#0000FF") (Json Sample.line_reply);
                    Click 1;
                    Reply 0 (Some "#FF0000") (Json Sample.line_reply)].
    split; [assumption|]. split_and!; vm_compute; exact eq_refl.
Qed.

